(** * capa.render: the result-document converter

    A shallow embedding of [capa/render/__init__.py] and theorems about it.

    Python values are embedded as the inductive [PyVal]; a [dict] is an
    association list in insertion order, a [set] is the list of its members in
    iteration order.  Fallible code runs in the monad [Res], whose failures are
    the Python exception classes the code can raise.  The mutable [meta]
    mappings of the rules live in a store ([heap]) and are named by locations,
    so that aliasing between a rule and the document built from it is kept. *)

From Stdlib Require Import ZArith String Ascii List Bool Lia.
From Stdlib Require Import Sorting.Sorted Sorting.Permutation.
From Stdlib Require Import Numbers.DecimalString.
From stdpp Require Import base option list gmap strings.

Set Warnings "-register-all".

Local Open Scope string_scope.
Local Open Scope list_scope.

(** ** Outcomes of Python code *)

Inductive exn : Set :=
| KeyError
| TypeError
| AttributeError
| IndexError
| RuntimeError.

(** [OutOfFuel] is not a Python outcome: it says that the recursion budget
    given to the model was too small to reach the end of the run. *)
Inductive Res (A : Type) : Type :=
| Ok (a : A)
| Raise (e : exn)
| OutOfFuel.

Arguments Ok {A} a.
Arguments Raise {A} e.
Arguments OutOfFuel {A}.

Definition bind {A B : Type} (m : Res A) (k : A -> Res B) : Res B :=
  match m with
  | Ok a => k a
  | Raise e => Raise e
  | OutOfFuel => OutOfFuel
  end.

Notation "'let*' x ':=' m 'in' k" := (bind m (fun x => k))
  (at level 10, x name, m at level 100, k at level 200).

Fixpoint mapM {A B : Type} (f : A -> Res B) (l : list A) : Res (list B) :=
  match l with
  | [] => Ok []
  | x :: l' => let* y := f x in let* ys := mapM f l' in Ok (y :: ys)
  end.

Fixpoint foldM {A S : Type} (f : S -> A -> Res S) (s : S) (l : list A) : Res S :=
  match l with
  | [] => Ok s
  | x :: l' => let* s' := f s x in foldM f s' l'
  end.

(** ** Python values *)

(** Hashable values used as mapping keys and set members: the result document
    only uses integers (addresses) and strings (names). *)
Inductive Key : Set :=
| KInt (z : Z)
| KStr (s : string).

Coercion KStr : string >-> Key.

Class KeyEq (K : Type) := {
  keq : K -> K -> bool;
  keq_spec : forall a b, keq a b = true <-> a = b
}.

#[export] Instance string_KeyEq : KeyEq string :=
  {| keq := String.eqb; keq_spec := String.eqb_eq |}.

#[export] Instance Z_KeyEq : KeyEq Z :=
  {| keq := Z.eqb; keq_spec := Z.eqb_eq |}.

Definition key_eqb (a b : Key) : bool :=
  match a, b with
  | KInt x, KInt y => Z.eqb x y
  | KStr x, KStr y => String.eqb x y
  | _, _ => false
  end.

Lemma key_eqb_eq a b : key_eqb a b = true <-> a = b.
Proof.
  destruct a, b; simpl; split; intros E; try discriminate.
  - apply Z.eqb_eq in E. now subst.
  - injection E as ->. apply Z.eqb_refl.
  - apply String.eqb_eq in E. now subst.
  - injection E as ->. apply String.eqb_refl.
Qed.

#[export] Instance Key_KeyEq : KeyEq Key :=
  {| keq := key_eqb; keq_spec := key_eqb_eq |}.

(** A Python [dict]: the entries in insertion order. *)
Definition pydict (K V : Type) : Type := list (K * V).

Section Dict.
Context {K V : Type} `{KeyEq K}.

Fixpoint dict_get (k : K) (d : pydict K V) : option V :=
  match d with
  | [] => None
  | (k', v) :: d' => if keq k k' then Some v else dict_get k d'
  end.

(** [d[k] = v]: an existing key keeps its place, a new one goes last. *)
Fixpoint dict_set (k : K) (v : V) (d : pydict K V) : pydict K V :=
  match d with
  | [] => [(k, v)]
  | (k', v') :: d' =>
      if keq k k' then (k', v) :: d' else (k', v') :: dict_set k v d'
  end.

Definition dict_mem (k : K) (d : pydict K V) : bool :=
  match dict_get k d with Some _ => true | None => false end.

(** [d[k]], raising [KeyError] on a missing key. *)
Definition getitem (d : pydict K V) (k : K) : Res V :=
  match dict_get k d with
  | Some v => Ok v
  | None => Raise KeyError
  end.

(** [{k: v for (k, v) in l}] *)
Definition dict_of_pairs (l : list (K * V)) : pydict K V :=
  fold_left (fun d p => dict_set (fst p) (snd p) d) l [].
End Dict.

Inductive PyVal : Type :=
| VNone
| VBool (b : bool)
| VInt (z : Z)
| VStr (s : string)
| VList (l : list PyVal)
| VDict (d : list (Key * PyVal))
| VSet (l : list Key)
| VObj (tag : string).

Abbreviation dict := (pydict Key PyVal).

(** Truth value of an object, as tested by [if x:] and [bool(x)]. *)
Definition py_truthy (v : PyVal) : bool :=
  match v with
  | VNone => false
  | VBool b => b
  | VInt z => negb (Z.eqb z 0)
  | VStr s => negb (String.eqb s "")
  | VList l => match l with [] => false | _ => true end
  | VDict d => match d with [] => false | _ => true end
  | VSet l => match l with [] => false | _ => true end
  | VObj _ => true
  end.

(** [v == s] for a string literal [s]. *)
Definition py_eq_str (v : PyVal) (s : string) : bool :=
  match v with
  | VStr s' => String.eqb s' s
  | _ => false
  end.

(** [v[k]] on a value; the values subscripted by this program are mappings. *)
Definition py_getitem (v : PyVal) (k : Key) : Res PyVal :=
  match v with
  | VDict d => getitem d k
  | _ => Raise TypeError
  end.

Definition key_val (k : Key) : PyVal :=
  match k with
  | KInt z => VInt z
  | KStr s => VStr s
  end.

Definition chars_of (s : string) : list PyVal :=
  (fun c => VStr (String c EmptyString)) <$> list_ascii_of_string s.

(** The sequence a [for] loop runs over. *)
Definition py_iter (v : PyVal) : Res (list PyVal) :=
  match v with
  | VList l => Ok l
  | VSet l => Ok (key_val <$> l)
  | VDict d => Ok ((fun p => key_val (fst p)) <$> d)
  | VStr s => Ok (chars_of s)
  | _ => Raise TypeError
  end.

(** [str.lower] on ASCII text. *)
Definition lower_ascii (c : ascii) : ascii :=
  let n := N_of_ascii c in
  if (N.leb 65 n && N.leb n 90)%bool then ascii_of_N (n + 32) else c.

Fixpoint lower (s : string) : string :=
  match s with
  | EmptyString => EmptyString
  | String c s' => String (lower_ascii c) (lower s')
  end.

(** ** The input of the converter: what the rule engine hands over *)

(** [capa.features.Feature]: [name], the text of [get_value_str()], the
    optional [description], and, on a regex feature, [matches]. *)
Record Feature : Type := {
  feature_name : string;
  feature_value_str : string;
  feature_description : option string;
  feature_matches : option PyVal
}.

(** [capa.engine.Statement] and its subclasses.  [name] is the class name. *)
Inductive Statement : Type :=
| And (description : option string)
| Or (description : option string)
| Not (description : option string)
| Some_ (count : Z) (description : option string)
| Range (child : Feature) (min max : Z) (description : option string)
| Subscope (scope : string) (description : option string).

Definition statement_name (s : Statement) : string :=
  match s with
  | And _ => "And"
  | Or _ => "Or"
  | Not _ => "Not"
  | Some_ _ _ => "Some"
  | Range _ _ _ _ => "Range"
  | Subscope _ _ => "Subscope"
  end.

Definition statement_description (s : Statement) : option string :=
  match s with
  | And d | Or d | Not d | Some_ _ d | Range _ _ _ d | Subscope _ d => d
  end.

(** Attribute reads; a class without the attribute raises [AttributeError]. *)
Definition statement_count (s : Statement) : Res Z :=
  match s with Some_ c _ => Ok c | _ => Raise AttributeError end.

Definition statement_min (s : Statement) : Res Z :=
  match s with Range _ m _ _ => Ok m | _ => Raise AttributeError end.

Definition statement_max (s : Statement) : Res Z :=
  match s with Range _ _ m _ => Ok m | _ => Raise AttributeError end.

Definition statement_child (s : Statement) : Res Feature :=
  match s with Range c _ _ _ => Ok c | _ => Raise AttributeError end.

Definition statement_scope (s : Statement) : Res string :=
  match s with Subscope sc _ => Ok sc | _ => Raise AttributeError end.

(** The object held by a result: a statement, a feature, or anything else. *)
Inductive Node : Type :=
| NStatement (s : Statement)
| NFeature (f : Feature)
| NOther (tag : string).

(** [capa.engine.Result].  [locations] is a set of addresses, given by its
    iteration order. *)
Inductive Result : Type := mkResult {
  result_success : bool;
  result_statement : Node;
  result_children : list Result;
  result_locations : list Z
}.

Abbreviation loc := nat.

(** [capa.rules.Rule]: [meta] is a mutable mapping, named by its location. *)
Record Rule : Type := {
  rule_name : string;
  rule_meta : loc;
  rule_definition : string
}.

(** [capa.rules.RuleSet]: [name in rules] and [rules[name]] go to [rules]. *)
Record RuleSet : Type := {
  rules : pydict string Rule;
  rules_by_namespace : pydict string (list Rule)
}.

(** [Dict[str, List[Tuple[int, Result]]]] *)
Definition Capabilities : Type := pydict string (list (Z * Result)).

(** The store of the mutable mappings. *)
Abbreviation heap := (gmap loc dict).

Definition deref (h : heap) (l : loc) : dict := default [] (h !! l).

(** ** Node converter *)

Definition set_description (d : option string) (result : dict) : dict :=
  match d with
  | Some s => if py_truthy (VStr s) then dict_set (KStr "description") (VStr s) result else result
  | None => result
  end.

Definition convert_feature_to_result_document (feature : Feature) : Res dict :=
  let result :=
    dict_set (KStr (feature_name feature)) (VStr (feature_value_str feature))
      [(KStr "type", VStr (feature_name feature))] in
  let result := set_description (feature_description feature) result in
  if String.eqb (feature_name feature) "regex" then
    match feature_matches feature with
    | Some m => Ok (dict_set (KStr "matches") m result)
    | None => Raise AttributeError
    end
  else Ok result.

Definition convert_statement_to_result_document (statement : Statement) : Res dict :=
  let statement_type := lower (statement_name statement) in
  let result := [(KStr "type", VStr statement_type)] in
  let result := set_description (statement_description statement) result in
  let* optional := (if String.eqb statement_type "some"
                    then let* count := statement_count statement in Ok (Z.eqb count 0)
                    else Ok false) in
  if (optional : bool) then Ok (dict_set (KStr "type") (VStr "optional") result)
  else if String.eqb statement_type "some" then
    let* count := statement_count statement in
    Ok (dict_set (KStr "count") (VInt count) result)
  else if String.eqb statement_type "range" then
    let* min := statement_min statement in
    let result := dict_set (KStr "min") (VInt min) result in
    let* max := statement_max statement in
    let result := dict_set (KStr "max") (VInt max) result in
    let* child := statement_child statement in
    let* child_doc := convert_feature_to_result_document child in
    Ok (dict_set (KStr "child") (VDict child_doc) result)
  else if String.eqb statement_type "subscope" then
    let* scope := statement_scope statement in
    Ok (dict_set (KStr "subscope") (VStr scope) result)
  else Ok result.

Definition convert_node_to_result_document (node : Node) : Res dict :=
  match node with
  | NStatement s =>
      let* d := convert_statement_to_result_document s in
      Ok [(KStr "type", VStr "statement"); (KStr "statement", VDict d)]
  | NFeature f =>
      let* d := convert_feature_to_result_document f in
      Ok [(KStr "type", VStr "feature"); (KStr "feature", VDict d)]
  | NOther _ => Raise RuntimeError
  end.

(** ** Match-tree splicer *)

(** [doc["children"].append(child)] *)
Definition append_child (doc : dict) (child : PyVal) : Res dict :=
  let* children := getitem doc (KStr "children") in
  match children with
  | VList l => Ok (dict_set (KStr "children") (VList (l ++ [child])) doc)
  | _ => Raise AttributeError
  end.

(** [rule_matches[location]]: the index is keyed by integer addresses. *)
Definition lookup_location (rule_matches : pydict Z Result) (location : PyVal)
  : Res Result :=
  match location with
  | VInt a => getitem rule_matches a
  | VBool b => getitem rule_matches (Z.b2z b)
  | VList _ | VDict _ | VSet _ => Raise TypeError
  | _ => Raise KeyError
  end.

(** The node that stands for a subscope rule. *)
Definition subscope_node (scope : PyVal) : PyVal :=
  VDict [(KStr "type", VStr "statement");
         (KStr "statement",
          VDict [(KStr "type", VStr "subscope"); (KStr "subscope", scope)])].

(** The [locations] assignment of lines 120-125. *)
Definition attach_locations (result : Result) (doc : dict) : dict :=
  match result_statement result with
  | NFeature _ =>
      if result_success result
      then dict_set (KStr "locations") (VSet (KInt <$> result_locations result)) doc
      else doc
  | NStatement (Range _ _ _ _) =>
      if result_success result
      then dict_set (KStr "locations") (VSet (KInt <$> result_locations result)) doc
      else doc
  | _ => doc
  end.

(** The test of lines 135-141, with the short-circuit of [and]. *)
Definition is_successful_match (doc : dict) : Res bool :=
  let* node := getitem doc (KStr "node") in
  let* node_type := py_getitem node (KStr "type") in
  if py_eq_str node_type "feature" then
    let* feature := py_getitem node (KStr "feature") in
    let* feature_type := py_getitem feature (KStr "type") in
    if py_eq_str feature_type "match" then
      let* success := getitem doc (KStr "success") in
      Ok (py_truthy success)
    else Ok false
  else Ok false.

(** [doc["node"]["feature"]["match"]] *)
Definition referenced_name (doc : dict) : Res PyVal :=
  let* node := getitem doc (KStr "node") in
  let* feature := py_getitem node (KStr "feature") in
  py_getitem feature (KStr "match").

(** The loop [for location in doc["locations"]: doc["children"].append(...)]. *)
Definition splice_locations (recur : Result -> Res dict)
    (rule_matches : pydict Z Result) (doc : dict) : Res dict :=
  let* locations := getitem doc (KStr "locations") in
  let* locations := py_iter locations in
  foldM (fun doc location =>
           let* m := lookup_location rule_matches location in
           let* child := recur m in
           append_child doc (VDict child))
        doc locations.

(** The recursion follows the children of the result and, through the
    capabilities, the trees of the rules a result refers to; the second is
    not bounded by the input tree, so the function takes a budget.  The value
    read under [match] is the text of [get_value_str()], a string; the
    branches for another kind of value are never taken. *)
Fixpoint convert_match_to_result_document (fuel : nat) (h : heap)
    (rules_ : RuleSet) (capabilities : Capabilities) (result : Result)
  : Res dict :=
  match fuel with
  | O => OutOfFuel
  | S fuel =>
    let recur := convert_match_to_result_document fuel h rules_ capabilities in
    let* node := convert_node_to_result_document (result_statement result) in
    let* children := mapM recur (result_children result) in
    let doc := [(KStr "success", VBool (result_success result));
                (KStr "node", VDict node);
                (KStr "children", VList (VDict <$> children))] in
    let doc := attach_locations result doc in
    let* is_match := is_successful_match doc in
    if (is_match : bool) then
      let* name := referenced_name doc in
      match name with
      | VStr name =>
        if dict_mem name (rules rules_) then
          let* rule_name := referenced_name doc in
          match rule_name with
          | VStr rule_name =>
            let* rule := getitem (rules rules_) rule_name in
            let* matches := getitem capabilities rule_name in
            let rule_matches := dict_of_pairs matches in
            let meta := deref h (rule_meta rule) in
            let* doc :=
              (if py_truthy (default VNone (dict_get (KStr "capa/subscope-rule") meta))
               then let* scope := getitem meta (KStr "scope") in
                    Ok (dict_set (KStr "node") (subscope_node scope) doc)
               else Ok doc) in
            splice_locations recur rule_matches doc
          | _ => Raise TypeError
          end
        else
          let* ns_name := referenced_name doc in
          match ns_name with
          | VStr ns_name =>
            let* ns_rules := getitem (rules_by_namespace rules_) ns_name in
            foldM (fun doc rule =>
                     if dict_mem (rule_name rule) capabilities then
                       let* matches := getitem capabilities (rule_name rule) in
                       let rule_matches := dict_of_pairs matches in
                       splice_locations recur rule_matches doc
                     else Ok doc)
                  doc ns_rules
          | _ => Raise TypeError
          end
      | _ => Raise TypeError
      end
    else Ok doc
  end.

(** ** Taxonomy parser and document assembler *)

(** [l[i]], raising [IndexError] out of range. *)
Definition list_getitem {A : Type} (l : list A) (i : nat) : Res A :=
  match l !! i with
  | Some x => Ok x
  | None => Raise IndexError
  end.

(** One rule of the document's [rules] mapping.  [entry_meta] is the mapping
    object itself (the location of the rule's [meta]), not a copy of it. *)
Record RuleEntry : Type := {
  entry_meta : loc;
  entry_source : string;
  entry_matches : pydict Z dict
}.

(** The document [{"meta": ..., "rules": {...}}]. *)
Record ResultDocument : Type := {
  doc_meta : PyVal;
  doc_rules : pydict string RuleEntry
}.

(** [rule.meta.get("capa/subscope-rule")], as a truth value. *)
Definition is_subscope_rule (h : heap) (rule : Rule) : bool :=
  py_truthy (default VNone (dict_get (KStr "capa/subscope-rule") (deref h (rule_meta rule)))).

Section Assembler.
(** [capa.render.utils.parse_parts_id] is not among the sources: the code
    below is stated for any helper that returns, or fails to return, a pair
    of a list of parts and an identifier. *)
Variable parse_parts_id : PyVal -> Res (list string * string).

Definition parse_canonical_attack (attack : PyVal) : Res dict :=
  let tactic := "" in
  let technique := "" in
  let subtechnique := "" in
  let* parts_id := parse_parts_id attack in
  let parts := fst parts_id in
  let id := snd parts_id in
  let* tactic := (if Nat.ltb 0 (length parts) then list_getitem parts 0 else Ok tactic) in
  let* technique := (if Nat.ltb 1 (length parts) then list_getitem parts 1 else Ok technique) in
  let* subtechnique :=
    (if Nat.ltb 2 (length parts) then list_getitem parts 2 else Ok subtechnique) in
  Ok [(KStr "parts", VList (VStr <$> parts));
      (KStr "id", VStr id);
      (KStr "tactic", VStr tactic);
      (KStr "technique", VStr technique);
      (KStr "subtechnique", VStr subtechnique)].

Definition parse_canonical_mbc (mbc : PyVal) : Res dict :=
  let objective := "" in
  let behavior := "" in
  let method := "" in
  let* parts_id := parse_parts_id mbc in
  let parts := fst parts_id in
  let id := snd parts_id in
  let* objective := (if Nat.ltb 0 (length parts) then list_getitem parts 0 else Ok objective) in
  let* behavior := (if Nat.ltb 1 (length parts) then list_getitem parts 1 else Ok behavior) in
  let* method := (if Nat.ltb 2 (length parts) then list_getitem parts 2 else Ok method) in
  Ok [(KStr "parts", VList (VStr <$> parts));
      (KStr "id", VStr id);
      (KStr "objective", VStr objective);
      (KStr "behavior", VStr behavior);
      (KStr "method", VStr method)].

(** [meta] is the mapping at location [meta] of the store; the function
    writes to it and returns the same object. *)
Definition convert_meta_to_result_document (h : heap) (meta : loc) : Res (heap * loc) :=
  let attacks := default (VList []) (dict_get (KStr "att&ck") (deref h meta)) in
  let* attacks := py_iter attacks in
  let* attacks := mapM parse_canonical_attack attacks in
  let h := <[meta := dict_set (KStr "att&ck") (VList (VDict <$> attacks)) (deref h meta)]> h in
  let mbcs := default (VList []) (dict_get (KStr "mbc") (deref h meta)) in
  let* mbcs := py_iter mbcs in
  let* mbcs := mapM parse_canonical_mbc mbcs in
  let h := <[meta := dict_set (KStr "mbc") (VList (VDict <$> mbcs)) (deref h meta)]> h in
  Ok (h, meta).

(** One turn of the loop over [capabilities.items()]. *)
Definition convert_rule (fuel : nat) (rules_ : RuleSet) (capabilities : Capabilities)
    (st : pydict string RuleEntry * heap) (item : string * list (Z * Result))
  : Res (pydict string RuleEntry * heap) :=
  let doc_rules_ := fst st in
  let h := snd st in
  let rule_name := fst item in
  let matches := snd item in
  let* rule := getitem (rules rules_) rule_name in
  if is_subscope_rule h rule then Ok (doc_rules_, h)
  else
    let* hm := convert_meta_to_result_document h (rule_meta rule) in
    let h := fst hm in
    let rule_meta_ := snd hm in
    let* converted :=
      mapM (fun am =>
              let* d := convert_match_to_result_document fuel h rules_ capabilities (snd am) in
              Ok (fst am, d))
           matches in
    Ok (dict_set rule_name
          {| entry_meta := rule_meta_;
             entry_source := rule_definition rule;
             entry_matches := dict_of_pairs converted |}
          doc_rules_,
        h).

Definition convert_capabilities_to_result_document (fuel : nat) (h : heap)
    (meta : PyVal) (rules_ : RuleSet) (capabilities : Capabilities)
  : Res (ResultDocument * heap) :=
  let* st := foldM (convert_rule fuel rules_ capabilities) ([], h) capabilities in
  Ok ({| doc_meta := meta; doc_rules := fst st |}, snd st).
End Assembler.

(** Modelled from the spec: [capa.render.utils.parse_parts_id], which is not
    among the sources.  The text read is [Seg1[::Seg2[::Seg3]] [ID]]:
    segments separated by a double colon, then, after a space, an optional
    identifier in brackets; an absent identifier is the empty string and the
    parts are those actually present. *)
Fixpoint split_identifier (s : string) : string * option string :=
  match s with
  | EmptyString => (EmptyString, None)
  | String " " (String "[" rest) => (EmptyString, Some rest)
  | String c s' =>
      let r := split_identifier s' in (String c (fst r), snd r)
  end.

Fixpoint strip_bracket (s : string) : string :=
  match s with
  | EmptyString => EmptyString
  | String "]" EmptyString => EmptyString
  | String c s' => String c (strip_bracket s')
  end.

Fixpoint split_segments (current : string) (s : string) : list string :=
  match s with
  | EmptyString => [current]
  | String ":" (String ":" rest) => current :: split_segments EmptyString rest
  | String c s' => split_segments (current ++ String c EmptyString) s'
  end.

Definition spec_parse_parts_id (v : PyVal) : Res (list string * string) :=
  match v with
  | VStr s =>
      let r := split_identifier s in
      Ok (if String.eqb (fst r) "" then [] else split_segments "" (fst r),
          match snd r with Some i => strip_bracket i | None => "" end)
  | _ => Raise AttributeError
  end.

(** ** Encoder *)

Infix "+++" := String.append (at level 60, right associativity).

(** [sorted]: a stable sort by insertion. *)
Section Sort.
Context {A : Type} (leb : A -> A -> bool).

Fixpoint insert_sorted (x : A) (l : list A) : list A :=
  match l with
  | [] => [x]
  | y :: l' => if leb x y then x :: l else y :: insert_sorted x l'
  end.

Fixpoint isort (l : list A) : list A :=
  match l with
  | [] => []
  | x :: l' => insert_sorted x (isort l')
  end.
End Sort.

(** The order of Python on integers and on strings. *)
Definition key_leb (a b : Key) : bool :=
  match a, b with
  | KInt x, KInt y => Z.leb x y
  | KStr x, KStr y => String.leb x y
  | _, _ => false
  end.

Definition is_int (k : Key) : bool := match k with KInt _ => true | KStr _ => false end.
Definition is_str (k : Key) : bool := match k with KInt _ => false | KStr _ => true end.

(** Integers and strings do not compare: [sorted] raises [TypeError] on a
    collection that holds both. *)
Definition homogeneous (l : list Key) : bool :=
  (forallb is_int l || forallb is_str l)%bool.

Definition py_sorted_by {A : Type} (key : A -> Key) (l : list A) : Res (list A) :=
  if homogeneous (List.map key l)
  then Ok (isort (fun a b => key_leb (key a) (key b)) l)
  else Raise TypeError.

Definition py_sorted (l : list Key) : Res (list Key) := py_sorted_by (fun k => k) l.

(** [CapaJsonObjectEncoder.default]: a set becomes its sorted list; any other
    object handed to [default] ends in [TypeError]. *)
Definition CapaJsonObjectEncoder_default (obj : PyVal) : Res PyVal :=
  match obj with
  | VList _ | VDict _ | VInt _ | VBool _ | VNone | VStr _ => Raise TypeError
  | VSet l => let* s := py_sorted l in Ok (VList (List.map key_val s))
  | VObj _ => Raise TypeError
  end.

Definition repr_int (z : Z) : string := NilZero.string_of_int (Z.to_int z).

Definition quote : ascii := "034"%char.
Definition backslash : ascii := "092"%char.

Definition hex_digit (n : N) : ascii :=
  nth (N.to_nat n) (list_ascii_of_string "0123456789abcdef") "0"%char.

(** The replacement of one character by [json.encoder.py_encode_basestring_ascii]. *)
Definition escape_char (c : ascii) : string :=
  let n := N_of_ascii c in
  if N.eqb n 34 then String backslash (String quote EmptyString)
  else if N.eqb n 92 then String backslash (String backslash EmptyString)
  else if N.eqb n 10 then String backslash "n"
  else if N.eqb n 13 then String backslash "r"
  else if N.eqb n 9 then String backslash "t"
  else if N.eqb n 12 then String backslash "f"
  else if N.eqb n 8 then String backslash "b"
  else if (N.ltb n 32 || N.ltb 126 n)%bool then
    String backslash
      (String "u" (String "0" (String "0"
        (String (hex_digit (N.div n 16)) (String (hex_digit (N.modulo n 16)) EmptyString)))))
  else String c EmptyString.

Fixpoint escape (s : string) : string :=
  match s with
  | EmptyString => EmptyString
  | String c s' => escape_char c +++ escape s'
  end.

Definition encode_basestring_ascii (s : string) : string :=
  String quote (escape s +++ String quote EmptyString).

Fixpoint join (sep : string) (l : list string) : string :=
  match l with
  | [] => EmptyString
  | [x] => x
  | x :: l' => x +++ sep +++ join sep l'
  end.

(** The text of a mapping key: a string as it is, an integer by its digits. *)
Definition key_text (k : Key) : string :=
  match k with
  | KStr s => s
  | KInt z => repr_int z
  end.

(** The encoding of an integer or a string held in a sorted set. *)
Definition dumps_key (k : Key) : string :=
  match k with
  | KStr s => encode_basestring_ascii s
  | KInt z => repr_int z
  end.

Definition dumps_item (item : Key * Res string) : Res string :=
  let* v := snd item in
  Ok (encode_basestring_ascii (key_text (fst item)) +++ ": " +++ v).

(** [json.dumps(v, cls=CapaJsonObjectEncoder, sort_keys=True)].  The members
    of a mapping are encoded, then put in key order; the outcome is that of
    encoding them in key order, every failure of the encoder being a
    [TypeError].  On a set the encoder calls [default] and encodes the list it
    returns ([dumps_default] below). *)
Fixpoint dumps (v : PyVal) : Res string :=
  match v with
  | VNone => Ok "null"
  | VBool true => Ok "true"
  | VBool false => Ok "false"
  | VInt z => Ok (repr_int z)
  | VStr s => Ok (encode_basestring_ascii s)
  | VList l =>
      let* items := mapM (fun x => x) (List.map dumps l) in
      Ok ("[" +++ join ", " items +++ "]")
  | VDict d =>
      let* items := py_sorted_by fst (List.map (fun p => (fst p, dumps (snd p))) d) in
      let* items := mapM dumps_item items in
      Ok ("{" +++ join ", " items +++ "}")
  | VSet l =>
      let* s := py_sorted l in
      Ok ("[" +++ join ", " (List.map dumps_key s) +++ "]")
  | VObj _ => Raise TypeError
  end.

(** The document as the encoder sees it: every [meta] is the content of the
    mapping it names. *)
Definition entry_value (h : heap) (e : RuleEntry) : PyVal :=
  VDict [(KStr "meta", VDict (deref h (entry_meta e)));
         (KStr "source", VStr (entry_source e));
         (KStr "matches",
          VDict (List.map (fun p => (KInt (fst p), VDict (snd p))) (entry_matches e)))].

Definition document_value (h : heap) (doc : ResultDocument) : PyVal :=
  VDict [(KStr "meta", doc_meta doc);
         (KStr "rules",
          VDict (List.map (fun p => (KStr (fst p), entry_value h (snd p))) (doc_rules doc)))].

Definition render_json (parse_parts_id : PyVal -> Res (list string * string))
    (fuel : nat) (h : heap) (meta : PyVal) (rules_ : RuleSet)
    (capabilities : Capabilities) : Res (string * heap) :=
  let* dh := convert_capabilities_to_result_document parse_parts_id fuel h meta
               rules_ capabilities in
  let* text := dumps (document_value (snd dh) (fst dh)) in
  Ok (text, snd dh).

(** * Derived notions used in the statements *)

(** ** Documents of the splicer *)

(** The mapping built for a node without locations, and with them. *)
Definition node_doc (success : bool) (node : PyVal) (children : list PyVal) : dict :=
  [(KStr "success", VBool success); (KStr "node", node); (KStr "children", VList children)].

Definition located_doc (success : bool) (node : PyVal) (children : list PyVal)
    (locations : list Z) : dict :=
  [(KStr "success", VBool success); (KStr "node", node);
   (KStr "children", VList children); (KStr "locations", VSet (KInt <$> locations))].

(** The tree of the referenced rule at one address of the location set. *)
Definition splice_at (recur : Result -> Res dict) (rule_matches : pydict Z Result)
    (address : Z) : Res dict :=
  let* m := getitem rule_matches address in recur m.

(** ** A successful [match] feature

    What the node converter returns on a feature whose name is [match]. *)
Definition match_feature_doc (f : Feature) : dict :=
  set_description (feature_description f)
    [(KStr "type", VStr "match"); (KStr "match", VStr (feature_value_str f))].

Definition match_node (f : Feature) : PyVal :=
  VDict [(KStr "type", VStr "feature"); (KStr "feature", VDict (match_feature_doc f))].

(** The trees one rule of a namespace contributes. *)
Definition splice_rule (recur : Result -> Res dict) (capabilities : Capabilities)
    (locations : list Z) (rule : Rule) : Res (list dict) :=
  if dict_mem (rule_name rule) capabilities then
    let* matches := getitem capabilities (rule_name rule) in
    mapM (splice_at recur (dict_of_pairs matches)) locations
  else Ok [].

(** The order the specification asks of the spliced children: the trees at
    the addresses of the location set, smallest address first. *)
Definition spliced_ascending (recur : Result -> Res dict)
    (rule_matches : pydict Z Result) (locations : list Z) (spliced : list dict) : Prop :=
  mapM (splice_at recur rule_matches) (isort Z.leb locations) = Ok spliced.

(** ** Nodes of a document *)

(** The part of [convert_match_to_result_document] that follows the test of
    lines 135-141, on the document [doc] built so far. *)
Definition splice_references (recur : Result -> Res dict) (h : heap)
    (rules_ : RuleSet) (capabilities : Capabilities) (doc : dict) : Res dict :=
  let* name := referenced_name doc in
  match name with
  | VStr name =>
    if dict_mem name (rules rules_) then
      let* rule_name := referenced_name doc in
      match rule_name with
      | VStr rule_name =>
        let* rule := getitem (rules rules_) rule_name in
        let* matches := getitem capabilities rule_name in
        let rule_matches := dict_of_pairs matches in
        let meta := deref h (rule_meta rule) in
        let* doc :=
          (if py_truthy (default VNone (dict_get (KStr "capa/subscope-rule") meta))
           then let* scope := getitem meta (KStr "scope") in
                Ok (dict_set (KStr "node") (subscope_node scope) doc)
           else Ok doc) in
        splice_locations recur rule_matches doc
      | _ => Raise TypeError
      end
    else
      let* ns_name := referenced_name doc in
      match ns_name with
      | VStr ns_name =>
        let* ns_rules := getitem (rules_by_namespace rules_) ns_name in
        foldM (fun doc rule =>
                 if dict_mem (rule_name rule) capabilities then
                   let* matches := getitem capabilities (rule_name rule) in
                   let rule_matches := dict_of_pairs matches in
                   splice_locations recur rule_matches doc
                 else Ok doc)
              doc ns_rules
      | _ => Raise TypeError
      end
  | _ => Raise TypeError
  end.

(** The document has a [locations] key. *)
Definition has_locations (doc : dict) : bool := dict_mem (KStr "locations") doc.

(** The result is that of a feature or of a [range] statement, and succeeded. *)
Definition locations_expected (result : Result) : bool :=
  match result_statement result with
  | NFeature _ => result_success result
  | NStatement (Range _ _ _ _) => result_success result
  | _ => false
  end.

(** [doc_node doc doc']: [doc'] is a node of the tree [doc], that is [doc]
    itself or a node of one of its [children]. *)
Inductive doc_node : dict -> dict -> Prop :=
| doc_node_self (doc : dict) : doc_node doc doc
| doc_node_child (doc : dict) (children : list PyVal) (child doc' : dict) :
    dict_get (KStr "children") doc = Some (VList children) ->
    In (VDict child) children ->
    doc_node child doc' ->
    doc_node doc doc'.

(** The type of the statement of a document node, if it is a statement. *)
Definition doc_statement_type (doc : dict) : option string :=
  match dict_get (KStr "node") doc with
  | Some (VDict node) =>
      match dict_get (KStr "type") node, dict_get (KStr "statement") node with
      | Some (VStr "statement"), Some (VDict statement) =>
          match dict_get (KStr "type") statement with
          | Some (VStr t) => Some t
          | _ => None
          end
      | _, _ => None
      end
  | _ => None
  end.

(** The node stands for one of the logical connectives. *)
Definition connective_doc (doc : dict) : Prop :=
  exists t, doc_statement_type doc = Some t
            /\ In t ["and"; "or"; "not"; "some"; "optional"].

(** The [node] entry a result is given: the converted statement, the
    converted feature, or the node of a subscope rule in place of the
    feature. *)
Definition node_of (result : Result) (node : PyVal) : Prop :=
  match result_statement result with
  | NStatement s =>
      exists d, convert_statement_to_result_document s = Ok d
                /\ node = VDict [(KStr "type", VStr "statement"); (KStr "statement", VDict d)]
  | NFeature f =>
      (exists d, convert_feature_to_result_document f = Ok d
                 /\ node = VDict [(KStr "type", VStr "feature"); (KStr "feature", VDict d)])
      \/ (exists scope, node = subscope_node scope)
  | NOther _ => False
  end.

(** ** Values handed to the encoder *)

(** The invariants of Python's collections: the keys of a mapping are
    distinct, and so are the members of a set. *)
Inductive well_formed : PyVal -> Prop :=
| wf_none : well_formed VNone
| wf_bool (b : bool) : well_formed (VBool b)
| wf_int (z : Z) : well_formed (VInt z)
| wf_str (s : string) : well_formed (VStr s)
| wf_list (l : list PyVal) : Forall well_formed l -> well_formed (VList l)
| wf_dict (d : list (Key * PyVal)) :
    NoDup (List.map fst d) ->
    Forall (fun p => well_formed (snd p)) d ->
    well_formed (VDict d)
| wf_set (l : list Key) : NoDup l -> well_formed (VSet l)
| wf_obj (tag : string) : well_formed (VObj tag).

(** The same value up to the insertion order of its mappings and the
    iteration order of its sets, at any depth. *)
Inductive same_content : PyVal -> PyVal -> Prop :=
| same_refl (v : PyVal) : same_content v v
| same_list (l l' : list PyVal) :
    Forall2 same_content l l' -> same_content (VList l) (VList l')
| same_dict (d d0 d' : list (Key * PyVal)) :
    Permutation d d0 ->
    Forall2 (fun p q => fst p = fst q /\ same_content (snd p) (snd q)) d0 d' ->
    same_content (VDict d) (VDict d')
| same_set (l l' : list Key) : Permutation l l' -> same_content (VSet l) (VSet l').

(** The value holds, at some depth of its lists and mappings, an object of a
    kind the encoder does not support. *)
Inductive holds_unsupported : PyVal -> Prop :=
| unsupported_here (tag : string) : holds_unsupported (VObj tag)
| unsupported_in_list (l : list PyVal) (v : PyVal) :
    In v l -> holds_unsupported v -> holds_unsupported (VList l)
| unsupported_in_dict (d : list (Key * PyVal)) (k : Key) (v : PyVal) :
    In (k, v) d -> holds_unsupported v -> holds_unsupported (VDict d).

(** ** The assembler's loop *)

(** The mapping at [l] holds both taxonomy keys, each with a list of parsed
    records. *)
Definition normalized (h : heap) (l : loc) : Prop :=
  exists attacks mbcs : list dict,
    dict_get (KStr "att&ck") (deref h l) = Some (VList (VDict <$> attacks))
    /\ dict_get (KStr "mbc") (deref h l) = Some (VList (VDict <$> mbcs)).

(** What holds of the [rules] mapping built so far and of the store, from the
    store [h0] the run started in. *)
Definition assembler_invariant (h0 : heap) (rules_ : RuleSet)
    (capabilities : Capabilities) (st : pydict string RuleEntry * heap) : Prop :=
  (forall (l : loc) (k : Key),
     k <> KStr "att&ck" -> k <> KStr "mbc" ->
     dict_get k (deref (snd st) l) = dict_get k (deref h0 l))
  /\ (forall (name : string) (e : RuleEntry),
        dict_get name (fst st) = Some e ->
        exists rule matches,
          dict_get name (rules rules_) = Some rule
          /\ In (name, matches) capabilities
          /\ is_subscope_rule h0 rule = false
          /\ entry_meta e = rule_meta rule
          /\ entry_source e = rule_definition rule
          /\ normalized (snd st) (rule_meta rule)).

(** ** Worked inputs

    Rule [A] refers to the subscope rule [B] (scope [basic block]), which
    matched at address 0x401000.  The namespace [net] holds the rules [X] and
    [Y]; [Y] matched at 0x5000.  Rule [R] matched at the addresses 1 and 8. *)
Module Example.
Definition feature (name value : string) : Feature :=
  {| feature_name := name; feature_value_str := value;
     feature_description := None; feature_matches := None |}.

Definition leaf (name value : string) (locations : list Z) : Result :=
  mkResult true (NFeature (feature name value)) [] locations.

Definition tree_B : Result :=
  mkResult true (NStatement (And None)) [leaf "api" "CreateFile" [4198400%Z]] [].

Definition ref_B : Result :=
  mkResult true (NFeature (feature "match" "B")) [] [4198400%Z].

Definition tree_A : Result :=
  mkResult true (NStatement (Or (Some "entry"))) [ref_B] [].

Definition tree_X : Result := leaf "api" "connect" [24576%Z].
Definition tree_Y : Result := leaf "api" "socket" [20480%Z].

Definition rule_A : Rule :=
  {| rule_name := "A"; rule_meta := 0; rule_definition := "rule: A" |}.

Definition rule_B : Rule :=
  {| rule_name := "B"; rule_meta := 1; rule_definition := "rule: B" |}.

Definition rule_X : Rule :=
  {| rule_name := "X"; rule_meta := 2; rule_definition := "rule: X" |}.

Definition rule_Y : Rule :=
  {| rule_name := "Y"; rule_meta := 3; rule_definition := "rule: Y" |}.

Definition rule_R : Rule :=
  {| rule_name := "R"; rule_meta := 4; rule_definition := "rule: R" |}.

Definition ruleset : RuleSet :=
  {| rules := [("A", rule_A); ("B", rule_B); ("X", rule_X); ("Y", rule_Y);
               ("R", rule_R)];
     rules_by_namespace := [("net", [rule_X; rule_Y])] |}.

Definition capabilities : Capabilities :=
  [("A", [(4198400%Z, tree_A)]);
   ("B", [(4198400%Z, tree_B)]);
   ("Y", [(20480%Z, tree_Y)]);
   ("R", [(1%Z, leaf "number" "1" [1%Z]); (8%Z, leaf "number" "8" [8%Z])])].

(** As [capabilities], with a match of [X] at another address. *)
Definition capabilities_X : Capabilities :=
  capabilities ++ [("X", [(24576%Z, tree_X)])].

Definition meta_A : dict :=
  [(KStr "name", VStr "A");
   (KStr "att&ck", VList [VStr "Persistence::Boot [T1547]"])].

Definition meta_B : dict :=
  [(KStr "name", VStr "B");
   (KStr "scope", VStr "basic block");
   (KStr "capa/subscope-rule", VBool true)].

Definition store : heap :=
  <[4 := [(KStr "name", VStr "R")]]>
    (<[3 := [(KStr "name", VStr "Y")]]>
       (<[2 := [(KStr "name", VStr "X")]]>
          (<[1 := meta_B]> (<[0 := meta_A]> ∅)))).

Definition feature_node (name value : string) : PyVal :=
  VDict [(KStr "type", VStr "feature");
         (KStr "feature", VDict [(KStr "type", VStr name); (KStr name, VStr value)])].

Definition leaf_doc (name value : string) (locations : list Z) : dict :=
  located_doc true (feature_node name value) [] locations.

Definition doc_B : dict :=
  node_doc true
    (VDict [(KStr "type", VStr "statement");
            (KStr "statement", VDict [(KStr "type", VStr "and")])])
    [VDict (leaf_doc "api" "CreateFile" [4198400%Z])].

(** A reference to [B] at an address where [B] has no match. *)
Definition ref_B_elsewhere : Result :=
  mkResult true (NFeature (feature "match" "B")) [] [4198400%Z; 2%Z].

(** A reference to a name that is neither a rule nor a namespace. *)
Definition ref_unknown : Result :=
  mkResult true (NFeature (feature "match" "nowhere")) [] [4198400%Z].

(** A reference to the namespace [net] at the address where [Y] matched. *)
Definition ref_net : Result :=
  mkResult true (NFeature (feature "match" "net")) [] [20480%Z].

(** A reference to [R] whose location set is enumerated as 8, 1. *)
Definition ref_R : Result :=
  mkResult true (NFeature (feature "match" "R")) [] [8%Z; 1%Z].

(** The capabilities of a run in which [A] and [B] matched, the rule
    metadata after the run, and the document of the run. *)
Definition capabilities_AB : Capabilities :=
  [("A", [(4198400%Z, tree_A)]); ("B", [(4198400%Z, tree_B)])].

Definition normalized_meta_A : dict :=
  [(KStr "name", VStr "A");
   (KStr "att&ck",
    VList [VDict [(KStr "parts", VList [VStr "Persistence"; VStr "Boot"]);
                  (KStr "id", VStr "T1547");
                  (KStr "tactic", VStr "Persistence");
                  (KStr "technique", VStr "Boot");
                  (KStr "subtechnique", VStr "")]]);
   (KStr "mbc", VList [])].

Definition normalized_store : heap := <[0 := normalized_meta_A]> store.

Definition doc_A : dict :=
  node_doc true
    (VDict [(KStr "type", VStr "statement");
            (KStr "statement",
             VDict [(KStr "type", VStr "or"); (KStr "description", VStr "entry")])])
    [VDict (located_doc true (subscope_node (VStr "basic block"))
              [VDict doc_B] [4198400%Z])].

Definition global_meta : PyVal := VDict [(KStr "sample", VStr "a.exe")].

Definition document : ResultDocument :=
  {| doc_meta := global_meta;
     doc_rules :=
       [("A", {| entry_meta := 0;
                 entry_source := "rule: A";
                 entry_matches := [(4198400%Z, doc_A)] |})] |}.
End Example.

(** * Further notions *)

(** The entry a truthy description gives, none for [None] and for the empty
    string. *)
Definition description_entry (d : option string) : option PyVal :=
  match d with
  | Some s => if String.eqb s "" then None else Some (VStr s)
  | None => None
  end.

(** What [doc["type"]] holds in the mapping of a feature: its name, unless the
    feature is itself named [type], in which case the second item of the
    display [{"type": name, name: value}] has replaced it. *)
Definition feature_type_entry (f : Feature) : string :=
  if String.eqb (feature_name f) "type" then feature_value_str f else feature_name f.

(** The test of lines 135-141 read on the result: a feature whose [type] entry
    is [match], and that succeeded. *)
Definition refers (result : Result) : bool :=
  match result_statement result with
  | NFeature f => (String.eqb (feature_type_entry f) "match" && result_success result)%bool
  | _ => false
  end.

(** [result_node r r']: [r'] is [r] or a result below it. *)
Inductive result_node : Result -> Result -> Prop :=
| result_node_self (r : Result) : result_node r r
| result_node_child (r child r' : Result) :
    In child (result_children r) -> result_node child r' -> result_node r r'.

(** The number of levels of a tree of results. *)
Fixpoint height (r : Result) : nat :=
  match r with
  | mkResult _ _ children _ => S (list_max (List.map height children))
  end.

(** [converted] holds, address for address, the documents of the trees of
    [matches]. *)
Definition converted_matches (fuel : nat) (h : heap) (rules_ : RuleSet)
    (capabilities : Capabilities) (matches : list (Z * Result))
    (converted : list (Z * dict)) : Prop :=
  Forall2 (fun am ad =>
             fst ad = fst am
             /\ convert_match_to_result_document fuel h rules_ capabilities (snd am)
                = Ok (snd ad))
          matches converted.

(** No rule that the assembler normalizes has its metadata at [l]. *)
Definition not_normalized (h : heap) (rules_ : RuleSet) (capabilities : Capabilities)
    (l : loc) : Prop :=
  forall name matches rule,
    In (name, matches) capabilities ->
    dict_get name (rules rules_) = Some rule ->
    is_subscope_rule h rule = false ->
    rule_meta rule <> l.

(** The encoder returns a text for the value. *)
Definition encodable (v : PyVal) : Prop := exists s, dumps v = Ok s.

(** A mapping with string keys and encodable values. *)
Definition encodable_dict (d : dict) : Prop :=
  forallb is_str (List.map fst d) = true /\ List.Forall (fun p => encodable (snd p)) d.

(** The features a node brings into the document: itself, or the feature a
    [range] statement counts. *)
Definition node_features (node : Node) : list Feature :=
  match node with
  | NFeature f => [f]
  | NStatement (Range child _ _ _) => [child]
  | _ => []
  end.

(** The [matches] of the regex features of a tree can be encoded. *)
Definition matches_encodable (result : Result) : Prop :=
  forall r f m,
    result_node result r ->
    In f (node_features (result_statement r)) ->
    feature_name f = "regex" ->
    feature_matches f = Some m ->
    encodable m.

(** The mappings of the store have string keys and encodable values. *)
Definition store_encodable (h : heap) : Prop :=
  forall (l : loc) (d : dict), h !! l = Some d -> encodable_dict d.

(** A tree recorded in the capabilities. *)
Definition capability_tree (capabilities : Capabilities) (t : Result) : Prop :=
  exists name matches address,
    dict_get name capabilities = Some matches
    /\ dict_get address (dict_of_pairs matches) = Some t.

(** The trees the engine hands over respect the invariants of Python's
    collections: the location set of a result has no member twice, and the
    [matches] of a regex feature is well formed. *)
Definition tree_well_formed (result : Result) : Prop :=
  forall r,
    result_node result r ->
    List.NoDup (result_locations r)
    /\ forall f m,
         In f (node_features (result_statement r)) ->
         feature_name f = "regex" ->
         feature_matches f = Some m ->
         well_formed m.

Definition store_well_formed (h : heap) : Prop :=
  forall (l : loc) (d : dict), h !! l = Some d -> well_formed (VDict d).

(** What the assembler keeps of its [rules] mapping and of the store: no rule
    name and no address twice, and well-formed content. *)
Definition assembled_well_formed (st : pydict string RuleEntry * heap) : Prop :=
  store_well_formed (snd st)
  /\ List.NoDup (List.map fst (fst st))
  /\ (forall name e, In (name, e) (fst st) ->
        List.NoDup (List.map fst (entry_matches e))
        /\ List.Forall (fun p => well_formed (VDict (snd p))) (entry_matches e)).

(** ** Further worked inputs *)
Module Cases.
Definition regex_feature : Feature :=
  {| feature_name := "regex"; feature_value_str := "/cmd\.exe/i";
     feature_description := Some "shell";
     feature_matches := Some (VList [VStr "CMD.EXE"]) |}.

Definition regex_doc : dict :=
  [(KStr "type", VStr "regex"); (KStr "regex", VStr "/cmd\.exe/i");
   (KStr "description", VStr "shell"); (KStr "matches", VList [VStr "CMD.EXE"])].

(** A tree with a node that is neither a statement nor a feature below it. *)
Definition foreign_tree : Result :=
  mkResult true (NStatement (And None))
    [Example.leaf "api" "CreateFile" [1%Z];
     mkResult true (NStatement (Not None)) [mkResult false (NOther "Result") [] []] []]
    [].

(** A reference that did not succeed, to a name that is in no index. *)
Definition failed_ref : Result :=
  mkResult false (NFeature (Example.feature "match" "nowhere"))
    [Example.leaf "api" "CreateFile" [1%Z]] [].

(** A tree without a successful reference. *)
Definition plain_tree : Result :=
  mkResult true (NStatement (Or None))
    [mkResult true (NStatement (Range (Example.feature "number" "6") 2 10 None)) [] [7%Z; 9%Z];
     failed_ref]
    [].

(** A run over one rule, matched at one address by a regex feature. *)
Definition regex_leaf : Result := mkResult true (NFeature regex_feature) [] [1%Z].

Definition regex_leaf_doc : dict :=
  located_doc true
    (VDict [(KStr "type", VStr "feature"); (KStr "feature", VDict regex_doc)]) [] [1%Z].

Definition regex_rules : RuleSet :=
  {| rules := [("R", Example.rule_R)]; rules_by_namespace := [] |}.

Definition regex_capabilities : Capabilities := [("R", [(1%Z, regex_leaf)])].

Definition regex_store : heap := {[ 4 := [(KStr "name", VStr "R")] ]}.

Definition regex_store_after : heap :=
  {[ 4 := [(KStr "name", VStr "R"); (KStr "att&ck", VList []); (KStr "mbc", VList [])] ]}.

Definition regex_document : ResultDocument :=
  {| doc_meta := Example.global_meta;
     doc_rules :=
       [("R", {| entry_meta := 4;
                 entry_source := "rule: R";
                 entry_matches := [(1%Z, regex_leaf_doc)] |})] |}.
End Cases.

(** * Properties *)

(** ** The monad *)

Lemma bind_Ok_inv {A B : Type} (m : Res A) (k : A -> Res B) (b : B) :
  bind m k = Ok b -> exists a, m = Ok a /\ k a = Ok b.
Proof. destruct m as [a | e | ]; simpl; intros E; try discriminate. eauto. Qed.

Lemma bind_assoc {A B C : Type} (m : Res A) (k : A -> Res B) (k' : B -> Res C) :
  bind (bind m k) k' = bind m (fun a => bind (k a) k').
Proof. now destruct m. Qed.

Lemma bind_ext {A B : Type} (m : Res A) (k k' : A -> Res B) :
  (forall a, k a = k' a) -> bind m k = bind m k'.
Proof. intros E. destruct m; simpl; auto. Qed.

Lemma mapM_app {A B : Type} (f : A -> Res B) (l1 l2 : list A) :
  mapM f (l1 ++ l2) =
  let* x := mapM f l1 in let* y := mapM f l2 in Ok (x ++ y).
Proof.
  induction l1 as [| a l1 IH]; simpl.
  - now destruct (mapM f l2).
  - destruct (f a); simpl; auto. rewrite IH.
    destruct (mapM f l1); simpl; auto. now destruct (mapM f l2).
Qed.

Lemma mapM_Ok_Forall2 {A B : Type} (f : A -> Res B) (l : list A) (l' : list B) :
  mapM f l = Ok l' <-> Forall2 (fun a b => f a = Ok b) l l'.
Proof.
  revert l'. induction l as [| a l IH]; intros l'; simpl.
  - split.
    + intros E. injection E as <-. constructor.
    + intros F. inversion F. reflexivity.
  - split.
    + intros E. apply bind_Ok_inv in E as (b & Eb & E).
      apply bind_Ok_inv in E as (bs & Ebs & E). injection E as <-.
      constructor; [exact Eb | now apply IH].
    + intros F. inversion F as [| ? b ? bs Eb Fbs]; subst.
      rewrite Eb. simpl. apply IH in Fbs. rewrite Fbs. reflexivity.
Qed.

Lemma mapM_ext_in {A B : Type} (f g : A -> Res B) (l : list A) :
  (forall a, In a l -> f a = g a) -> mapM f l = mapM g l.
Proof.
  induction l as [| a l IH]; simpl; intros E; [reflexivity |].
  rewrite (E a) by now left. rewrite IH; [reflexivity |].
  intros b Hb. apply E. now right.
Qed.

Lemma splice_fold recur rule_matches success node locations0 :
  forall (locations : list Z) (children : list PyVal),
  foldM (fun doc location =>
           let* m := lookup_location rule_matches location in
           let* child := recur m in
           append_child doc (VDict child))
        (located_doc success node children locations0)
        (key_val <$> (KInt <$> locations)) =
  let* spliced := mapM (splice_at recur rule_matches) locations in
  Ok (located_doc success node (children ++ (VDict <$> spliced)) locations0).
Proof.
  induction locations as [| a locations IH]; intros children.
  - simpl. now rewrite app_nil_r.
  - rewrite !fmap_cons. cbn [foldM mapM key_val lookup_location].
    unfold splice_at at 1.
    destruct (getitem rule_matches a) as [m | e | ]; [| reflexivity ..].
    cbn [bind]. destruct (recur m) as [c | e | ]; [| reflexivity ..].
    cbn [bind].
    change (append_child (located_doc success node children locations0) (VDict c))
      with (Ok (located_doc success node (children ++ [VDict c]) locations0)).
    cbn [bind]. rewrite IH.
    destruct (mapM (splice_at recur rule_matches) locations); [| reflexivity ..].
    cbn [bind]. rewrite fmap_cons. now rewrite <- app_assoc.
Qed.

Lemma splice_locations_located recur rule_matches success node children locations :
  splice_locations recur rule_matches (located_doc success node children locations) =
  let* spliced := mapM (splice_at recur rule_matches) locations in
  Ok (located_doc success node (children ++ (VDict <$> spliced)) locations).
Proof. unfold splice_locations. simpl. apply splice_fold. Qed.

Lemma convert_feature_match f :
  feature_name f = "match" ->
  convert_feature_to_result_document f = Ok (match_feature_doc f).
Proof.
  intros E. unfold convert_feature_to_result_document, match_feature_doc.
  rewrite E. reflexivity.
Qed.

Lemma match_doc_is_match f children locations :
  is_successful_match (located_doc true (match_node f) children locations) = Ok true.
Proof.
  unfold is_successful_match, match_node, match_feature_doc.
  destruct (feature_description f) as [s |]; [| reflexivity].
  unfold set_description. destruct (py_truthy (VStr s)); reflexivity.
Qed.

Lemma match_doc_name f children locations :
  referenced_name (located_doc true (match_node f) children locations) =
  Ok (VStr (feature_value_str f)).
Proof.
  unfold referenced_name, match_node, match_feature_doc.
  destruct (feature_description f) as [s |]; [| reflexivity].
  unfold set_description. destruct (py_truthy (VStr s)); reflexivity.
Qed.

Lemma convert_match_unfold fuel h rules_ capabilities result :
  convert_match_to_result_document (S fuel) h rules_ capabilities result =
    let recur := convert_match_to_result_document fuel h rules_ capabilities in
    let* node := convert_node_to_result_document (result_statement result) in
    let* children := mapM recur (result_children result) in
    let doc := attach_locations result (node_doc (result_success result) (VDict node) (VDict <$> children)) in
    let* is_match := is_successful_match doc in
    if (is_match : bool) then
      let* name := referenced_name doc in
      match name with
      | VStr name =>
        if dict_mem name (rules rules_) then
          let* rule_name := referenced_name doc in
          match rule_name with
          | VStr rule_name =>
            let* rule := getitem (rules rules_) rule_name in
            let* matches := getitem capabilities rule_name in
            let rule_matches := dict_of_pairs matches in
            let meta := deref h (rule_meta rule) in
            let* doc :=
              (if py_truthy (default VNone (dict_get (KStr "capa/subscope-rule") meta))
               then let* scope := getitem meta (KStr "scope") in
                    Ok (dict_set (KStr "node") (subscope_node scope) doc)
               else Ok doc) in
            splice_locations recur rule_matches doc
          | _ => Raise TypeError
          end
        else
          let* ns_name := referenced_name doc in
          match ns_name with
          | VStr ns_name =>
            let* ns_rules := getitem (rules_by_namespace rules_) ns_name in
            foldM (fun doc rule =>
                     if dict_mem (rule_name rule) capabilities then
                       let* matches := getitem capabilities (rule_name rule) in
                       let rule_matches := dict_of_pairs matches in
                       splice_locations recur rule_matches doc
                     else Ok doc)
                  doc ns_rules
          | _ => Raise TypeError
          end
      | _ => Raise TypeError
      end
    else Ok doc.
Proof. reflexivity. Qed.

Lemma convert_match_rule fuel h rules_ capabilities result f rule :
  result_statement result = NFeature f ->
  feature_name f = "match" ->
  result_success result = true ->
  dict_get (feature_value_str f) (rules rules_) = Some rule ->
  convert_match_to_result_document (S fuel) h rules_ capabilities result =
    let recur := convert_match_to_result_document fuel h rules_ capabilities in
    let* children := mapM recur (result_children result) in
    let* matches := getitem capabilities (feature_value_str f) in
    let* node :=
      (if is_subscope_rule h rule
       then let* scope := getitem (deref h (rule_meta rule)) (KStr "scope") in
            Ok (subscope_node scope)
       else Ok (match_node f)) in
    let* spliced := mapM (splice_at recur (dict_of_pairs matches)) (result_locations result) in
    Ok (located_doc true node ((VDict <$> children) ++ (VDict <$> spliced))
          (result_locations result)).
Proof.
  intros Hs Hn Hok Hr. rewrite convert_match_unfold. cbv zeta.
  rewrite Hs. cbn [convert_node_to_result_document].
  rewrite (convert_feature_match f Hn). cbn [bind].
  apply bind_ext. intros children.
  unfold attach_locations. rewrite Hs, Hok.
  change (dict_set (KStr "locations") (VSet (KInt <$> result_locations result))
            (node_doc true (VDict [(KStr "type", VStr "feature"); (KStr "feature", VDict (match_feature_doc f))]) (VDict <$> children)))
    with (located_doc true (match_node f) (VDict <$> children) (result_locations result)).
  rewrite match_doc_is_match. cbn [bind].
  rewrite match_doc_name. cbn [bind].
  unfold dict_mem. rewrite Hr.
  unfold getitem at 1. rewrite Hr. cbn [bind].
  apply bind_ext. intros matches.
  unfold is_subscope_rule.
  destruct (py_truthy _).
  - destruct (getitem (deref h (rule_meta rule)) (KStr "scope")) as [scope | e | ]; [| reflexivity ..].
    cbn [bind].
    change (dict_set (KStr "node") (subscope_node scope) (located_doc true (match_node f) (VDict <$> children) (result_locations result)))
      with (located_doc true (subscope_node scope) (VDict <$> children) (result_locations result)).
    apply splice_locations_located.
  - cbn [bind]. apply splice_locations_located.
Qed.

Lemma splice_namespace_fold recur (capabilities : Capabilities) success node locations :
  forall (ns_rules : list Rule) (children : list PyVal),
  foldM (fun doc rule =>
           if dict_mem (rule_name rule) capabilities then
             let* matches := getitem capabilities (rule_name rule) in
             let rule_matches := dict_of_pairs matches in
             splice_locations recur rule_matches doc
           else Ok doc)
        (located_doc success node children locations) ns_rules =
  let* groups := mapM (splice_rule recur capabilities locations) ns_rules in
  Ok (located_doc success node (children ++ (VDict <$> concat groups)) locations).
Proof.
  induction ns_rules as [| rule ns_rules IH]; intros children.
  - simpl. now rewrite app_nil_r.
  - cbn [foldM mapM]. unfold splice_rule at 1.
    destruct (dict_mem (rule_name rule) capabilities).
    + destruct (getitem capabilities (rule_name rule)) as [matches | e | ]; [| reflexivity ..].
      cbn [bind]. cbv zeta. rewrite splice_locations_located.
      destruct (mapM _ locations) as [spliced | e | ]; [| reflexivity ..].
      cbn [bind]. rewrite IH.
      destruct (mapM _ ns_rules) as [groups | e | ]; [| reflexivity ..].
      cbn [bind concat]. now rewrite fmap_app, app_assoc.
    + cbn [bind]. rewrite IH.
      destruct (mapM _ ns_rules) as [groups | e | ]; reflexivity.
Qed.

Lemma convert_match_namespace fuel h rules_ capabilities result f :
  result_statement result = NFeature f ->
  feature_name f = "match" ->
  result_success result = true ->
  dict_get (feature_value_str f) (rules rules_) = None ->
  convert_match_to_result_document (S fuel) h rules_ capabilities result =
    let recur := convert_match_to_result_document fuel h rules_ capabilities in
    let* children := mapM recur (result_children result) in
    let* ns_rules := getitem (rules_by_namespace rules_) (feature_value_str f) in
    let* groups := mapM (splice_rule recur capabilities (result_locations result)) ns_rules in
    Ok (located_doc true (match_node f) ((VDict <$> children) ++ (VDict <$> concat groups))
          (result_locations result)).
Proof.
  intros Hs Hn Hok Hr. rewrite convert_match_unfold. cbv zeta.
  rewrite Hs. cbn [convert_node_to_result_document].
  rewrite (convert_feature_match f Hn). cbn [bind].
  apply bind_ext. intros children.
  unfold attach_locations. rewrite Hs, Hok.
  change (dict_set (KStr "locations") (VSet (KInt <$> result_locations result))
            (node_doc true (VDict [(KStr "type", VStr "feature"); (KStr "feature", VDict (match_feature_doc f))]) (VDict <$> children)))
    with (located_doc true (match_node f) (VDict <$> children) (result_locations result)).
  rewrite match_doc_is_match. cbn [bind].
  rewrite match_doc_name. cbn [bind].
  unfold dict_mem at 1. rewrite Hr.
  apply bind_ext. intros ns_rules.
  apply splice_namespace_fold.
Qed.

(** ** The splicer on a reference to a rule *)

(** C1: a successful [match] feature that names a subscope rule is
    converted to a statement node of type [subscope] carrying the scope
    declared by the rule's [meta]; its children are the converted children of
    the input followed by the rule's own tree at every address of the
    location set, in the order of that set; the feature node naming the rule
    is not in the result. *)
Theorem subscope_match_rewritten fuel h rules_ capabilities result f rule scope
    matches children spliced :
  result_statement result = NFeature f ->
  feature_name f = "match" ->
  result_success result = true ->
  dict_get (feature_value_str f) (rules rules_) = Some rule ->
  is_subscope_rule h rule = true ->
  dict_get (KStr "scope") (deref h (rule_meta rule)) = Some scope ->
  dict_get (feature_value_str f) capabilities = Some matches ->
  mapM (convert_match_to_result_document fuel h rules_ capabilities)
       (result_children result) = Ok children ->
  mapM (splice_at (convert_match_to_result_document fuel h rules_ capabilities)
                  (dict_of_pairs matches))
       (result_locations result) = Ok spliced ->
  convert_match_to_result_document (S fuel) h rules_ capabilities result =
    Ok (located_doc true
          (VDict [(KStr "type", VStr "statement");
                  (KStr "statement",
                   VDict [(KStr "type", VStr "subscope"); (KStr "subscope", scope)])])
          ((VDict <$> children) ++ (VDict <$> spliced))
          (result_locations result))
  /\ subscope_node scope <> match_node f.
Proof.
  intros Hs Hn Hok Hr Hsub Hscope Hcap Hkids Hspl. split.
  - rewrite (convert_match_rule fuel h rules_ capabilities result f rule Hs Hn Hok Hr).
    cbv zeta. rewrite Hkids. cbn [bind].
    unfold getitem at 1. rewrite Hcap. cbn [bind].
    rewrite Hsub. unfold getitem at 1. rewrite Hscope. cbn [bind].
    rewrite Hspl. reflexivity.
  - unfold subscope_node, match_node. intros E. discriminate E.
Qed.

Lemma subscope_match_rewritten_witness :
  let recur := convert_match_to_result_document 3 Example.store Example.ruleset
                 Example.capabilities in
  (result_statement Example.ref_B = NFeature (Example.feature "match" "B")
   /\ feature_name (Example.feature "match" "B") = "match"
   /\ result_success Example.ref_B = true
   /\ dict_get "B" (rules Example.ruleset) = Some Example.rule_B
   /\ is_subscope_rule Example.store Example.rule_B = true
   /\ dict_get (KStr "scope") (deref Example.store 1) = Some (VStr "basic block")
   /\ dict_get "B" Example.capabilities = Some [(4198400%Z, Example.tree_B)]
   /\ mapM recur [] = Ok []
   /\ mapM (splice_at recur (dict_of_pairs [(4198400%Z, Example.tree_B)])) [4198400%Z]
      = Ok [Example.doc_B])
  /\ convert_match_to_result_document 4 Example.store Example.ruleset
       Example.capabilities Example.ref_B =
     Ok (located_doc true
           (VDict [(KStr "type", VStr "statement");
                   (KStr "statement",
                    VDict [(KStr "type", VStr "subscope");
                           (KStr "subscope", VStr "basic block")])])
           [VDict Example.doc_B] [4198400%Z]).
Proof.
  assert (H : is_subscope_rule Example.store Example.rule_B = true) by (vm_compute; reflexivity).
  assert (H' : dict_get (KStr "scope") (deref Example.store 1) = Some (VStr "basic block"))
    by (vm_compute; reflexivity).
  assert (H'' : mapM (splice_at (convert_match_to_result_document 3 Example.store
                         Example.ruleset Example.capabilities)
                        (dict_of_pairs [(4198400%Z, Example.tree_B)])) [4198400%Z]
                = Ok [Example.doc_B]) by (vm_compute; reflexivity).
  intros recur. split.
  { repeat split; try reflexivity; assumption. }
  exact (proj1 (subscope_match_rewritten 3 Example.store Example.ruleset
                  Example.capabilities Example.ref_B (Example.feature "match" "B")
                  Example.rule_B (VStr "basic block") [(4198400%Z, Example.tree_B)]
                  [] [Example.doc_B]
                  eq_refl eq_refl eq_refl eq_refl H H' eq_refl eq_refl H'')).
Defined.

Lemma mapM_not_Ok_at {A B : Type} (f : A -> Res B) (l : list A) (a : A) :
  In a l -> (forall b, f a <> Ok b) -> forall l', mapM f l <> Ok l'.
Proof.
  intros Hin Hf l' E. apply mapM_Ok_Forall2 in E.
  induction E as [| x y l l' Exy _ IH]; [contradiction |].
  destruct Hin as [-> | Hin]; [now apply (Hf y) | now apply IH].
Qed.

Lemma mapM_raise_at {A B : Type} (f : A -> Res B) (pre post : list A) (a : A)
    (done : list B) (e : exn) :
  mapM f pre = Ok done -> f a = Raise e -> mapM f (pre ++ a :: post) = Raise e.
Proof.
  intros Hpre Ha. rewrite mapM_app, Hpre. simpl. now rewrite Ha.
Qed.

(** C10: a successful [match] feature that names a rule of the rule set
    for which the capabilities hold no entry is not converted: the lookup
    [capabilities[rule_name]] raises [KeyError] as soon as the children of
    the node are converted, and no budget yields a document. *)
Theorem rule_without_capabilities_raises h rules_ capabilities result f rule :
  result_statement result = NFeature f ->
  feature_name f = "match" ->
  result_success result = true ->
  dict_get (feature_value_str f) (rules rules_) = Some rule ->
  dict_get (feature_value_str f) capabilities = None ->
  (forall fuel children,
     mapM (convert_match_to_result_document fuel h rules_ capabilities)
          (result_children result) = Ok children ->
     convert_match_to_result_document (S fuel) h rules_ capabilities result =
       Raise KeyError)
  /\ (forall fuel doc,
        convert_match_to_result_document fuel h rules_ capabilities result <> Ok doc).
Proof.
  intros Hs Hn Hok Hr Hcap. split.
  - intros fuel children Hkids.
    rewrite (convert_match_rule fuel h rules_ capabilities result f rule Hs Hn Hok Hr).
    cbv zeta. rewrite Hkids. cbn [bind]. unfold getitem. now rewrite Hcap.
  - intros [| fuel] doc; [discriminate |].
    rewrite (convert_match_rule fuel h rules_ capabilities result f rule Hs Hn Hok Hr).
    cbv zeta. destruct (mapM _ (result_children result)); cbn [bind]; try discriminate.
    unfold getitem. rewrite Hcap. discriminate.
Qed.

Lemma rule_without_capabilities_raises_witness :
  (result_statement (mkResult true (NFeature (Example.feature "match" "X")) [] [])
     = NFeature (Example.feature "match" "X")
   /\ feature_name (Example.feature "match" "X") = "match"
   /\ dict_get "X" (rules Example.ruleset) = Some Example.rule_X
   /\ dict_get "X" Example.capabilities = None)
  /\ convert_match_to_result_document 1 Example.store Example.ruleset Example.capabilities
       (mkResult true (NFeature (Example.feature "match" "X")) [] []) = Raise KeyError.
Proof.
  split; [repeat split |].
  exact (proj1 (rule_without_capabilities_raises Example.store Example.ruleset
                  Example.capabilities
                  (mkResult true (NFeature (Example.feature "match" "X")) [] [])
                  (Example.feature "match" "X") Example.rule_X
                  eq_refl eq_refl eq_refl eq_refl eq_refl) 0 [] eq_refl).
Defined.

(** The name is looked up in the namespace index by subscript: an unknown
    name does not pass, the conversion of the node raises [KeyError]. *)
Lemma unknown_name_counterexample :
  dict_get "nowhere" (rules Example.ruleset) = None
  /\ dict_get "nowhere" (rules_by_namespace Example.ruleset) = None
  /\ convert_match_to_result_document 4 Example.store Example.ruleset Example.capabilities
       Example.ref_unknown = Raise KeyError.
Proof. repeat split. Qed.

(** C3, amended: a successful [match] feature whose name is neither a rule
    of the rule set nor a key of the namespace index is not emitted: the
    lookup [rules.rules_by_namespace[ns_name]] raises [KeyError] as soon as
    the children of the node are converted, and no budget yields a document. *)
Theorem unknown_name_raises h rules_ capabilities result f :
  result_statement result = NFeature f ->
  feature_name f = "match" ->
  result_success result = true ->
  dict_get (feature_value_str f) (rules rules_) = None ->
  dict_get (feature_value_str f) (rules_by_namespace rules_) = None ->
  (forall fuel children,
     mapM (convert_match_to_result_document fuel h rules_ capabilities)
          (result_children result) = Ok children ->
     convert_match_to_result_document (S fuel) h rules_ capabilities result =
       Raise KeyError)
  /\ (forall fuel doc,
        convert_match_to_result_document fuel h rules_ capabilities result <> Ok doc).
Proof.
  intros Hs Hn Hok Hr Hns. split.
  - intros fuel children Hkids.
    rewrite (convert_match_namespace fuel h rules_ capabilities result f Hs Hn Hok Hr).
    cbv zeta. rewrite Hkids. cbn [bind]. unfold getitem. now rewrite Hns.
  - intros [| fuel] doc; [discriminate |].
    rewrite (convert_match_namespace fuel h rules_ capabilities result f Hs Hn Hok Hr).
    cbv zeta. destruct (mapM _ (result_children result)); cbn [bind]; try discriminate.
    unfold getitem. rewrite Hns. discriminate.
Qed.

Lemma unknown_name_raises_witness :
  (result_statement Example.ref_unknown = NFeature (Example.feature "match" "nowhere")
   /\ feature_name (Example.feature "match" "nowhere") = "match"
   /\ result_success Example.ref_unknown = true
   /\ dict_get "nowhere" (rules Example.ruleset) = None
   /\ dict_get "nowhere" (rules_by_namespace Example.ruleset) = None)
  /\ convert_match_to_result_document 1 Example.store Example.ruleset Example.capabilities
       Example.ref_unknown = Raise KeyError.
Proof.
  split; [repeat split |].
  exact (proj1 (unknown_name_raises Example.store Example.ruleset Example.capabilities
                  Example.ref_unknown (Example.feature "match" "nowhere")
                  eq_refl eq_refl eq_refl eq_refl eq_refl) 0 [] eq_refl).
Defined.

Lemma splice_rule_without_matches recur (capabilities : Capabilities) locations
    (ns_rules : list Rule) :
  Forall (fun rule => dict_get (rule_name rule) capabilities = None) ns_rules ->
  exists groups, mapM (splice_rule recur capabilities locations) ns_rules = Ok groups
                 /\ concat groups = [].
Proof.
  induction 1 as [| rule ns_rules Hrule _ (groups & IH & Hnil)].
  - now exists [].
  - exists ([] :: groups). cbn [mapM]. unfold splice_rule at 1, dict_mem.
    rewrite Hrule. cbn [bind]. rewrite IH. split; [reflexivity | exact Hnil].
Qed.

(** A namespace of the index none of whose rules has captured matches is the
    case in which the feature node passes as it is. *)
Lemma namespace_without_matches fuel h rules_ capabilities result f ns_rules children :
  result_statement result = NFeature f ->
  feature_name f = "match" ->
  result_success result = true ->
  dict_get (feature_value_str f) (rules rules_) = None ->
  dict_get (feature_value_str f) (rules_by_namespace rules_) = Some ns_rules ->
  Forall (fun rule => dict_get (rule_name rule) capabilities = None) ns_rules ->
  mapM (convert_match_to_result_document fuel h rules_ capabilities)
       (result_children result) = Ok children ->
  convert_match_to_result_document (S fuel) h rules_ capabilities result =
    Ok (located_doc true (match_node f) (VDict <$> children) (result_locations result)).
Proof.
  intros Hs Hn Hok Hr Hns Hnone Hkids.
  rewrite (convert_match_namespace fuel h rules_ capabilities result f Hs Hn Hok Hr).
  cbv zeta. rewrite Hkids. cbn [bind]. unfold getitem at 1. rewrite Hns. cbn [bind].
  destruct (splice_rule_without_matches
              (convert_match_to_result_document fuel h rules_ capabilities)
              capabilities (result_locations result) ns_rules Hnone) as (groups & E & Hnil).
  rewrite E. cbn [bind]. rewrite Hnil. simpl. now rewrite app_nil_r.
Qed.

(** An address of the location set that the index of the referenced rule does
    not hold is not skipped: the conversion raises [KeyError]. *)
Lemma missing_address_counterexample :
  dict_get "B" (rules Example.ruleset) = Some Example.rule_B
  /\ dict_get "B" Example.capabilities = Some [(4198400%Z, Example.tree_B)]
  /\ dict_get 2%Z (dict_of_pairs [(4198400%Z, Example.tree_B)]) = None
  /\ convert_match_to_result_document 4 Example.store Example.ruleset Example.capabilities
       Example.ref_B_elsewhere = Raise KeyError.
Proof. repeat split. Qed.

(** C2, amended: on a successful [match] feature that names a rule of the
    rule set, an address of the location set without an entry in the rule's
    address index stops the conversion: no budget yields a document, and the
    run that reaches the address (children converted, scope of a subscope
    rule read, earlier addresses spliced) raises [KeyError]. *)
Theorem missing_address_raises h rules_ capabilities result f rule matches address :
  result_statement result = NFeature f ->
  feature_name f = "match" ->
  result_success result = true ->
  dict_get (feature_value_str f) (rules rules_) = Some rule ->
  dict_get (feature_value_str f) capabilities = Some matches ->
  In address (result_locations result) ->
  dict_get address (dict_of_pairs matches) = None ->
  (forall fuel doc,
     convert_match_to_result_document fuel h rules_ capabilities result <> Ok doc)
  /\ (forall fuel children before after spliced,
        mapM (convert_match_to_result_document fuel h rules_ capabilities)
             (result_children result) = Ok children ->
        (is_subscope_rule h rule = true ->
         dict_get (KStr "scope") (deref h (rule_meta rule)) <> None) ->
        result_locations result = before ++ address :: after ->
        mapM (splice_at (convert_match_to_result_document fuel h rules_ capabilities)
                        (dict_of_pairs matches)) before = Ok spliced ->
        convert_match_to_result_document (S fuel) h rules_ capabilities result =
          Raise KeyError).
Proof.
  intros Hs Hn Hok Hr Hcap Hin Hidx.
  assert (Hat : forall recur, splice_at recur (dict_of_pairs matches) address = Raise KeyError).
  { intros recur. unfold splice_at, getitem. now rewrite Hidx. }
  split.
  - intros [| fuel] doc; [discriminate |].
    rewrite (convert_match_rule fuel h rules_ capabilities result f rule Hs Hn Hok Hr).
    cbv zeta. destruct (mapM _ (result_children result)); cbn [bind]; try discriminate.
    unfold getitem at 1. rewrite Hcap. cbn [bind].
    destruct (if is_subscope_rule h rule then _ else _); cbn [bind]; try discriminate.
    destruct (mapM _ (result_locations result)) as [spliced | e | ] eqn:E;
      cbn [bind]; try discriminate.
    exfalso. revert E. apply mapM_not_Ok_at with (a := address); [exact Hin |].
    intros b. rewrite Hat. discriminate.
  - intros fuel children before after spliced Hkids Hscope Hlocs Hbefore.
    rewrite (convert_match_rule fuel h rules_ capabilities result f rule Hs Hn Hok Hr).
    cbv zeta. rewrite Hkids. cbn [bind].
    unfold getitem at 1. rewrite Hcap. cbn [bind].
    rewrite Hlocs.
    rewrite (mapM_raise_at _ before after address spliced KeyError Hbefore (Hat _)).
    destruct (is_subscope_rule h rule); [| reflexivity].
    unfold getitem.
    destruct (dict_get (KStr "scope") (deref h (rule_meta rule))); [reflexivity |].
    now destruct Hscope.
Qed.

Lemma missing_address_raises_witness :
  (result_statement Example.ref_B_elsewhere = NFeature (Example.feature "match" "B")
   /\ feature_name (Example.feature "match" "B") = "match"
   /\ result_success Example.ref_B_elsewhere = true
   /\ dict_get "B" (rules Example.ruleset) = Some Example.rule_B
   /\ dict_get "B" Example.capabilities = Some [(4198400%Z, Example.tree_B)]
   /\ In 2%Z (result_locations Example.ref_B_elsewhere)
   /\ dict_get 2%Z (dict_of_pairs [(4198400%Z, Example.tree_B)]) = None)
  /\ convert_match_to_result_document 4 Example.store Example.ruleset
       Example.capabilities Example.ref_B_elsewhere = Raise KeyError.
Proof.
  split.
  { repeat split. right. left. reflexivity. }
  apply (proj2 (missing_address_raises Example.store Example.ruleset Example.capabilities
                  Example.ref_B_elsewhere (Example.feature "match" "B") Example.rule_B
                  [(4198400%Z, Example.tree_B)] 2%Z
                  eq_refl eq_refl eq_refl eq_refl eq_refl
                  (or_intror (or_introl eq_refl)) eq_refl)
          3 [] [4198400%Z] [] [Example.doc_B]).
  - reflexivity.
  - intros _. vm_compute. discriminate.
  - reflexivity.
  - vm_compute. reflexivity.
Defined.

(** The same happens on a reference to a namespace when a rule of the
    namespace matched, but not at an address of the node. *)
Lemma namespace_missing_address_example :
  convert_match_to_result_document 4 Example.store Example.ruleset Example.capabilities_X
    Example.ref_net = Raise KeyError.
Proof. reflexivity. Qed.

(** The location set of the node is enumerated as 8, 1 and the trees of [R]
    are spliced in that order, not smallest address first. *)
Lemma spliced_order_counterexample :
  let recur := convert_match_to_result_document 3 Example.store Example.ruleset
                 Example.capabilities in
  let spliced := [Example.leaf_doc "number" "8" [8%Z]; Example.leaf_doc "number" "1" [1%Z]] in
  convert_match_to_result_document 4 Example.store Example.ruleset Example.capabilities
    Example.ref_R =
    Ok (located_doc true (Example.feature_node "match" "R") (VDict <$> spliced) [8%Z; 1%Z])
  /\ ~ spliced_ascending recur
         (dict_of_pairs [(1%Z, Example.leaf "number" "1" [1%Z]);
                         (8%Z, Example.leaf "number" "8" [8%Z])])
         [8%Z; 1%Z] spliced.
Proof.
  split; [reflexivity |]. unfold spliced_ascending. vm_compute. discriminate.
Qed.

(** C5, amended: on a node that receives spliced children, the children
    converted from the input tree come first and the spliced ones follow in
    the order in which the location set of the node is enumerated (for a
    namespace, rule after rule in the order of the namespace index, each rule
    in the order of the location set); the converter does not sort the
    addresses. *)
Theorem spliced_children_in_location_order fuel h rules_ capabilities result f doc :
  result_statement result = NFeature f ->
  feature_name f = "match" ->
  result_success result = true ->
  convert_match_to_result_document (S fuel) h rules_ capabilities result = Ok doc ->
  let recur := convert_match_to_result_document fuel h rules_ capabilities in
  exists children spliced,
    mapM recur (result_children result) = Ok children
    /\ dict_get (KStr "children") doc =
         Some (VList ((VDict <$> children) ++ (VDict <$> spliced)))
    /\ ((exists rule matches,
           dict_get (feature_value_str f) (rules rules_) = Some rule
           /\ dict_get (feature_value_str f) capabilities = Some matches
           /\ mapM (splice_at recur (dict_of_pairs matches)) (result_locations result)
              = Ok spliced)
        \/ (exists ns_rules groups,
              dict_get (feature_value_str f) (rules rules_) = None
              /\ dict_get (feature_value_str f) (rules_by_namespace rules_) = Some ns_rules
              /\ mapM (splice_rule recur capabilities (result_locations result)) ns_rules
                 = Ok groups
              /\ spliced = concat groups)).
Proof.
  intros Hs Hn Hok E recur.
  destruct (dict_get (feature_value_str f) (rules rules_)) as [rule |] eqn:Hr.
  - rewrite (convert_match_rule fuel h rules_ capabilities result f rule Hs Hn Hok Hr) in E.
    cbv zeta in E. fold recur in E.
    apply bind_Ok_inv in E as (children & Hkids & E).
    apply bind_Ok_inv in E as (matches & Hcap & E).
    apply bind_Ok_inv in E as (node & Hnode & E).
    apply bind_Ok_inv in E as (spliced & Hspl & E).
    injection E as <-.
    exists children, spliced. split; [exact Hkids |]. split; [reflexivity |].
    left. exists rule, matches. split; [reflexivity |]. split; [| exact Hspl].
    unfold getitem in Hcap.
    destruct (dict_get (feature_value_str f) capabilities); [| discriminate].
    now injection Hcap as ->.
  - rewrite (convert_match_namespace fuel h rules_ capabilities result f Hs Hn Hok Hr) in E.
    cbv zeta in E. fold recur in E.
    apply bind_Ok_inv in E as (children & Hkids & E).
    apply bind_Ok_inv in E as (ns_rules & Hns & E).
    apply bind_Ok_inv in E as (groups & Hgroups & E).
    injection E as <-.
    exists children, (concat groups). split; [exact Hkids |]. split; [reflexivity |].
    right. exists ns_rules, groups. split; [reflexivity |].
    split; [| split; [exact Hgroups | reflexivity]].
    unfold getitem in Hns.
    destruct (dict_get (feature_value_str f) (rules_by_namespace rules_)); [| discriminate].
    now injection Hns as ->.
Qed.

Lemma spliced_children_in_location_order_witness :
  let recur := convert_match_to_result_document 3 Example.store Example.ruleset
                 Example.capabilities in
  let doc := located_doc true (Example.feature_node "match" "R")
               [VDict (Example.leaf_doc "number" "8" [8%Z]);
                VDict (Example.leaf_doc "number" "1" [1%Z])] [8%Z; 1%Z] in
  (result_statement Example.ref_R = NFeature (Example.feature "match" "R")
   /\ feature_name (Example.feature "match" "R") = "match"
   /\ result_success Example.ref_R = true
   /\ convert_match_to_result_document 4 Example.store Example.ruleset
        Example.capabilities Example.ref_R = Ok doc)
  /\ exists children spliced,
       mapM recur (result_children Example.ref_R) = Ok children
       /\ dict_get (KStr "children") doc =
            Some (VList ((VDict <$> children) ++ (VDict <$> spliced)))
       /\ ((exists rule matches,
              dict_get "R" (rules Example.ruleset) = Some rule
              /\ dict_get "R" Example.capabilities = Some matches
              /\ mapM (splice_at recur (dict_of_pairs matches))
                      (result_locations Example.ref_R) = Ok spliced)
           \/ (exists ns_rules groups,
                 dict_get "R" (rules Example.ruleset) = None
                 /\ dict_get "R" (rules_by_namespace Example.ruleset) = Some ns_rules
                 /\ mapM (splice_rule recur Example.capabilities
                            (result_locations Example.ref_R)) ns_rules = Ok groups
                 /\ spliced = concat groups)).
Proof.
  intros recur doc. split.
  { repeat split. }
  exact (spliced_children_in_location_order 3 Example.store Example.ruleset
           Example.capabilities Example.ref_R (Example.feature "match" "R") doc
           eq_refl eq_refl eq_refl eq_refl).
Defined.

(** ** Taxonomy parser *)

Lemma parse_canonical_attack_Ok
    (parse_parts_id : PyVal -> Res (list string * string)) (attack : PyVal)
    (parts : list string) (id : string) :
  parse_parts_id attack = Ok (parts, id) ->
  parse_canonical_attack parse_parts_id attack =
    Ok [(KStr "parts", VList (VStr <$> parts));
        (KStr "id", VStr id);
        (KStr "tactic", VStr (nth 0 parts ""));
        (KStr "technique", VStr (nth 1 parts ""));
        (KStr "subtechnique", VStr (nth 2 parts ""))].
Proof.
  intros E. unfold parse_canonical_attack. rewrite E. cbn [bind fst snd].
  destruct parts as [| p0 [| p1 [| p2 rest]]]; reflexivity.
Qed.

Lemma parse_canonical_mbc_Ok
    (parse_parts_id : PyVal -> Res (list string * string)) (mbc : PyVal)
    (parts : list string) (id : string) :
  parse_parts_id mbc = Ok (parts, id) ->
  parse_canonical_mbc parse_parts_id mbc =
    Ok [(KStr "parts", VList (VStr <$> parts));
        (KStr "id", VStr id);
        (KStr "objective", VStr (nth 0 parts ""));
        (KStr "behavior", VStr (nth 1 parts ""));
        (KStr "method", VStr (nth 2 parts ""))].
Proof.
  intros E. unfold parse_canonical_mbc. rewrite E. cbn [bind fst snd].
  destruct parts as [| p0 [| p1 [| p2 rest]]]; reflexivity.
Qed.

(** C7: on a taxonomy string for which the helper returns the parts and the
    identifier, both parsers return a record that holds the parts in order and
    the identifier, and whose three named fields are the first, second and
    third part, the empty string where the part is absent; whatever the number
    of parts, the parsers themselves do not fail. *)
Theorem taxonomy_fields_positional
    (parse_parts_id : PyVal -> Res (list string * string)) (s : string)
    (parts : list string) (id : string) :
  parse_parts_id (VStr s) = Ok (parts, id) ->
  parse_canonical_attack parse_parts_id (VStr s) =
    Ok [(KStr "parts", VList (VStr <$> parts));
        (KStr "id", VStr id);
        (KStr "tactic", VStr (nth 0 parts ""));
        (KStr "technique", VStr (nth 1 parts ""));
        (KStr "subtechnique", VStr (nth 2 parts ""))]
  /\ parse_canonical_mbc parse_parts_id (VStr s) =
    Ok [(KStr "parts", VList (VStr <$> parts));
        (KStr "id", VStr id);
        (KStr "objective", VStr (nth 0 parts ""));
        (KStr "behavior", VStr (nth 1 parts ""));
        (KStr "method", VStr (nth 2 parts ""))].
Proof.
  intros E. split.
  - now apply parse_canonical_attack_Ok.
  - now apply parse_canonical_mbc_Ok.
Qed.

Lemma taxonomy_fields_positional_witness :
  spec_parse_parts_id (VStr "Persistence::Boot [T1547]") = Ok (["Persistence"; "Boot"], "T1547")
  /\ parse_canonical_attack spec_parse_parts_id (VStr "Persistence::Boot [T1547]") =
       Ok [(KStr "parts", VList [VStr "Persistence"; VStr "Boot"]);
           (KStr "id", VStr "T1547");
           (KStr "tactic", VStr "Persistence");
           (KStr "technique", VStr "Boot");
           (KStr "subtechnique", VStr "")]
  /\ parse_canonical_mbc spec_parse_parts_id (VStr "Persistence::Boot [T1547]") =
       Ok [(KStr "parts", VList [VStr "Persistence"; VStr "Boot"]);
           (KStr "id", VStr "T1547");
           (KStr "objective", VStr "Persistence");
           (KStr "behavior", VStr "Boot");
           (KStr "method", VStr "")].
Proof.
  split; [reflexivity |].
  exact (taxonomy_fields_positional spec_parse_parts_id "Persistence::Boot [T1547]"
           ["Persistence"; "Boot"] "T1547" eq_refl).
Defined.

(** The parsers fail exactly when the helper does. *)
Lemma parse_canonical_attack_fails_with_helper
    (parse_parts_id : PyVal -> Res (list string * string)) (attack : PyVal) :
  (forall d, parse_canonical_attack parse_parts_id attack <> Ok d) <->
  (forall r, parse_parts_id attack <> Ok r).
Proof.
  unfold parse_canonical_attack.
  destruct (parse_parts_id attack) as [[parts id] | e | ]; cbn [bind fst snd].
  - destruct parts as [| p0 [| p1 [| p2 rest]]]; cbn; split; intros H;
      exfalso; eapply H; reflexivity.
  - split; intros _ ?; discriminate.
  - split; intros _ ?; discriminate.
Qed.

Lemma parse_canonical_mbc_fails_with_helper
    (parse_parts_id : PyVal -> Res (list string * string)) (mbc : PyVal) :
  (forall d, parse_canonical_mbc parse_parts_id mbc <> Ok d) <->
  (forall r, parse_parts_id mbc <> Ok r).
Proof.
  unfold parse_canonical_mbc.
  destruct (parse_parts_id mbc) as [[parts id] | e | ]; cbn [bind fst snd].
  - destruct parts as [| p0 [| p1 [| p2 rest]]]; cbn; split; intros H;
      exfalso; eapply H; reflexivity.
  - split; intros _ ?; discriminate.
  - split; intros _ ?; discriminate.
Qed.

(** With the helper as the specification describes it, every string parses. *)
Lemma spec_parse_total (s : string) :
  exists d d', parse_canonical_attack spec_parse_parts_id (VStr s) = Ok d
               /\ parse_canonical_mbc spec_parse_parts_id (VStr s) = Ok d'.
Proof.
  destruct (spec_parse_parts_id (VStr s)) as [[parts id] | e | ] eqn:E;
    try (simpl in E; discriminate).
  rewrite (parse_canonical_attack_Ok _ _ _ _ E), (parse_canonical_mbc_Ok _ _ _ _ E).
  eauto.
Qed.

(** ** Mappings and the store *)

Section DictFacts.
Context {K V : Type} `{KeyEq K}.

Lemma keq_refl (k : K) : keq k k = true.
Proof. now apply keq_spec. Qed.

Lemma keq_neq (k k' : K) : k <> k' -> keq k k' = false.
Proof.
  intros N. destruct (keq k k') eqn:E; [| reflexivity].
  apply keq_spec in E. contradiction.
Qed.

Lemma dict_get_set_eq (k : K) (v : V) (d : pydict K V) :
  dict_get k (dict_set k v d) = Some v.
Proof.
  induction d as [| [k' v'] d IH]; simpl.
  - now rewrite keq_refl.
  - destruct (keq k k') eqn:E; simpl; rewrite E; [reflexivity | exact IH].
Qed.

Lemma dict_get_set_ne (k k' : K) (v : V) (d : pydict K V) :
  k <> k' -> dict_get k' (dict_set k v d) = dict_get k' d.
Proof.
  intros N. induction d as [| [k1 v1] d IH]; simpl.
  - rewrite keq_neq; [reflexivity | congruence].
  - destruct (keq k k1) eqn:E; simpl.
    + apply keq_spec in E. subst k1. rewrite keq_neq; [reflexivity | congruence].
    + now rewrite IH.
Qed.
End DictFacts.

Lemma deref_insert_eq (h : heap) (l : loc) (d : dict) : deref (<[l := d]> h) l = d.
Proof. unfold deref. now rewrite lookup_insert_eq. Qed.

Lemma deref_insert_ne (h : heap) (l l' : loc) (d : dict) :
  l <> l' -> deref (<[l := d]> h) l' = deref h l'.
Proof. intros N. unfold deref. now rewrite lookup_insert_ne. Qed.

Lemma foldM_invariant {A S : Type} (f : S -> A -> Res S) (P : S -> Prop) (l : list A) :
  (forall s a s', In a l -> P s -> f s a = Ok s' -> P s') ->
  forall s s', P s -> foldM f s l = Ok s' -> P s'.
Proof.
  induction l as [| a l IH]; intros Hstep s s' Hs E; simpl in E.
  - now injection E as <-.
  - apply bind_Ok_inv in E as (s1 & E1 & E).
    apply (IH (fun s a s' Hin => Hstep s a s' (or_intror Hin)) s1 s'); [| exact E].
    apply (Hstep s a s1); [now left | exact Hs | exact E1].
Qed.

(** ** Metadata normalization *)

Lemma convert_meta_inv parse_parts_id (h : heap) (meta : loc) (h' : heap) (meta' : loc) :
  convert_meta_to_result_document parse_parts_id h meta = Ok (h', meta') ->
  meta' = meta
  /\ exists raw_attacks attacks raw_mbcs mbcs,
       py_iter (default (VList []) (dict_get (KStr "att&ck") (deref h meta))) = Ok raw_attacks
       /\ mapM (parse_canonical_attack parse_parts_id) raw_attacks = Ok attacks
       /\ py_iter (default (VList []) (dict_get (KStr "mbc") (deref h meta))) = Ok raw_mbcs
       /\ mapM (parse_canonical_mbc parse_parts_id) raw_mbcs = Ok mbcs
       /\ h' = <[meta := dict_set (KStr "mbc") (VList (VDict <$> mbcs))
                           (dict_set (KStr "att&ck") (VList (VDict <$> attacks))
                              (deref h meta))]> h.
Proof.
  unfold convert_meta_to_result_document. intros E.
  apply bind_Ok_inv in E as (raw_attacks & Hra & E).
  apply bind_Ok_inv in E as (attacks & Ha & E).
  rewrite deref_insert_eq in E.
  rewrite (dict_get_set_ne (KStr "att&ck") (KStr "mbc")) in E by discriminate.
  apply bind_Ok_inv in E as (raw_mbcs & Hrm & E).
  apply bind_Ok_inv in E as (mbcs & Hm & E).
  injection E as <- <-. split; [reflexivity |].
  exists raw_attacks, attacks, raw_mbcs, mbcs.
  repeat (split; [assumption |]).
  now rewrite insert_insert_eq.
Qed.

Lemma convert_meta_normalized parse_parts_id (h : heap) (meta : loc) (h' : heap) (meta' : loc) :
  convert_meta_to_result_document parse_parts_id h meta = Ok (h', meta') ->
  normalized h' meta.
Proof.
  intros E. apply convert_meta_inv in E as (_ & ra & a & rm & m & _ & _ & _ & _ & ->).
  exists a, m. rewrite deref_insert_eq. split.
  - rewrite (dict_get_set_ne (KStr "mbc") (KStr "att&ck")) by discriminate.
    apply dict_get_set_eq.
  - apply dict_get_set_eq.
Qed.

Lemma convert_meta_frame_keys parse_parts_id (h : heap) (meta : loc) (h' : heap)
    (meta' : loc) :
  convert_meta_to_result_document parse_parts_id h meta = Ok (h', meta') ->
  forall (l : loc) (k : Key),
    k <> KStr "att&ck" -> k <> KStr "mbc" ->
    dict_get k (deref h' l) = dict_get k (deref h l).
Proof.
  intros E l k N1 N2.
  apply convert_meta_inv in E as (_ & ra & a & rm & m & _ & _ & _ & _ & ->).
  destruct (decide (meta = l)) as [<- | N].
  - rewrite deref_insert_eq.
    rewrite dict_get_set_ne by congruence. now rewrite dict_get_set_ne by congruence.
  - now rewrite deref_insert_ne.
Qed.

Lemma convert_meta_frame_locs parse_parts_id (h : heap) (meta : loc) (h' : heap)
    (meta' : loc) :
  convert_meta_to_result_document parse_parts_id h meta = Ok (h', meta') ->
  forall l : loc, l <> meta -> h' !! l = h !! l.
Proof.
  intros E l N.
  apply convert_meta_inv in E as (_ & ra & a & rm & m & _ & _ & _ & _ & ->).
  now rewrite lookup_insert_ne.
Qed.

Lemma is_subscope_rule_frame (h h' : heap) (rule : Rule) :
  (forall (l : loc) (k : Key),
     k <> KStr "att&ck" -> k <> KStr "mbc" ->
     dict_get k (deref h' l) = dict_get k (deref h l)) ->
  is_subscope_rule h' rule = is_subscope_rule h rule.
Proof.
  intros F. unfold is_subscope_rule. now rewrite F by discriminate.
Qed.

Lemma convert_rule_preserves parse_parts_id fuel h0 rules_ capabilities st item st' :
  In item capabilities ->
  assembler_invariant h0 rules_ capabilities st ->
  convert_rule parse_parts_id fuel rules_ capabilities st item = Ok st' ->
  assembler_invariant h0 rules_ capabilities st'.
Proof.
  intros Hin [Hframe Hentries] E. unfold convert_rule in E.
  destruct st as [doc_rules_ h]. destruct item as [name matches]. cbn [fst snd] in *.
  apply bind_Ok_inv in E as (rule & Hrule & E).
  unfold getitem in Hrule.
  destruct (dict_get name (rules rules_)) as [rule' |] eqn:Hget; [| discriminate].
  injection Hrule as ->.
  destruct (is_subscope_rule h rule) eqn:Hsub.
  - injection E as <-. split; assumption.
  - apply bind_Ok_inv in E as ([h1 m1] & Hmeta & E). cbn [fst snd] in E.
    apply bind_Ok_inv in E as (converted & _ & E). injection E as <-.
    pose proof (convert_meta_frame_keys _ _ _ _ _ Hmeta) as Hkeys.
    pose proof (convert_meta_normalized _ _ _ _ _ Hmeta) as Hnorm.
    pose proof (convert_meta_frame_locs _ _ _ _ _ Hmeta) as Hlocs.
    pose proof (convert_meta_inv _ _ _ _ _ Hmeta) as [-> _].
    split; cbn [fst snd].
    + intros l k N1 N2. rewrite Hkeys by assumption. now apply Hframe.
    + intros name' e He.
      destruct (String.eqb_spec name name') as [<- | N].
      * rewrite dict_get_set_eq in He. injection He as <-.
        exists rule, matches. cbn [entry_meta entry_source].
        repeat split; try assumption.
        rewrite <- Hsub. symmetry. now apply is_subscope_rule_frame.
      * rewrite dict_get_set_ne in He by exact N.
        destruct (Hentries name' e He) as (rule' & matches' & H1 & H2 & H3 & H4 & H5 & H6).
        exists rule', matches'. repeat split; try assumption.
        destruct (decide (rule_meta rule' = rule_meta rule)) as [Eq | Ne].
        -- rewrite Eq. exact Hnorm.
        -- destruct H6 as (a & m & Ha & Hm). exists a, m.
           assert (Hd : deref h1 (rule_meta rule') = deref h (rule_meta rule')).
           { unfold deref. f_equal. apply Hlocs. exact Ne. }
           rewrite Hd. split; assumption.
Qed.

Lemma convert_capabilities_invariant parse_parts_id fuel h meta rules_ capabilities doc h' :
  convert_capabilities_to_result_document parse_parts_id fuel h meta rules_ capabilities
    = Ok (doc, h') ->
  doc_meta doc = meta
  /\ assembler_invariant h rules_ capabilities (doc_rules doc, h').
Proof.
  unfold convert_capabilities_to_result_document. intros E.
  apply bind_Ok_inv in E as ([doc_rules_ h1] & Hfold & E). injection E as <- <-.
  split; [reflexivity |]. cbn [doc_rules fst snd].
  revert Hfold. apply foldM_invariant.
  - intros s a s' Hin Hs Hstep.
    exact (convert_rule_preserves _ _ _ _ _ _ _ _ Hin Hs Hstep).
  - split; cbn [fst snd]; [reflexivity | discriminate].
Qed.

(** ** Document assembler *)

Lemma example_meta_run :
  convert_meta_to_result_document spec_parse_parts_id Example.store 0
    = Ok (Example.normalized_store, 0).
Proof. vm_compute. reflexivity. Qed.

Lemma example_document_run :
  convert_capabilities_to_result_document spec_parse_parts_id 5 Example.store
    Example.global_meta Example.ruleset Example.capabilities_AB
    = Ok (Example.document, Example.normalized_store).
Proof. vm_compute. reflexivity. Qed.

(** C6: in the document of a run, no pair of the capabilities whose rule
    carries the subscope marker has an entry in [rules], and every entry of
    [rules] is that of a rule of the rule set that has a pair in the
    capabilities and does not carry the marker. *)
Theorem subscope_rules_excluded parse_parts_id fuel h meta rules_ capabilities doc h' :
  convert_capabilities_to_result_document parse_parts_id fuel h meta rules_ capabilities
    = Ok (doc, h') ->
  (forall name matches rule,
     In (name, matches) capabilities ->
     dict_get name (rules rules_) = Some rule ->
     is_subscope_rule h rule = true ->
     dict_get name (doc_rules doc) = None)
  /\ (forall name e,
        dict_get name (doc_rules doc) = Some e ->
        exists rule matches,
          dict_get name (rules rules_) = Some rule
          /\ In (name, matches) capabilities
          /\ is_subscope_rule h rule = false).
Proof.
  intros E. apply convert_capabilities_invariant in E as [_ [_ Hentries]].
  cbn [fst snd] in Hentries. split.
  - intros name matches rule _ Hrule Hsub.
    destruct (dict_get name (doc_rules doc)) as [e |] eqn:He; [| reflexivity].
    destruct (Hentries name e He) as (rule' & _ & Hrule' & _ & Hsub' & _).
    congruence.
  - intros name e He.
    destruct (Hentries name e He) as (rule & matches & H1 & H2 & H3 & _).
    eauto.
Qed.

Lemma subscope_rules_excluded_witness :
  convert_capabilities_to_result_document spec_parse_parts_id 5 Example.store
    Example.global_meta Example.ruleset Example.capabilities_AB
    = Ok (Example.document, Example.normalized_store)
  /\ In ("B", [(4198400%Z, Example.tree_B)]) Example.capabilities_AB
  /\ dict_get "B" (rules Example.ruleset) = Some Example.rule_B
  /\ is_subscope_rule Example.store Example.rule_B = true
  /\ dict_get "B" (doc_rules Example.document) = None.
Proof.
  assert (Hin : In ("B", [(4198400%Z, Example.tree_B)]) Example.capabilities_AB)
    by (right; left; reflexivity).
  assert (Hsub : is_subscope_rule Example.store Example.rule_B = true)
    by (vm_compute; reflexivity).
  split; [exact example_document_run |].
  split; [exact Hin |]. split; [reflexivity |]. split; [exact Hsub |].
  exact (proj1 (subscope_rules_excluded spec_parse_parts_id 5 Example.store
                  Example.global_meta Example.ruleset Example.capabilities_AB
                  Example.document Example.normalized_store example_document_run)
           "B" [(4198400%Z, Example.tree_B)] Example.rule_B Hin eq_refl Hsub).
Defined.

(** C9: [convert_meta_to_result_document] returns the mapping it was given
    and writes to it in the store: [att&ck] and [mbc] hold the lists of the
    records parsed from the former values, the empty list where the key was
    absent; every other key of the mapping and every other mapping of the
    store is as before.  In the document of a run the [meta] of an entry is
    the mapping of the rule itself, which holds both lists at the end of the
    run, and no key other than the two has changed in any mapping. *)
Theorem meta_normalized_in_place parse_parts_id :
  (forall h meta h' meta',
     convert_meta_to_result_document parse_parts_id h meta = Ok (h', meta') ->
     meta' = meta
     /\ (exists raw_attacks attacks raw_mbcs mbcs,
           py_iter (default (VList []) (dict_get (KStr "att&ck") (deref h meta)))
             = Ok raw_attacks
           /\ mapM (parse_canonical_attack parse_parts_id) raw_attacks = Ok attacks
           /\ py_iter (default (VList []) (dict_get (KStr "mbc") (deref h meta)))
              = Ok raw_mbcs
           /\ mapM (parse_canonical_mbc parse_parts_id) raw_mbcs = Ok mbcs
           /\ dict_get (KStr "att&ck") (deref h' meta) = Some (VList (VDict <$> attacks))
           /\ dict_get (KStr "mbc") (deref h' meta) = Some (VList (VDict <$> mbcs)))
     /\ (dict_get (KStr "att&ck") (deref h meta) = None ->
         dict_get (KStr "att&ck") (deref h' meta) = Some (VList []))
     /\ (dict_get (KStr "mbc") (deref h meta) = None ->
         dict_get (KStr "mbc") (deref h' meta) = Some (VList []))
     /\ (forall k : Key,
           k <> KStr "att&ck" -> k <> KStr "mbc" ->
           dict_get k (deref h' meta) = dict_get k (deref h meta))
     /\ (forall l : loc, l <> meta -> h' !! l = h !! l))
  /\ (forall fuel h meta rules_ capabilities doc h',
        convert_capabilities_to_result_document parse_parts_id fuel h meta rules_
          capabilities = Ok (doc, h') ->
        (forall name e,
           dict_get name (doc_rules doc) = Some e ->
           exists rule,
             dict_get name (rules rules_) = Some rule
             /\ entry_meta e = rule_meta rule
             /\ normalized h' (entry_meta e))
        /\ (forall (l : loc) (k : Key),
              k <> KStr "att&ck" -> k <> KStr "mbc" ->
              dict_get k (deref h' l) = dict_get k (deref h l))).
Proof.
  split.
  - intros h meta h' meta' E.
    pose proof (convert_meta_frame_keys _ _ _ _ _ E) as Hkeys.
    pose proof (convert_meta_frame_locs _ _ _ _ _ E) as Hlocs.
    apply convert_meta_inv in E as (-> & ra & a & rm & m & Hra & Ha & Hrm & Hm & ->).
    assert (Hatt : dict_get (KStr "att&ck")
                     (deref (<[meta := dict_set (KStr "mbc") (VList (VDict <$> m))
                                         (dict_set (KStr "att&ck") (VList (VDict <$> a))
                                            (deref h meta))]> h) meta)
                   = Some (VList (VDict <$> a))).
    { rewrite deref_insert_eq.
      rewrite (dict_get_set_ne (KStr "mbc") (KStr "att&ck")) by discriminate.
      apply dict_get_set_eq. }
    assert (Hmbc : dict_get (KStr "mbc")
                     (deref (<[meta := dict_set (KStr "mbc") (VList (VDict <$> m))
                                         (dict_set (KStr "att&ck") (VList (VDict <$> a))
                                            (deref h meta))]> h) meta)
                   = Some (VList (VDict <$> m))).
    { rewrite deref_insert_eq. apply dict_get_set_eq. }
    split; [reflexivity |]. split; [| split; [| split; [| split]]].
    + exists ra, a, rm, m. repeat (split; [assumption |]). exact Hmbc.
    + intros Hnone. rewrite Hnone in Hra. simpl in Hra. injection Hra as <-.
      simpl in Ha. injection Ha as <-. exact Hatt.
    + intros Hnone. rewrite Hnone in Hrm. simpl in Hrm. injection Hrm as <-.
      simpl in Hm. injection Hm as <-. exact Hmbc.
    + intros k N1 N2. now apply Hkeys.
    + exact Hlocs.
  - intros fuel h meta rules_ capabilities doc h' E.
    apply convert_capabilities_invariant in E as [_ [Hframe Hentries]].
    cbn [fst snd] in *. split; [| exact Hframe].
    intros name e He.
    destruct (Hentries name e He) as (rule & matches & H1 & _ & _ & H4 & _ & H6).
    exists rule. rewrite H4. auto.
Qed.

Lemma meta_normalized_in_place_witness :
  (convert_meta_to_result_document spec_parse_parts_id Example.store 0
     = Ok (Example.normalized_store, 0)
   /\ dict_get (KStr "mbc") (deref Example.store 0) = None
   /\ convert_capabilities_to_result_document spec_parse_parts_id 5 Example.store
        Example.global_meta Example.ruleset Example.capabilities_AB
      = Ok (Example.document, Example.normalized_store)
   /\ dict_get "A" (doc_rules Example.document)
      = Some {| entry_meta := 0; entry_source := "rule: A";
                entry_matches := [(4198400%Z, Example.doc_A)] |})
  /\ dict_get (KStr "mbc") (deref Example.normalized_store 0) = Some (VList [])
  /\ dict_get (KStr "name") (deref Example.normalized_store 0)
     = dict_get (KStr "name") (deref Example.store 0)
  /\ exists rule,
       dict_get "A" (rules Example.ruleset) = Some rule
       /\ 0 = rule_meta rule
       /\ normalized Example.normalized_store 0.
Proof.
  assert (Hnone : dict_get (KStr "mbc") (deref Example.store 0) = None)
    by (vm_compute; reflexivity).
  pose proof (meta_normalized_in_place spec_parse_parts_id) as [Hmeta Hdoc].
  destruct (Hmeta Example.store 0 Example.normalized_store 0 example_meta_run)
    as (_ & _ & _ & Hmbc & Hframe & _).
  destruct (Hdoc 5 Example.store Example.global_meta Example.ruleset
              Example.capabilities_AB Example.document Example.normalized_store
              example_document_run) as [Hentry _].
  split.
  { split; [exact example_meta_run |]. split; [exact Hnone |].
    split; [exact example_document_run | reflexivity]. }
  split; [exact (Hmbc Hnone) |].
  split; [apply Hframe; discriminate |].
  exact (Hentry "A" _ eq_refl).
Defined.

(** The entries are all there: a rule of the capabilities without the marker
    has its entry in the document of a run. *)
Lemma convert_rule_keeps parse_parts_id fuel rules_ capabilities st item st' name :
  convert_rule parse_parts_id fuel rules_ capabilities st item = Ok st' ->
  dict_get name (fst st) <> None -> dict_get name (fst st') <> None.
Proof.
  unfold convert_rule. intros E Hin.
  apply bind_Ok_inv in E as (rule & _ & E).
  destruct (is_subscope_rule (snd st) rule).
  - now injection E as <-.
  - apply bind_Ok_inv in E as (hm & _ & E).
    apply bind_Ok_inv in E as (converted & _ & E). injection E as <-. cbn [fst].
    destruct (String.eqb_spec (fst item) name) as [<- | N].
    + now rewrite dict_get_set_eq.
    + now rewrite dict_get_set_ne.
Qed.

Lemma foldM_convert_rule_included parse_parts_id fuel h0 rules_ capabilities :
  forall (items : list (string * list (Z * Result))) st st',
    (forall item, In item items -> In item capabilities) ->
    assembler_invariant h0 rules_ capabilities st ->
    foldM (convert_rule parse_parts_id fuel rules_ capabilities) st items = Ok st' ->
    (forall name, dict_get name (fst st) <> None -> dict_get name (fst st') <> None)
    /\ (forall name matches rule,
          In (name, matches) items ->
          dict_get name (rules rules_) = Some rule ->
          is_subscope_rule h0 rule = false ->
          dict_get name (fst st') <> None).
Proof.
  induction items as [| item items IH]; intros st st' Hsub Hinv E; simpl in E.
  - injection E as <-. split; [auto | intros ? ? ? []].
  - apply bind_Ok_inv in E as (st1 & E1 & E).
    assert (Hinv1 : assembler_invariant h0 rules_ capabilities st1).
    { apply (convert_rule_preserves _ _ _ _ _ _ _ _ (Hsub item (or_introl eq_refl)) Hinv E1). }
    destruct (IH st1 st' (fun x Hx => Hsub x (or_intror Hx)) Hinv1 E) as [Hkeep Hnew].
    split.
    + intros name Hn. apply Hkeep. exact (convert_rule_keeps _ _ _ _ _ _ _ _ E1 Hn).
    + intros name matches rule [-> | Hin] Hrule Hns.
      * apply Hkeep. unfold convert_rule in E1. cbn [fst snd] in E1.
        unfold getitem in E1. rewrite Hrule in E1. cbn [bind] in E1.
        rewrite (is_subscope_rule_frame h0 (snd st) rule (proj1 Hinv)), Hns in E1.
        apply bind_Ok_inv in E1 as (hm & _ & E1).
        apply bind_Ok_inv in E1 as (converted & _ & E1). injection E1 as <-. cbn [fst].
        now rewrite dict_get_set_eq.
      * now apply (Hnew name matches rule).
Qed.

Lemma non_subscope_rules_included parse_parts_id fuel h meta rules_ capabilities doc h' :
  convert_capabilities_to_result_document parse_parts_id fuel h meta rules_ capabilities
    = Ok (doc, h') ->
  forall name matches rule,
    In (name, matches) capabilities ->
    dict_get name (rules rules_) = Some rule ->
    is_subscope_rule h rule = false ->
    dict_get name (doc_rules doc) <> None.
Proof.
  unfold convert_capabilities_to_result_document. intros E.
  apply bind_Ok_inv in E as (st & Hfold & E). injection E as <- <-. cbn [doc_rules].
  apply (foldM_convert_rule_included parse_parts_id fuel h rules_ capabilities
           capabilities ([], h) st); [auto | | exact Hfold].
  split; cbn [fst snd]; [reflexivity | discriminate].
Qed.

(** ** The shape of a converted node *)

Lemma convert_match_split fuel h rules_ capabilities result :
  convert_match_to_result_document (S fuel) h rules_ capabilities result =
    let recur := convert_match_to_result_document fuel h rules_ capabilities in
    let* node := convert_node_to_result_document (result_statement result) in
    let* children := mapM recur (result_children result) in
    let doc := attach_locations result
                 (node_doc (result_success result) (VDict node) (VDict <$> children)) in
    let* is_match := is_successful_match doc in
    if (is_match : bool) then splice_references recur h rules_ capabilities doc
    else Ok doc.
Proof. reflexivity. Qed.

Lemma attach_locations_doc result node children :
  attach_locations result (node_doc (result_success result) node children) =
  if locations_expected result
  then located_doc (result_success result) node children (result_locations result)
  else node_doc (result_success result) node children.
Proof.
  unfold attach_locations, locations_expected.
  destruct (result_statement result) as [[] | f | tag]; try reflexivity;
    destruct (result_success result); reflexivity.
Qed.

Lemma is_successful_match_success node children success :
  is_successful_match (node_doc success node children) = Ok true -> success = true.
Proof.
  unfold is_successful_match. cbn [getitem dict_get node_doc keq Key_KeyEq key_eqb String.eqb Ascii.eqb Bool.eqb bind].
  intros E.
  apply bind_Ok_inv in E as (nt & _ & E).
  destruct (py_eq_str nt "feature"); [| discriminate].
  apply bind_Ok_inv in E as (feature & _ & E).
  apply bind_Ok_inv in E as (ft & _ & E).
  destruct (py_eq_str ft "match"); [| discriminate].
  simpl in E. now injection E.
Qed.

Lemma is_successful_match_located node children success locations :
  is_successful_match (located_doc success node children locations) =
  is_successful_match (node_doc success node children).
Proof. reflexivity. Qed.

Lemma is_successful_match_statement success d children :
  is_successful_match
    (node_doc success (VDict [(KStr "type", VStr "statement"); (KStr "statement", VDict d)])
       children) = Ok false.
Proof. reflexivity. Qed.

Lemma splice_at_Forall recur rule_matches locations spliced :
  mapM (splice_at recur rule_matches) locations = Ok spliced ->
  Forall (fun c => exists m, recur m = Ok c) spliced.
Proof.
  intros E. apply mapM_Ok_Forall2 in E.
  induction E as [| a c l l' Hac _ IH]; constructor; [| exact IH].
  unfold splice_at in Hac. apply bind_Ok_inv in Hac as (m & _ & Hm). eauto.
Qed.

Lemma splice_rule_Forall recur capabilities locations ns_rules groups :
  mapM (splice_rule recur capabilities locations) ns_rules = Ok groups ->
  Forall (fun c => exists m, recur m = Ok c) (concat groups).
Proof.
  intros E. apply mapM_Ok_Forall2 in E.
  induction E as [| rule g l l' Hg _ IH]; simpl; [constructor |].
  apply Forall_app. split; [| exact IH].
  unfold splice_rule in Hg. destruct (dict_mem (rule_name rule) capabilities).
  - apply bind_Ok_inv in Hg as (matches & _ & Hg). now apply splice_at_Forall in Hg.
  - injection Hg as <-. constructor.
Qed.

(** Splicing keeps the success flag and the locations, leaves the node or
    puts the node of a subscope rule in its place, and appends converted
    trees to the children. *)
Lemma splice_references_located recur h rules_ capabilities success node children
    locations doc :
  splice_references recur h rules_ capabilities
    (located_doc success node children locations) = Ok doc ->
  exists node' spliced,
    doc = located_doc success node' (children ++ (VDict <$> spliced)) locations
    /\ Forall (fun c => exists m, recur m = Ok c) spliced
    /\ (node' = node \/ exists scope, node' = subscope_node scope).
Proof.
  unfold splice_references. intros E.
  apply bind_Ok_inv in E as (name & _ & E).
  destruct name as [| | | name | | | |]; try discriminate.
  destruct (dict_mem name (rules rules_)).
  - apply bind_Ok_inv in E as (rule_name & _ & E).
    destruct rule_name as [| | | rule_name | | | |]; try discriminate.
    apply bind_Ok_inv in E as (rule & _ & E).
    apply bind_Ok_inv in E as (matches & _ & E).
    cbv zeta in E.
    apply bind_Ok_inv in E as (doc1 & Hdoc1 & E).
    destruct (py_truthy _).
    + apply bind_Ok_inv in Hdoc1 as (scope & _ & Hdoc1). injection Hdoc1 as <-.
      change (splice_locations recur (dict_of_pairs matches)
                (located_doc success (subscope_node scope) children locations) = Ok doc) in E.
      rewrite splice_locations_located in E.
      apply bind_Ok_inv in E as (spliced & Hspl & E). injection E as <-.
      exists (subscope_node scope), spliced. split; [reflexivity |].
      split; [now apply splice_at_Forall in Hspl | right; eauto].
    + injection Hdoc1 as <-. rewrite splice_locations_located in E.
      apply bind_Ok_inv in E as (spliced & Hspl & E). injection E as <-.
      exists node, spliced. split; [reflexivity |].
      split; [now apply splice_at_Forall in Hspl | now left].
  - apply bind_Ok_inv in E as (ns_name & _ & E).
    destruct ns_name as [| | | ns_name | | | |]; try discriminate.
    apply bind_Ok_inv in E as (ns_rules & _ & E).
    rewrite splice_namespace_fold in E.
    apply bind_Ok_inv in E as (groups & Hgroups & E). injection E as <-.
    exists node, (concat groups). split; [reflexivity |].
    split; [now apply splice_rule_Forall in Hgroups | now left].
Qed.

Lemma convert_node_node_of result node :
  convert_node_to_result_document (result_statement result) = Ok node ->
  node_of result (VDict node).
Proof.
  unfold node_of, convert_node_to_result_document.
  destruct (result_statement result) as [s | f | tag]; intros E; try discriminate.
  - apply bind_Ok_inv in E as (d & Hd & E). injection E as <-. eauto.
  - apply bind_Ok_inv in E as (d & Hd & E). injection E as <-. left. eauto.
Qed.

Lemma convert_shape fuel h rules_ capabilities result doc :
  convert_match_to_result_document (S fuel) h rules_ capabilities result = Ok doc ->
  exists node children,
    doc = (if locations_expected result
           then located_doc (result_success result) node children (result_locations result)
           else node_doc (result_success result) node children)
    /\ Forall (fun c => exists c' r',
                 c = VDict c'
                 /\ convert_match_to_result_document fuel h rules_ capabilities r' = Ok c')
              children
    /\ node_of result node.
Proof.
  rewrite convert_match_split. cbv zeta. intros E.
  apply bind_Ok_inv in E as (node & Hnode & E).
  apply bind_Ok_inv in E as (kids & Hkids & E).
  assert (Hconv : Forall (fun c => exists c' r',
                            c = VDict c'
                            /\ convert_match_to_result_document fuel h rules_ capabilities r'
                               = Ok c') (VDict <$> kids)).
  { apply mapM_Ok_Forall2 in Hkids. clear -Hkids.
    induction Hkids as [| r c l l' Hrc _ IH]; constructor; eauto. }
  pose proof (convert_node_node_of result node Hnode) as Hof.
  rewrite attach_locations_doc in E.
  apply bind_Ok_inv in E as (is_match & Hm & E).
  destruct is_match.
  - destruct (locations_expected result) eqn:Hexp.
    + apply splice_references_located in E as (node' & spliced & -> & Hspl & Hn').
      exists node', ((VDict <$> kids) ++ (VDict <$> spliced)).
      split; [reflexivity |]. split.
      * apply Forall_app. split; [exact Hconv |].
        clear -Hspl. induction Hspl as [| c l (m & Hc) _ IH]; constructor; eauto.
      * destruct Hn' as [-> | [scope ->]]; [exact Hof |].
        unfold node_of in *.
        destruct (result_statement result) as [s | f | tag]; [| right; eauto | exact Hof].
        exfalso. destruct Hof as (d & _ & Hd). injection Hd as ->.
        rewrite is_successful_match_located, is_successful_match_statement in Hm.
        discriminate.
    + exfalso. pose proof (is_successful_match_success _ _ _ Hm) as Hok.
      unfold node_of in Hof. unfold locations_expected in Hexp.
      destruct (result_statement result) as [s | f | tag];
        [| simpl in Hexp; congruence | exact Hof].
      destruct Hof as (d & _ & Hd). injection Hd as ->.
      rewrite is_successful_match_statement in Hm. discriminate.
  - injection E as <-. exists (VDict node), (VDict <$> kids). auto.
Qed.

Lemma set_description_type (d : option string) (t : string) :
  dict_get (KStr "type") (set_description d [(KStr "type", VStr t)]) = Some (VStr t).
Proof.
  unfold set_description. destruct d as [s |]; [| reflexivity].
  destruct (py_truthy (VStr s)); reflexivity.
Qed.

Lemma convert_statement_range_type child min max d doc :
  convert_statement_to_result_document (Range child min max d) = Ok doc ->
  dict_get (KStr "type") doc = Some (VStr "range").
Proof.
  unfold convert_statement_to_result_document. simpl. intros E.
  apply bind_Ok_inv in E as (child_doc & _ & E). injection E as <-.
  rewrite !dict_get_set_ne by discriminate. apply set_description_type.
Qed.

Lemma convert_fuel_positive fuel h rules_ capabilities result doc :
  convert_match_to_result_document fuel h rules_ capabilities result = Ok doc ->
  exists fuel', fuel = S fuel'.
Proof. destruct fuel; [discriminate | eauto]. Qed.

(** What a converted node says of the result it comes from. *)
Lemma converted_node_facts fuel h rules_ capabilities result doc :
  convert_match_to_result_document fuel h rules_ capabilities result = Ok doc ->
  has_locations doc = locations_expected result
  /\ dict_get (KStr "success") doc = Some (VBool (result_success result))
  /\ (connective_doc doc -> locations_expected result = false).
Proof.
  intros E. destruct (convert_fuel_positive _ _ _ _ _ _ E) as [fuel' ->].
  apply convert_shape in E as (node & children & -> & _ & Hof).
  split; [| split].
  - destruct (locations_expected result); reflexivity.
  - destruct (locations_expected result); reflexivity.
  - intros (t & Ht & Hin).
    assert (Hnode : doc_statement_type (node_doc (result_success result) node children)
                    = Some t).
    { destruct (locations_expected result); exact Ht. }
    clear Ht. unfold doc_statement_type in Hnode. cbn [node_doc dict_get keq Key_KeyEq key_eqb
      String.eqb Ascii.eqb Bool.eqb] in Hnode.
    unfold node_of, locations_expected in *.
    destruct (result_statement result) as [s | f | tag]; [| | reflexivity].
    + destruct s; try reflexivity; exfalso; destruct Hof as (d & Hd & ->);
        cbn [dict_get keq Key_KeyEq key_eqb String.eqb Ascii.eqb Bool.eqb] in Hnode.
      rewrite (convert_statement_range_type _ _ _ _ _ Hd) in Hnode.
      injection Hnode as <-. simpl in Hin. intuition discriminate.
    + exfalso. destruct Hof as [(d & _ & ->) | (scope & ->)].
      * cbn [dict_get keq Key_KeyEq key_eqb String.eqb Ascii.eqb Bool.eqb] in Hnode.
        discriminate.
      * unfold subscope_node in Hnode.
        cbn [dict_get keq Key_KeyEq key_eqb String.eqb Ascii.eqb Bool.eqb] in Hnode.
        injection Hnode as <-. simpl in Hin. intuition discriminate.
Qed.

(** Every node of a converted tree is itself the conversion of a result. *)
Lemma doc_node_converted h rules_ capabilities doc doc' :
  doc_node doc doc' ->
  forall fuel result,
    convert_match_to_result_document fuel h rules_ capabilities result = Ok doc ->
    exists fuel' result',
      convert_match_to_result_document fuel' h rules_ capabilities result' = Ok doc'.
Proof.
  induction 1 as [doc | doc children child doc' Hget Hin _ IH]; intros fuel result E.
  - eauto.
  - destruct (convert_fuel_positive _ _ _ _ _ _ E) as [fuel' ->].
    apply convert_shape in E as (node & children' & -> & Hkids & _).
    assert (children' = children) as ->.
    { destruct (locations_expected result); simpl in Hget; congruence. }
    rewrite List.Forall_forall in Hkids.
    destruct (Hkids _ Hin) as (c' & r' & Hc & Hr'). injection Hc as <-.
    exact (IH fuel' r' Hr').
Qed.

(** C4: the document node of a result has the [locations] key exactly when
    the result holds a feature or a [range] statement and succeeded.  This
    holds of every node of the converted tree, each being the conversion of a
    result; so a node whose [success] is false and a node of a statement of
    type [and], [or], [not], [some] or [optional] has no [locations] key. *)
Theorem locations_on_successful_features_and_ranges fuel h rules_ capabilities result doc :
  convert_match_to_result_document fuel h rules_ capabilities result = Ok doc ->
  has_locations doc = locations_expected result
  /\ forall doc',
       doc_node doc doc' ->
       (exists fuel' result',
          convert_match_to_result_document fuel' h rules_ capabilities result' = Ok doc'
          /\ has_locations doc' = locations_expected result')
       /\ (dict_get (KStr "success") doc' = Some (VBool false) -> has_locations doc' = false)
       /\ (connective_doc doc' -> has_locations doc' = false).
Proof.
  intros E. split; [exact (proj1 (converted_node_facts _ _ _ _ _ _ E)) |].
  intros doc' Hnode.
  destruct (doc_node_converted _ _ _ _ _ Hnode _ _ E) as (fuel' & result' & E').
  destruct (converted_node_facts _ _ _ _ _ _ E') as (Hloc & Hsucc & Hconn).
  split; [eauto |]. split.
  - intros Hfalse. rewrite Hloc. rewrite Hsucc in Hfalse. injection Hfalse as Hs.
    unfold locations_expected. rewrite Hs.
    destruct (result_statement result') as [[] | |]; reflexivity.
  - intros Hc. rewrite Hloc. now apply Hconn.
Qed.

Lemma locations_on_successful_features_and_ranges_witness :
  convert_match_to_result_document 5 Example.store Example.ruleset Example.capabilities
    Example.tree_A = Ok Example.doc_A
  /\ has_locations Example.doc_A = locations_expected Example.tree_A
  /\ forall doc',
       doc_node Example.doc_A doc' ->
       (exists fuel' result',
          convert_match_to_result_document fuel' Example.store Example.ruleset
            Example.capabilities result' = Ok doc'
          /\ has_locations doc' = locations_expected result')
       /\ (dict_get (KStr "success") doc' = Some (VBool false) -> has_locations doc' = false)
       /\ (connective_doc doc' -> has_locations doc' = false).
Proof.
  assert (E : convert_match_to_result_document 5 Example.store Example.ruleset
                Example.capabilities Example.tree_A = Ok Example.doc_A)
    by (vm_compute; reflexivity).
  split; [exact E |].
  exact (locations_on_successful_features_and_ranges 5 Example.store Example.ruleset
           Example.capabilities Example.tree_A Example.doc_A E).
Defined.

(** The node that replaces a reference to a subscope rule keeps the locations
    of the reference. *)
Lemma subscope_node_keeps_locations :
  convert_match_to_result_document 4 Example.store Example.ruleset Example.capabilities
    Example.ref_B =
    Ok (located_doc true (subscope_node (VStr "basic block")) [VDict Example.doc_B]
          [4198400%Z])
  /\ has_locations
       (located_doc true (subscope_node (VStr "basic block")) [VDict Example.doc_B]
          [4198400%Z]) = true.
Proof. split; reflexivity. Qed.

(** ** Sorting *)

Section SortFacts.
Context {A : Type} (leb : A -> A -> bool).

(** The order is total, transitive and antisymmetric on the values of [Q]. *)
Variable Q : A -> Prop.
Hypothesis leb_total : forall x y, Q x -> Q y -> leb x y = true \/ leb y x = true.
Hypothesis leb_trans :
  forall x y z, Q x -> Q y -> Q z -> leb x y = true -> leb y z = true -> leb x z = true.
Hypothesis leb_antisym : forall x y, Q x -> Q y -> leb x y = true -> leb y x = true -> x = y.

Lemma insert_sorted_perm (x : A) (l : list A) :
  Permutation (insert_sorted leb x l) (x :: l).
Proof.
  induction l as [| y l IH]; simpl; [reflexivity |].
  destruct (leb x y); [reflexivity |].
  rewrite IH. apply perm_swap.
Qed.

Lemma isort_perm (l : list A) : Permutation (isort leb l) l.
Proof.
  induction l as [| x l IH]; simpl; [reflexivity |].
  rewrite insert_sorted_perm. now constructor.
Qed.

Lemma insert_sorted_sorted (x : A) (l : list A) :
  Q x -> List.Forall Q l ->
  StronglySorted (fun a b => leb a b = true) l ->
  StronglySorted (fun a b => leb a b = true) (insert_sorted leb x l).
Proof.
  intros Hx HQ Hs. induction Hs as [| y l Hs IH Hy]; simpl.
  - constructor; constructor.
  - inversion HQ as [| ? ? Qy Ql]; subst.
    destruct (leb x y) eqn:E.
    + constructor; [now constructor |]. constructor; [exact E |].
      rewrite List.Forall_forall in *. intros z Hz.
      apply (leb_trans x y z); auto.
    + constructor; [now apply IH |].
      assert (Hyx : leb y x = true).
      { destruct (leb_total x y Hx Qy); congruence. }
      eapply Permutation_Forall.
      * symmetry. apply insert_sorted_perm.
      * now constructor.
Qed.

Lemma isort_sorted (l : list A) :
  List.Forall Q l -> StronglySorted (fun a b => leb a b = true) (isort leb l).
Proof.
  induction 1 as [| x l Hx HQ IH]; simpl; [constructor |].
  apply insert_sorted_sorted; [exact Hx | | exact IH].
  eapply Permutation_Forall; [symmetry; apply isort_perm | exact HQ].
Qed.

Lemma sorted_perm_unique (l1 l2 : list A) :
  List.Forall Q l1 ->
  StronglySorted (fun a b => leb a b = true) l1 ->
  StronglySorted (fun a b => leb a b = true) l2 ->
  Permutation l1 l2 -> l1 = l2.
Proof.
  intros HQ H1. revert l2. induction H1 as [| x l1 H1 IH Hx]; intros l2 H2 P.
  - apply Permutation_nil in P. now subst.
  - destruct H2 as [| y l2 H2 Hy].
    + symmetry in P. apply Permutation_nil in P. discriminate.
    + inversion HQ as [| ? ? Qx Ql1]; subst.
      assert (Qy : Q y).
      { rewrite List.Forall_forall in HQ. apply HQ.
        apply (Permutation_in (l := y :: l2)); [now symmetry | now left]. }
      assert (x = y) as <-.
      { assert (Hxy : leb x y = true).
        { assert (Hin : In y (x :: l1))
            by (apply (Permutation_in (l := y :: l2)); [now symmetry | now left]).
          destruct Hin as [<- | Hin].
          - destruct (leb_total x x Qx Qx); assumption.
          - rewrite List.Forall_forall in Hx. now apply Hx. }
        assert (Hyx : leb y x = true).
        { assert (Hin : In x (y :: l2))
            by (apply (Permutation_in (l := x :: l1)); [exact P | now left]).
          destruct Hin as [<- | Hin].
          - exact Hxy.
          - rewrite List.Forall_forall in Hy. now apply Hy. }
        now apply leb_antisym. }
      f_equal. apply IH; [exact Ql1 | exact H2 |].
      now apply Permutation_cons_inv in P.
Qed.

Lemma isort_perm_eq (l l' : list A) :
  List.Forall Q l -> Permutation l l' -> isort leb l = isort leb l'.
Proof.
  intros HQ P.
  assert (HQ' : List.Forall Q l') by (eapply Permutation_Forall; [exact P | exact HQ]).
  apply sorted_perm_unique.
  - eapply Permutation_Forall; [symmetry; apply isort_perm | exact HQ].
  - now apply isort_sorted.
  - now apply isort_sorted.
  - rewrite isort_perm, P. symmetry. apply isort_perm.
Qed.
End SortFacts.

(** The order of strings is transitive. *)
Lemma string_compare_trans (s1 s2 s3 : string) :
  String.compare s1 s2 <> Gt -> String.compare s2 s3 <> Gt -> String.compare s1 s3 <> Gt.
Proof.
  revert s2 s3. induction s1 as [| c1 s1 IH]; intros [| c2 s2] [| c3 s3]; simpl;
    try congruence.
  unfold Ascii.compare.
  destruct (N.compare_spec (N_of_ascii c1) (N_of_ascii c2)) as [E12 | L12 | G12];
    destruct (N.compare_spec (N_of_ascii c2) (N_of_ascii c3)) as [E23 | L23 | G23];
    destruct (N.compare_spec (N_of_ascii c1) (N_of_ascii c3)) as [E13 | L13 | G13];
    try congruence; try lia.
  apply IH.
Qed.

Lemma string_leb_trans (s1 s2 s3 : string) :
  String.leb s1 s2 = true -> String.leb s2 s3 = true -> String.leb s1 s3 = true.
Proof.
  unfold String.leb. intros H12 H23.
  pose proof (string_compare_trans s1 s2 s3) as T.
  destruct (String.compare s1 s2), (String.compare s2 s3), (String.compare s1 s3);
    try reflexivity; try discriminate; exfalso; apply T; congruence.
Qed.

Lemma forallb_perm {A : Type} (f : A -> bool) (l l' : list A) :
  Permutation l l' -> forallb f l = forallb f l'.
Proof.
  induction 1 as [| x l l' _ IH | x y l | l l' l'' _ IH1 _ IH2]; simpl.
  - reflexivity.
  - now rewrite IH.
  - destruct (f x), (f y); reflexivity.
  - now rewrite IH1.
Qed.

Lemma NoDup_map_inj {A B : Type} (f : A -> B) (l : list A) (a b : A) :
  NoDup (List.map f l) -> In a l -> In b l -> f a = f b -> a = b.
Proof.
  induction l as [| x l IH]; simpl; intros ND Ha Hb E; [contradiction |].
  inversion ND as [| ? ? Hnin ND']; subst. rewrite list_elem_of_In in Hnin.
  destruct Ha as [-> | Ha], Hb as [-> | Hb].
  - reflexivity.
  - exfalso. apply Hnin. rewrite E. now apply in_map.
  - exfalso. apply Hnin. rewrite <- E. now apply in_map.
  - now apply IH.
Qed.

Lemma key_leb_int_total (a b : Key) :
  is_int a = true -> is_int b = true -> key_leb a b = true \/ key_leb b a = true.
Proof. destruct a, b; simpl; try discriminate. intros _ _. lia. Qed.

Lemma key_leb_str_total (a b : Key) :
  is_str a = true -> is_str b = true -> key_leb a b = true \/ key_leb b a = true.
Proof. destruct a, b; simpl; try discriminate. intros _ _. apply String.leb_total. Qed.

Lemma key_leb_trans (a b c : Key) :
  key_leb a b = true -> key_leb b c = true -> key_leb a c = true.
Proof.
  destruct a, b, c; simpl; try discriminate.
  - lia.
  - apply string_leb_trans.
Qed.

Lemma key_leb_antisym (a b : Key) :
  key_leb a b = true -> key_leb b a = true -> a = b.
Proof.
  destruct a, b; simpl; try discriminate.
  - intros. f_equal. lia.
  - intros H1 H2. f_equal. now apply String.leb_antisym.
Qed.

(** [sorted] does not depend on the order in which a collection without
    duplicates is enumerated. *)
Lemma py_sorted_by_perm {A : Type} (key : A -> Key) (l l' : list A) :
  NoDup (List.map key l) -> Permutation l l' ->
  py_sorted_by key l = py_sorted_by key l'.
Proof.
  intros ND P. unfold py_sorted_by, homogeneous.
  rewrite <- (forallb_perm is_int _ _ (Permutation_map key P)).
  rewrite <- (forallb_perm is_str _ _ (Permutation_map key P)).
  destruct (forallb is_int (List.map key l)) eqn:Hint; simpl.
  - f_equal.
    apply (isort_perm_eq _ (fun a => In a l /\ is_int (key a) = true)); [| | | | exact P].
    + intros x y [_ Hx] [_ Hy]. now apply key_leb_int_total.
    + intros x y z _ _ _. apply key_leb_trans.
    + intros x y [Hx _] [Hy _] H1 H2.
      apply (NoDup_map_inj key l); auto. now apply key_leb_antisym.
    + rewrite List.Forall_forall. intros x Hx. split; [exact Hx |].
      rewrite forallb_forall in Hint. apply Hint. now apply in_map.
  - destruct (forallb is_str (List.map key l)) eqn:Hstr; [| reflexivity].
    f_equal.
    apply (isort_perm_eq _ (fun a => In a l /\ is_str (key a) = true)); [| | | | exact P].
    + intros x y [_ Hx] [_ Hy]. now apply key_leb_str_total.
    + intros x y z _ _ _. apply key_leb_trans.
    + intros x y [Hx _] [Hy _] H1 H2.
      apply (NoDup_map_inj key l); auto. now apply key_leb_antisym.
    + rewrite List.Forall_forall. intros x Hx. split; [exact Hx |].
      rewrite forallb_forall in Hstr. apply Hstr. now apply in_map.
Qed.

(** What [sorted] returns is the collection itself, in ascending order. *)
Lemma py_sorted_by_sorted {A : Type} (key : A -> Key) (l l' : list A) :
  py_sorted_by key l = Ok l' ->
  Permutation l' l
  /\ StronglySorted (fun a b => key_leb (key a) (key b) = true) l'.
Proof.
  unfold py_sorted_by, homogeneous. intros E.
  destruct (forallb is_int (List.map key l)) eqn:Hint; simpl in E.
  - injection E as <-. split; [apply isort_perm |].
    apply (isort_sorted _ (fun a => is_int (key a) = true)).
    + intros x y Hx Hy. now apply key_leb_int_total.
    + intros x y z _ _ _. apply key_leb_trans.
    + rewrite List.Forall_forall. intros x Hx.
      rewrite forallb_forall in Hint. apply Hint. now apply in_map.
  - destruct (forallb is_str (List.map key l)) eqn:Hstr; [| discriminate].
    injection E as <-. split; [apply isort_perm |].
    apply (isort_sorted _ (fun a => is_str (key a) = true)).
    + intros x y Hx Hy. now apply key_leb_str_total.
    + intros x y z _ _ _. apply key_leb_trans.
    + rewrite List.Forall_forall. intros x Hx.
      rewrite forallb_forall in Hstr. apply Hstr. now apply in_map.
Qed.

(** ** Encoder *)

(** Induction on values, with the hypothesis on every member of a list and
    on every value of a mapping. *)
Section PyVal_induction.
Variable P : PyVal -> Prop.
Hypothesis HNone : P VNone.
Hypothesis HBool : forall b, P (VBool b).
Hypothesis HInt : forall z, P (VInt z).
Hypothesis HStr : forall s, P (VStr s).
Hypothesis HList : forall l, List.Forall P l -> P (VList l).
Hypothesis HDict : forall d, List.Forall (fun p => P (snd p)) d -> P (VDict d).
Hypothesis HSet : forall l, P (VSet l).
Hypothesis HObj : forall tag, P (VObj tag).

Fixpoint PyVal_nested_ind (v : PyVal) : P v :=
  match v with
  | VNone => HNone
  | VBool b => HBool b
  | VInt z => HInt z
  | VStr s => HStr s
  | VList l =>
      HList l
        ((fix members (l : list PyVal) : List.Forall P l :=
            match l with
            | [] => @List.Forall_nil _ P
            | x :: l' => @List.Forall_cons _ P x l' (PyVal_nested_ind x) (members l')
            end) l)
  | VDict d =>
      HDict d
        ((fix entries (d : list (Key * PyVal)) : List.Forall (fun p => P (snd p)) d :=
            match d with
            | [] => @List.Forall_nil _ (fun p => P (snd p))
            | p :: d' =>
                @List.Forall_cons _ (fun p => P (snd p)) p d'
                  (match p as p0 return P (snd p0) with
                   | (_, x) => PyVal_nested_ind x
                   end)
                  (entries d')
            end) d)
  | VSet l => HSet l
  | VObj tag => HObj tag
  end.
End PyVal_induction.

Lemma dumps_keys (s : list Key) :
  mapM (fun x => x) (List.map dumps (List.map key_val s)) = Ok (List.map dumps_key s).
Proof.
  induction s as [| k s IH]; [reflexivity |].
  cbn [List.map mapM]. rewrite IH. destruct k; reflexivity.
Qed.

(** On a set the encoder emits what it emits on the list [default] returns. *)
Lemma dumps_default (l : list Key) :
  dumps (VSet l) = let* o := CapaJsonObjectEncoder_default (VSet l) in dumps o.
Proof.
  cbn [dumps CapaJsonObjectEncoder_default]. rewrite bind_assoc.
  apply bind_ext. intros s. cbn [bind dumps]. now rewrite dumps_keys.
Qed.

Lemma same_content_dumps (v : PyVal) :
  well_formed v -> forall v', same_content v v' -> dumps v = dumps v'.
Proof.
  induction v as [| b | z | s | l IH | d IH | l | tag] using PyVal_nested_ind;
    intros Hwf v' Hsame.
  - inversion Hsame; reflexivity.
  - inversion Hsame; reflexivity.
  - inversion Hsame; reflexivity.
  - inversion Hsame; reflexivity.
  - (* lists *)
    inversion Hsame as [| l0 l' F2 | |]; subst; [reflexivity |].
    inversion Hwf as [| | | | ? Hwfs | | |]; subst.
    cbn [dumps]. f_equal.
    assert (E : List.map dumps l = List.map dumps l').
    { clear Hsame Hwf. induction F2 as [| x x' l l' Hx _ IHF]; [reflexivity |].
      inversion IH; inversion Hwfs; subst. cbn [List.map]. f_equal; auto. }
    now rewrite E.
  - (* mappings *)
    inversion Hsame as [| | d1 d0 d' P F2 |]; subst; [reflexivity |].
    inversion Hwf as [| | | | | ? ND Hwfs | |]; subst.
    cbn [dumps].
    assert (E0 : List.map (fun p => (fst p, dumps (snd p))) d0
                 = List.map (fun p => (fst p, dumps (snd p))) d').
    { assert (IH0 : List.Forall (fun p => well_formed (snd p) ->
                      forall v', same_content (snd p) v' -> dumps (snd p) = dumps v') d0)
        by (eapply Permutation_Forall; [exact P | exact IH]).
      assert (Hwf0 : List.Forall (fun p => well_formed (snd p)) d0)
        by (eapply Permutation_Forall; [exact P | exact Hwfs]).
      clear -F2 IH0 Hwf0. induction F2 as [| p q d0 d' [Hk Hv] _ IHF]; [reflexivity |].
      inversion IH0; inversion Hwf0; subst. cbn [List.map]. f_equal; [| auto].
      rewrite Hk. f_equal. auto. }
    rewrite <- E0.
    rewrite (py_sorted_by_perm fst
               (List.map (fun p => (fst p, dumps (snd p))) d)
               (List.map (fun p => (fst p, dumps (snd p))) d0)).
    + reflexivity.
    + rewrite List.map_map. cbn [fst]. exact ND.
    + now apply Permutation_map.
  - (* sets *)
    inversion Hsame as [| | | l0 l' P]; subst; [reflexivity |].
    inversion Hwf as [| | | | | | ? ND |]; subst.
    cbn [dumps]. unfold py_sorted.
    rewrite (py_sorted_by_perm (fun k => k) l l'); [reflexivity | | assumption].
    now rewrite List.map_id.
  - inversion Hsame; reflexivity.
Qed.

Lemma mapM_outcome {A B : Type} (f : A -> Res B) (l : list A) :
  List.Forall (fun x => (exists b, f x = Ok b) \/ f x = Raise TypeError) l ->
  (exists bs, mapM f l = Ok bs) \/ mapM f l = Raise TypeError.
Proof.
  induction 1 as [| x l [[b Hb] | Hx] _ [[bs IH] | IH]]; cbn [mapM].
  - left. now exists [].
  - rewrite Hb, IH. left. now eexists.
  - rewrite Hb, IH. now right.
  - rewrite Hx. now right.
  - rewrite Hx. now right.
Qed.

Lemma py_sorted_by_outcome {A : Type} (key : A -> Key) (l : list A) :
  (exists l', py_sorted_by key l = Ok l') \/ py_sorted_by key l = Raise TypeError.
Proof. unfold py_sorted_by. destruct (homogeneous _); [left; eauto | now right]. Qed.

(** The encoder ends with a text or with [TypeError]. *)
Lemma dumps_outcome (v : PyVal) :
  (exists s, dumps v = Ok s) \/ dumps v = Raise TypeError.
Proof.
  induction v as [| b | z | s | l IH | d IH | l | tag] using PyVal_nested_ind;
    cbn [dumps]; try (left; eauto; fail).
  - destruct b; left; eauto.
  - destruct (mapM_outcome (fun x => x) (List.map dumps l)) as [[items E] | E].
    + rewrite List.Forall_forall in *. intros r Hr.
      apply in_map_iff in Hr as (x & <- & Hx). now apply IH.
    + rewrite E. left. cbn. eauto.
    + rewrite E. now right.
  - destruct (py_sorted_by_outcome fst (List.map (fun p => (fst p, dumps (snd p))) d))
      as [[items E] | E]; rewrite E; cbn [bind]; [| now right].
    destruct (mapM_outcome dumps_item items) as [[parts E'] | E'].
    + apply py_sorted_by_sorted in E as [P _].
      eapply Permutation_Forall; [symmetry; exact P |].
      rewrite List.Forall_forall in *. intros r Hr.
      apply in_map_iff in Hr as (p & <- & Hp). unfold dumps_item. cbn [fst snd].
      destruct (IH p Hp) as [[s Hs] | Hs]; rewrite Hs; cbn; eauto.
    + rewrite E'. left. cbn. eauto.
    + rewrite E'. now right.
  - destruct (py_sorted_by_outcome (fun k => k) l) as [[s E] | E];
      unfold py_sorted; rewrite E; cbn; eauto.
  - now right.
Qed.

Lemma mapM_Ok_In {A B : Type} (f : A -> Res B) (l : list A) (bs : list B) (a : A) :
  mapM f l = Ok bs -> In a l -> exists b, f a = Ok b.
Proof.
  intros E Hin. destruct (f a) as [b | e | ] eqn:Ha; [eauto | exfalso ..];
    revert E; apply mapM_not_Ok_at with (a := a); auto; rewrite Ha; discriminate.
Qed.

Lemma unsupported_not_encoded (v : PyVal) :
  holds_unsupported v -> forall s, dumps v <> Ok s.
Proof.
  induction 1 as [tag | l v Hin _ IH | d k v Hin _ IH]; intros s E; cbn [dumps] in E.
  - discriminate.
  - apply bind_Ok_inv in E as (items & E & _).
    destruct (mapM_Ok_In _ _ _ (dumps v) E) as [t Ht]; [now apply in_map |].
    now apply (IH t).
  - apply bind_Ok_inv in E as (items & Hs & E).
    apply bind_Ok_inv in E as (parts & E & _).
    apply py_sorted_by_sorted in Hs as [P _].
    destruct (mapM_Ok_In _ _ _ (k, dumps v) E) as [t Ht].
    + apply (Permutation_in (l := List.map (fun p => (fst p, dumps (snd p))) d));
        [now symmetry |].
      apply in_map_iff. exists (k, v). auto.
    + unfold dumps_item in Ht. cbn [fst snd] in Ht.
      apply bind_Ok_inv in Ht as (t' & Ht' & _). now apply (IH t').
Qed.

(** C8: [render_json] is [dumps] applied to the value of the assembled
    document.  [dumps] emits the members of a mapping in the order of their
    keys and a set as its sorted list, so two values with the same content,
    whatever the insertion order of their mappings and the iteration order of
    their sets, are given the same outcome, the same text when there is one;
    and a value that holds an object outside the supported kinds is not
    emitted: the encoder raises [TypeError]. *)
Theorem encoding_deterministic :
  (forall v v', well_formed v -> same_content v v' -> dumps v = dumps v')
  /\ (forall l, dumps (VSet l) = let* s := py_sorted l in dumps (VList (List.map key_val s)))
  /\ (forall d items,
        py_sorted_by fst d = Ok items ->
        well_formed (VDict d) ->
        StronglySorted (fun p q => key_leb (fst p) (fst q) = true) items
        /\ dumps (VDict d) = dumps (VDict items))
  /\ (forall v, holds_unsupported v -> dumps v = Raise TypeError).
Proof.
  split; [| split; [| split]].
  - intros v v' Hwf Hsame. now apply same_content_dumps.
  - intros l. rewrite dumps_default. cbn [CapaJsonObjectEncoder_default].
    now rewrite bind_assoc.
  - intros d items Hs Hwf. apply py_sorted_by_sorted in Hs as [P S]. split; [exact S |].
    apply same_content_dumps; [exact Hwf |].
    apply (same_dict d items items); [now symmetry |].
    clear. induction items as [| p items IH]; constructor; [| exact IH].
    split; [reflexivity | constructor].
  - intros v Hv. destruct (dumps_outcome v) as [[s E] | E]; [| exact E].
    exfalso. exact (unsupported_not_encoded v Hv s E).
Qed.

Lemma encoding_deterministic_witness :
  let v := VDict [(KStr "locations", VSet [KInt 8; KInt 1]); (KStr "children", VList [])] in
  let v' := VDict [(KStr "children", VList []); (KStr "locations", VSet [KInt 1; KInt 8])] in
  (well_formed v /\ same_content v v'
   /\ holds_unsupported (VList [VInt 1; VObj "bytes"]))
  /\ dumps v = dumps v'
  /\ dumps (VList [VInt 1; VObj "bytes"]) = Raise TypeError.
Proof.
  intros v v'.
  assert (Hwf : well_formed v).
  { apply wf_dict.
    - repeat constructor; rewrite list_elem_of_In; simpl; intuition discriminate.
    - repeat constructor; rewrite list_elem_of_In; simpl; intuition discriminate. }
  assert (Hsame : same_content v v').
  { apply (same_dict _ [(KStr "children", VList []);
                        (KStr "locations", VSet [KInt 8; KInt 1])]).
    - apply perm_swap.
    - constructor; [split; [reflexivity | apply same_refl] |].
      constructor; [| constructor].
      split; [reflexivity |]. apply same_set. apply perm_swap. }
  assert (Hobj : holds_unsupported (VList [VInt 1; VObj "bytes"])).
  { apply (unsupported_in_list _ (VObj "bytes")); [right; left; reflexivity |].
    apply unsupported_here. }
  split; [auto |].
  destruct encoding_deterministic as (Hdet & _ & _ & Hraise).
  split; [exact (Hdet v v' Hwf Hsame) | exact (Hraise _ Hobj)].
Defined.

(** The text of [render_json] is the encoding of the value of the document
    that the assembler returns, with the rule metadata as it is in the store
    at the end of the run. *)
Lemma render_json_dumps parse_parts_id fuel h meta rules_ capabilities text h' :
  render_json parse_parts_id fuel h meta rules_ capabilities = Ok (text, h') ->
  exists doc,
    convert_capabilities_to_result_document parse_parts_id fuel h meta rules_ capabilities
      = Ok (doc, h')
    /\ dumps (document_value h' doc) = Ok text.
Proof.
  unfold render_json. intros E.
  apply bind_Ok_inv in E as ([doc h1] & Hdoc & E). cbn [fst snd] in E.
  apply bind_Ok_inv in E as (t & Ht & E). injection E as <- <-. eauto.
Qed.

(** ** The budget

    A run that ends within a budget ends in the same way within any larger
    one: the outcome, a document or an exception, does not depend on the
    budget once it suffices. *)

Lemma bind_mono {A B : Type} (m m' : Res A) (k k' : A -> Res B) :
  (m <> OutOfFuel -> m' = m) ->
  (forall a, m = Ok a -> k a <> OutOfFuel -> k' a = k a) ->
  bind m k <> OutOfFuel -> bind m' k' = bind m k.
Proof.
  intros Hm Hk N. destruct m as [a | e | ]; cbn [bind] in *.
  - rewrite Hm by discriminate. cbn [bind]. now apply Hk.
  - now rewrite Hm by discriminate.
  - contradiction.
Qed.

Lemma mapM_mono {A B : Type} (f g : A -> Res B) (l : list A) :
  (forall a, f a <> OutOfFuel -> g a = f a) ->
  mapM f l <> OutOfFuel -> mapM g l = mapM f l.
Proof.
  intros Hfg. induction l as [| a l IH]; cbn [mapM]; [reflexivity |].
  apply bind_mono; [apply Hfg |].
  intros b _. apply bind_mono; [exact IH | reflexivity].
Qed.

Lemma foldM_mono {A S : Type} (f g : S -> A -> Res S) (l : list A) :
  (forall s a, f s a <> OutOfFuel -> g s a = f s a) ->
  forall s, foldM f s l <> OutOfFuel -> foldM g s l = foldM f s l.
Proof.
  intros Hfg. induction l as [| a l IH]; intros s; cbn [foldM]; [reflexivity |].
  apply bind_mono; [apply Hfg |]. intros s' _. apply IH.
Qed.

Lemma splice_locations_mono (recur recur' : Result -> Res dict) rule_matches doc :
  (forall m, recur m <> OutOfFuel -> recur' m = recur m) ->
  splice_locations recur rule_matches doc <> OutOfFuel ->
  splice_locations recur' rule_matches doc = splice_locations recur rule_matches doc.
Proof.
  intros Hr. unfold splice_locations.
  apply bind_mono; [reflexivity |]. intros locations _.
  apply bind_mono; [reflexivity |]. intros locations' _.
  apply foldM_mono. intros doc' location.
  apply bind_mono; [reflexivity |]. intros m _.
  apply bind_mono; [apply Hr | reflexivity].
Qed.

Lemma splice_references_mono (recur recur' : Result -> Res dict) h rules_ capabilities doc :
  (forall m, recur m <> OutOfFuel -> recur' m = recur m) ->
  splice_references recur h rules_ capabilities doc <> OutOfFuel ->
  splice_references recur' h rules_ capabilities doc =
  splice_references recur h rules_ capabilities doc.
Proof.
  intros Hr. unfold splice_references.
  apply bind_mono; [reflexivity |]. intros name _.
  destruct name as [| | | name | | | |]; try reflexivity.
  destruct (dict_mem name (rules rules_)).
  - apply bind_mono; [reflexivity |]. intros rule_name _.
    destruct rule_name as [| | | rule_name | | | |]; try reflexivity.
    apply bind_mono; [reflexivity |]. intros rule _.
    apply bind_mono; [reflexivity |]. intros matches _. cbv zeta.
    apply bind_mono; [reflexivity |]. intros doc' _.
    now apply splice_locations_mono.
  - apply bind_mono; [reflexivity |]. intros ns_name _.
    destruct ns_name as [| | | ns_name | | | |]; try reflexivity.
    apply bind_mono; [reflexivity |]. intros ns_rules _.
    apply foldM_mono. intros doc' rule.
    destruct (dict_mem (rule_name rule) capabilities); [| reflexivity].
    apply bind_mono; [reflexivity |]. intros matches _. cbv zeta.
    now apply splice_locations_mono.
Qed.

Lemma convert_match_step fuel h rules_ capabilities :
  forall result,
    convert_match_to_result_document fuel h rules_ capabilities result <> OutOfFuel ->
    convert_match_to_result_document (S fuel) h rules_ capabilities result =
    convert_match_to_result_document fuel h rules_ capabilities result.
Proof.
  induction fuel as [| fuel IH]; intros result N; [now destruct N |].
  rewrite (convert_match_split (S fuel)). rewrite (convert_match_split fuel) in *.
  cbv zeta in *. revert N.
  apply bind_mono; [reflexivity |]. intros node _.
  apply bind_mono; [now apply mapM_mono |]. intros children _.
  apply bind_mono; [reflexivity |]. intros is_match _.
  destruct is_match; [| reflexivity].
  now apply splice_references_mono.
Qed.

Lemma convert_match_fuel_mono fuel fuel' h rules_ capabilities result :
  fuel <= fuel' ->
  convert_match_to_result_document fuel h rules_ capabilities result <> OutOfFuel ->
  convert_match_to_result_document fuel' h rules_ capabilities result =
  convert_match_to_result_document fuel h rules_ capabilities result.
Proof.
  induction 1 as [| fuel' _ IH]; intros N; [reflexivity |].
  rewrite <- (IH N). apply convert_match_step. rewrite (IH N). exact N.
Qed.


(** * Further properties *)

(** ** Node converter *)

Lemma set_description_get_ne (d : option string) (result : dict) (k : Key) :
  k <> KStr "description" ->
  dict_get k (set_description d result) = dict_get k result.
Proof.
  intros N. unfold set_description. destruct d as [s |]; [| reflexivity].
  destruct (py_truthy (VStr s)); [| reflexivity].
  apply dict_get_set_ne. congruence.
Qed.

Lemma set_description_get (d : option string) (result : dict) :
  dict_get (KStr "description") (set_description d result) =
  match description_entry d with
  | Some v => Some v
  | None => dict_get (KStr "description") result
  end.
Proof.
  unfold set_description, description_entry. destruct d as [s |]; [| reflexivity].
  cbn [py_truthy]. destruct (String.eqb s ""); cbn [negb]; [reflexivity |].
  apply dict_get_set_eq.
Qed.

(** X1: a [some] statement whose count is 0 is emitted with type [optional]
    and without a count; with any other count it is emitted with type [some]
    and that count. *)
Theorem some_statement_optional (count : Z) (d : option string) :
  exists doc,
    convert_statement_to_result_document (Some_ count d) = Ok doc
    /\ dict_get (KStr "type") doc
       = Some (VStr (if Z.eqb count 0 then "optional" else "some"))
    /\ dict_get (KStr "count") doc = (if Z.eqb count 0 then None else Some (VInt count)).
Proof.
  unfold convert_statement_to_result_document. simpl.
  destruct (Z.eqb count 0); cbn [bind]; eexists; (split; [reflexivity |]).
  - split; [apply dict_get_set_eq |].
    rewrite dict_get_set_ne by discriminate.
    now rewrite set_description_get_ne by discriminate.
  - split; [| apply dict_get_set_eq].
    rewrite dict_get_set_ne by discriminate. apply set_description_type.
Qed.

(** X2: a [range] statement is emitted with its bounds under [min] and
    [max] and the record of its counted feature under [child], inside the
    statement record; it fails exactly as the conversion of that feature
    does. *)
Theorem range_statement_child (child : Feature) (min max : Z) (d : option string) :
  match convert_feature_to_result_document child with
  | Ok child_doc =>
      exists doc,
        convert_statement_to_result_document (Range child min max d) = Ok doc
        /\ dict_get (KStr "type") doc = Some (VStr "range")
        /\ dict_get (KStr "min") doc = Some (VInt min)
        /\ dict_get (KStr "max") doc = Some (VInt max)
        /\ dict_get (KStr "child") doc = Some (VDict child_doc)
  | Raise e => convert_statement_to_result_document (Range child min max d) = Raise e
  | OutOfFuel => False
  end.
Proof.
  unfold convert_statement_to_result_document at 1 2. simpl.
  destruct (convert_feature_to_result_document child) as [child_doc | e | ] eqn:E;
    cbn [bind].
  - eexists. split; [reflexivity |].
    rewrite !dict_get_set_eq.
    rewrite !(dict_get_set_ne (KStr "child")) by discriminate.
    rewrite !dict_get_set_eq.
    rewrite !(dict_get_set_ne (KStr "max")) by discriminate.
    rewrite !dict_get_set_eq.
    rewrite !(dict_get_set_ne (KStr "min")) by discriminate.
    rewrite set_description_type. repeat split.
  - reflexivity.
  - unfold convert_feature_to_result_document in E.
    destruct (String.eqb _ _); [destruct (feature_matches child) |]; discriminate.
Qed.

(** X3: the record of a statement has a [description] exactly when the
    statement carries a description that is not the empty string, and then
    holds that text. *)
Theorem statement_description_when_truthy (s : Statement) (doc : dict) :
  convert_statement_to_result_document s = Ok doc ->
  dict_get (KStr "description") doc = description_entry (statement_description s).
Proof.
  unfold convert_statement_to_result_document.
  destruct s as [d | d | d | count d | child min max d | scope d]; simpl.
  - intros E. injection E as <-. now rewrite set_description_get; destruct (description_entry d).
  - intros E. injection E as <-. now rewrite set_description_get; destruct (description_entry d).
  - intros E. injection E as <-. now rewrite set_description_get; destruct (description_entry d).
  - destruct (Z.eqb count 0); cbn [bind]; intros E; injection E as <-;
      rewrite dict_get_set_ne by discriminate;
      now rewrite set_description_get; destruct (description_entry d).
  - intros E. apply bind_Ok_inv in E as (child_doc & _ & E). injection E as <-.
    rewrite !dict_get_set_ne by discriminate.
    now rewrite set_description_get; destruct (description_entry d).
  - intros E. injection E as <-. rewrite dict_get_set_ne by discriminate.
    now rewrite set_description_get; destruct (description_entry d).
Qed.

Lemma statement_description_when_truthy_witness :
  convert_statement_to_result_document (Subscope "function" (Some ""))
    = Ok [(KStr "type", VStr "subscope"); (KStr "subscope", VStr "function")]
  /\ dict_get (KStr "description")
       [(KStr "type", VStr "subscope"); (KStr "subscope", VStr "function")] = None.
Proof.
  split; [reflexivity |].
  exact (statement_description_when_truthy (Subscope "function" (Some "")) _ eq_refl).
Defined.

Lemma feature_doc_get (f : Feature) (k : Key) :
  dict_get k (dict_set (KStr (feature_name f)) (VStr (feature_value_str f))
                [(KStr "type", VStr (feature_name f))]) =
  if keq k (KStr (feature_name f)) then Some (VStr (feature_value_str f))
  else if keq k (KStr "type") then Some (VStr (feature_name f))
  else None.
Proof.
  destruct (keq k (KStr (feature_name f))) eqn:E.
  - apply keq_spec in E. subst k. apply dict_get_set_eq.
  - rewrite dict_get_set_ne.
    + simpl. destruct (key_eqb k (KStr "type")); reflexivity.
    + intros <-. now rewrite keq_refl in E.
Qed.

(** X4: the record of a feature holds the feature's value under the
    feature's name and the name under [type]; [matches] is added for a
    feature named [regex] and for no other; [description] is added when the
    description is a non-empty string.  Where two of these keys coincide the
    later assignment wins: a feature named [type] has its value under [type],
    one named [description] keeps its value there only without a description
    of its own. *)
Theorem feature_record (f : Feature) (doc : dict) :
  convert_feature_to_result_document f = Ok doc ->
  dict_get (KStr "type") doc = Some (VStr (feature_type_entry f))
  /\ dict_get (KStr "matches") doc =
       (if String.eqb (feature_name f) "regex" then feature_matches f
        else if String.eqb (feature_name f) "matches"
             then Some (VStr (feature_value_str f)) else None)
  /\ dict_get (KStr "description") doc =
       match description_entry (feature_description f) with
       | Some v => Some v
       | None => if String.eqb (feature_name f) "description"
                 then Some (VStr (feature_value_str f)) else None
       end
  /\ (if String.eqb (feature_name f) "description"
      then True
      else dict_get (KStr (feature_name f)) doc = Some (VStr (feature_value_str f))).
Proof.
  unfold convert_feature_to_result_document, feature_type_entry.
  set (base := dict_set (KStr (feature_name f)) (VStr (feature_value_str f))
                 [(KStr "type", VStr (feature_name f))]).
  assert (Hbase : forall k, dict_get k base =
            if keq k (KStr (feature_name f)) then Some (VStr (feature_value_str f))
            else if keq k (KStr "type") then Some (VStr (feature_name f)) else None)
    by (intros k; apply feature_doc_get).
  assert (Htype : dict_get (KStr "type") (set_description (feature_description f) base)
                  = Some (VStr (if String.eqb (feature_name f) "type"
                                then feature_value_str f else feature_name f))).
  { rewrite set_description_get_ne by discriminate. rewrite Hbase. cbn [keq Key_KeyEq key_eqb].
    rewrite (String.eqb_sym "type"). destruct (String.eqb (feature_name f) "type"); reflexivity. }
  assert (Hdesc : dict_get (KStr "description") (set_description (feature_description f) base)
                  = match description_entry (feature_description f) with
                    | Some v => Some v
                    | None => if String.eqb (feature_name f) "description"
                              then Some (VStr (feature_value_str f)) else None
                    end).
  { rewrite set_description_get. destruct (description_entry _); [reflexivity |].
    rewrite Hbase. cbn [keq Key_KeyEq key_eqb].
    rewrite (String.eqb_sym "description").
    destruct (String.eqb (feature_name f) "description"); reflexivity. }
  assert (Hname : String.eqb (feature_name f) "description" = false ->
                  dict_get (KStr (feature_name f))
                    (set_description (feature_description f) base)
                  = Some (VStr (feature_value_str f))).
  { intros N. apply String.eqb_neq in N.
    rewrite set_description_get_ne by congruence.
    rewrite Hbase. now rewrite keq_refl. }
  destruct (String.eqb (feature_name f) "regex") eqn:Hregex.
  - apply String.eqb_eq in Hregex.
    destruct (feature_matches f) as [m |]; [| discriminate].
    intros E. injection E as <-. split; [| split; [| split]].
    + rewrite dict_get_set_ne by discriminate. exact Htype.
    + apply dict_get_set_eq.
    + rewrite dict_get_set_ne by discriminate. exact Hdesc.
    + rewrite Hregex in *. cbn [String.eqb Ascii.eqb Bool.eqb].
      rewrite dict_get_set_ne by discriminate. now apply Hname.
  - intros E. injection E as <-. rewrite Htype, Hdesc. split; [reflexivity |]. split; [| split].
    + rewrite set_description_get_ne by discriminate. rewrite Hbase.
      cbn [keq Key_KeyEq key_eqb]. rewrite (String.eqb_sym "matches").
      destruct (String.eqb (feature_name f) "matches"); reflexivity.
    + reflexivity.
    + destruct (String.eqb (feature_name f) "description") eqn:N; [exact I | now apply Hname].
Qed.

Lemma feature_record_witness :
  convert_feature_to_result_document Cases.regex_feature = Ok Cases.regex_doc
  /\ dict_get (KStr "type") Cases.regex_doc = Some (VStr "regex")
  /\ dict_get (KStr "matches") Cases.regex_doc = Some (VList [VStr "CMD.EXE"])
  /\ dict_get (KStr "description") Cases.regex_doc = Some (VStr "shell")
  /\ dict_get (KStr "regex") Cases.regex_doc = Some (VStr "/cmd\.exe/i").
Proof.
  split; [reflexivity |].
  exact (feature_record Cases.regex_feature Cases.regex_doc eq_refl).
Defined.

(** ** Splicer: nodes that are no reference *)

(** X5: a result whose node is neither a statement nor a feature makes
    [convert_match_to_result_document] raise [RuntimeError] before its
    children are looked at, and a tree that holds such a result at any depth
    below its children is not converted, whatever the budget. *)
Theorem foreign_node_aborts h rules_ capabilities result result' tag :
  result_node result result' ->
  result_statement result' = NOther tag ->
  (forall fuel,
     convert_match_to_result_document (S fuel) h rules_ capabilities result'
       = Raise RuntimeError)
  /\ (forall fuel doc,
        convert_match_to_result_document fuel h rules_ capabilities result <> Ok doc).
Proof.
  intros Hnode Hother. split.
  - intros fuel. rewrite convert_match_split. cbv zeta. now rewrite Hother.
  - induction Hnode as [r | r child r' Hin _ IH]; intros [| fuel] doc E;
      try discriminate; rewrite convert_match_split in E; cbv zeta in E.
    + rewrite Hother in E. discriminate.
    + apply bind_Ok_inv in E as (node & _ & E).
      apply bind_Ok_inv in E as (children & Hkids & _).
      destruct (mapM_Ok_In _ _ _ child Hkids Hin) as [d Hd].
      exact (IH Hother fuel d Hd).
Qed.

Lemma foreign_node_aborts_witness :
  (result_node Cases.foreign_tree (mkResult false (NOther "Result") [] [])
   /\ result_statement (mkResult false (NOther "Result") [] []) = NOther "Result")
  /\ convert_match_to_result_document 1 Example.store Example.ruleset Example.capabilities
       (mkResult false (NOther "Result") [] []) = Raise RuntimeError.
Proof.
  assert (Hnode : result_node Cases.foreign_tree (mkResult false (NOther "Result") [] [])).
  { eapply result_node_child; [right; left; reflexivity |].
    eapply result_node_child; [left; reflexivity |]. apply result_node_self. }
  split; [split; [exact Hnode | reflexivity] |].
  exact (proj1 (foreign_node_aborts Example.store Example.ruleset Example.capabilities
                  Cases.foreign_tree _ "Result" Hnode eq_refl) 0).
Defined.

Lemma convert_feature_type_entry (f : Feature) (doc : dict) :
  convert_feature_to_result_document f = Ok doc ->
  dict_get (KStr "type") doc = Some (VStr (feature_type_entry f)).
Proof.
  unfold convert_feature_to_result_document, feature_type_entry. intros E.
  assert (Htype : dict_get (KStr "type")
                    (set_description (feature_description f)
                       (dict_set (KStr (feature_name f)) (VStr (feature_value_str f))
                          [(KStr "type", VStr (feature_name f))]))
                  = Some (VStr (if String.eqb (feature_name f) "type"
                                then feature_value_str f else feature_name f))).
  { rewrite set_description_get_ne by discriminate. rewrite feature_doc_get.
    cbn [keq Key_KeyEq key_eqb]. rewrite (String.eqb_sym "type").
    destruct (String.eqb (feature_name f) "type"); reflexivity. }
  destruct (String.eqb (feature_name f) "regex").
  - destruct (feature_matches f); [| discriminate]. injection E as <-.
    rewrite dict_get_set_ne by discriminate. exact Htype.
  - injection E as <-. exact Htype.
Qed.

Lemma is_successful_match_feature (d : dict) (t : string) (success : bool)
    (children : list PyVal) :
  dict_get (KStr "type") d = Some (VStr t) ->
  is_successful_match
    (node_doc success (VDict [(KStr "type", VStr "feature"); (KStr "feature", VDict d)])
       children) = Ok (String.eqb t "match" && success)%bool.
Proof.
  intros Ht. unfold is_successful_match. simpl. unfold getitem. rewrite Ht.
  simpl. destruct (String.eqb t "match"); reflexivity.
Qed.

Lemma is_successful_match_refers (result : Result) (node : dict) (children : list PyVal) :
  convert_node_to_result_document (result_statement result) = Ok node ->
  is_successful_match
    (attach_locations result (node_doc (result_success result) (VDict node) children))
  = Ok (refers result).
Proof.
  intros Hnode. rewrite attach_locations_doc.
  assert (E : is_successful_match
                (node_doc (result_success result) (VDict node) children)
              = Ok (refers result)).
  { unfold refers. unfold convert_node_to_result_document in Hnode.
    destruct (result_statement result) as [s | f | tag]; [| | discriminate].
    - apply bind_Ok_inv in Hnode as (d & _ & Hnode). injection Hnode as <-.
      apply is_successful_match_statement.
    - apply bind_Ok_inv in Hnode as (d & Hd & Hnode). injection Hnode as <-.
      apply is_successful_match_feature. now apply convert_feature_type_entry. }
  destruct (locations_expected result); [| exact E].
  now rewrite is_successful_match_located.
Qed.

(** Unless the node is a feature whose [type] entry is [match] and that
    succeeded, the document is built from the node and the converted children
    alone. *)
Lemma convert_match_no_reference fuel h rules_ capabilities result :
  refers result = false ->
  convert_match_to_result_document (S fuel) h rules_ capabilities result =
    let* node := convert_node_to_result_document (result_statement result) in
    let* children :=
      mapM (convert_match_to_result_document fuel h rules_ capabilities)
           (result_children result) in
    Ok (attach_locations result
          (node_doc (result_success result) (VDict node) (VDict <$> children))).
Proof.
  intros Href. rewrite convert_match_split. cbv zeta.
  destruct (convert_node_to_result_document (result_statement result)) as [node | e | ]
    eqn:Hnode; [| reflexivity ..].
  cbn [bind]. apply bind_ext. intros children.
  rewrite (is_successful_match_refers result node _ Hnode), Href. reflexivity.
Qed.

(** X6: a [match] feature that did not succeed is emitted with its feature
    node and the documents of its own children only: no rule, namespace or
    capability is looked up, so that a name found in no index raises
    nothing. *)
Theorem failed_reference_unspliced fuel h rules_ capabilities result f :
  result_statement result = NFeature f ->
  feature_name f = "match" ->
  result_success result = false ->
  convert_match_to_result_document (S fuel) h rules_ capabilities result =
    let* children :=
      mapM (convert_match_to_result_document fuel h rules_ capabilities)
           (result_children result) in
    Ok (node_doc false (match_node f) (VDict <$> children)).
Proof.
  intros Hs Hn Hfail. rewrite convert_match_no_reference.
  - rewrite Hs. cbn [convert_node_to_result_document].
    rewrite (convert_feature_match f Hn). cbn [bind].
    apply bind_ext. intros children.
    unfold attach_locations. now rewrite Hs, Hfail.
  - unfold refers. rewrite Hs, Hfail. apply andb_false_r.
Qed.

Lemma failed_reference_unspliced_witness :
  (result_statement Cases.failed_ref = NFeature (Example.feature "match" "nowhere")
   /\ feature_name (Example.feature "match" "nowhere") = "match"
   /\ result_success Cases.failed_ref = false
   /\ dict_get "nowhere" (rules Example.ruleset) = None
   /\ dict_get "nowhere" (rules_by_namespace Example.ruleset) = None)
  /\ convert_match_to_result_document 2 Example.store Example.ruleset Example.capabilities
       Cases.failed_ref =
     Ok (node_doc false (Example.feature_node "match" "nowhere")
           [VDict (Example.leaf_doc "api" "CreateFile" [1%Z])]).
Proof.
  split; [repeat split |].
  exact (failed_reference_unspliced 1 Example.store Example.ruleset Example.capabilities
           Cases.failed_ref (Example.feature "match" "nowhere") eq_refl eq_refl eq_refl).
Defined.

(** X7: on a tree in which no result is a successful [match] feature the
    converter consults neither the rule set, nor the capabilities, nor the
    store: the outcome is the same whatever they are. *)
Theorem reference_free_independent fuel h rules_ capabilities h' rules_' capabilities' result :
  (forall r, result_node result r -> refers r = false) ->
  convert_match_to_result_document fuel h rules_ capabilities result =
  convert_match_to_result_document fuel h' rules_' capabilities' result.
Proof.
  revert result. induction fuel as [| fuel IH]; intros result Hfree; [reflexivity |].
  rewrite !convert_match_no_reference by (apply Hfree; apply result_node_self).
  apply bind_ext. intros node. f_equal.
  apply mapM_ext_in. intros child Hin. apply IH.
  intros r Hr. apply Hfree. now apply (result_node_child result child r).
Qed.

Lemma plain_tree_reference_free (r : Result) :
  result_node Cases.plain_tree r -> refers r = false.
Proof.
  intros H.
  repeat match goal with
         | H : result_node _ _ |- _ =>
             inversion H; clear H; subst; [reflexivity |]
         | H : In _ (result_children _) |- _ => simpl in H
         | H : _ \/ _ |- _ => destruct H
         | H : _ = _ |- _ => subst
         | H : False |- _ => destruct H
         end.
Qed.

Lemma reference_free_independent_witness :
  (forall r, result_node Cases.plain_tree r -> refers r = false)
  /\ convert_match_to_result_document 3 Example.store Example.ruleset Example.capabilities
       Cases.plain_tree =
     convert_match_to_result_document 3 ∅ {| rules := []; rules_by_namespace := [] |} []
       Cases.plain_tree.
Proof.
  split; [exact plain_tree_reference_free |].
  exact (reference_free_independent 3 Example.store Example.ruleset Example.capabilities
           ∅ {| rules := []; rules_by_namespace := [] |} [] Cases.plain_tree
           plain_tree_reference_free).
Defined.

Lemma convert_feature_not_OutOfFuel (f : Feature) :
  convert_feature_to_result_document f <> OutOfFuel.
Proof.
  unfold convert_feature_to_result_document.
  destruct (String.eqb _ _); [destruct (feature_matches f) |]; discriminate.
Qed.

Lemma convert_node_not_OutOfFuel (node : Node) :
  convert_node_to_result_document node <> OutOfFuel.
Proof.
  destruct node as [s | f | tag]; cbn [convert_node_to_result_document];
    [| | discriminate].
  - unfold convert_statement_to_result_document.
    destruct s as [d | d | d | count d | child min max d | scope d]; simpl;
      try discriminate.
    + destruct (Z.eqb count 0); discriminate.
    + pose proof (convert_feature_not_OutOfFuel child) as N.
      destruct (convert_feature_to_result_document child); [discriminate .. | contradiction].
  - pose proof (convert_feature_not_OutOfFuel f) as N.
    destruct (convert_feature_to_result_document f); [discriminate .. | contradiction].
Qed.

Lemma mapM_not_OutOfFuel {A B : Type} (f : A -> Res B) (l : list A) :
  (forall a, In a l -> f a <> OutOfFuel) -> mapM f l <> OutOfFuel.
Proof.
  induction l as [| a l IH]; intros Hf; cbn [mapM]; [discriminate |].
  pose proof (Hf a (or_introl eq_refl)) as Ha.
  destruct (f a) as [b | e | ]; [| discriminate | contradiction]. cbn [bind].
  assert (Hl : mapM f l <> OutOfFuel) by (apply IH; intros x Hx; apply Hf; now right).
  destruct (mapM f l); [discriminate .. | contradiction].
Qed.

Lemma height_child (r child : Result) :
  In child (result_children r) -> height child < height r.
Proof.
  destruct r as [success statement children locations]. cbn [result_children height].
  intros Hin.
  assert (H : height child <= list_max (List.map height children)).
  { pose proof (proj1 (list_max_le (List.map height children)
                         (list_max (List.map height children))) (Nat.le_refl _)) as F.
    rewrite List.Forall_forall in F. apply F. now apply in_map. }
  lia.
Qed.

(** X8: on a tree in which no result is a successful [match] feature the
    recursion of the converter is that of the tree: a budget of the height of
    the tree suffices, and the run ends with a document or with an exception
    of the node converter. *)
Theorem reference_free_terminates fuel h rules_ capabilities result :
  (forall r, result_node result r -> refers r = false) ->
  height result <= fuel ->
  convert_match_to_result_document fuel h rules_ capabilities result <> OutOfFuel.
Proof.
  revert result. induction fuel as [| fuel IH]; intros result Hfree Hh.
  - destruct result. simpl in Hh. lia.
  - rewrite convert_match_no_reference by (apply Hfree; apply result_node_self).
    pose proof (convert_node_not_OutOfFuel (result_statement result)) as Hnode.
    destruct (convert_node_to_result_document (result_statement result));
      [| discriminate | contradiction].
    cbn [bind].
    assert (Hkids : mapM (convert_match_to_result_document fuel h rules_ capabilities)
                      (result_children result) <> OutOfFuel).
    { apply mapM_not_OutOfFuel. intros child Hin. apply IH.
      - intros r Hr. apply Hfree. now apply (result_node_child result child r).
      - pose proof (height_child result child Hin). lia. }
    destruct (mapM _ (result_children result)); [discriminate .. | contradiction].
Qed.

Lemma reference_free_terminates_witness :
  ((forall r, result_node Cases.plain_tree r -> refers r = false)
   /\ height Cases.plain_tree <= 3)
  /\ convert_match_to_result_document 3 Example.store Example.ruleset Example.capabilities
       Cases.plain_tree <> OutOfFuel.
Proof.
  assert (Hh : height Cases.plain_tree <= 3) by (vm_compute; lia).
  split; [split; [exact plain_tree_reference_free | exact Hh] |].
  exact (reference_free_terminates 3 Example.store Example.ruleset Example.capabilities
           Cases.plain_tree plain_tree_reference_free Hh).
Defined.

(** ** Splicer: references *)

(** X9: a successful [match] feature that names a rule without the subscope
    marker keeps its feature node, the one naming the rule, and is given the
    rule's tree at every address of its location set after its own
    children. *)
Theorem rule_reference_spliced fuel h rules_ capabilities result f rule matches
    children spliced :
  result_statement result = NFeature f ->
  feature_name f = "match" ->
  result_success result = true ->
  dict_get (feature_value_str f) (rules rules_) = Some rule ->
  is_subscope_rule h rule = false ->
  dict_get (feature_value_str f) capabilities = Some matches ->
  mapM (convert_match_to_result_document fuel h rules_ capabilities)
       (result_children result) = Ok children ->
  mapM (splice_at (convert_match_to_result_document fuel h rules_ capabilities)
                  (dict_of_pairs matches))
       (result_locations result) = Ok spliced ->
  convert_match_to_result_document (S fuel) h rules_ capabilities result =
    Ok (located_doc true
          (VDict [(KStr "type", VStr "feature");
                  (KStr "feature",
                   VDict (set_description (feature_description f)
                            [(KStr "type", VStr "match");
                             (KStr "match", VStr (feature_value_str f))]))])
          ((VDict <$> children) ++ (VDict <$> spliced))
          (result_locations result)).
Proof.
  intros Hs Hn Hok Hr Hsub Hcap Hkids Hspl.
  rewrite (convert_match_rule fuel h rules_ capabilities result f rule Hs Hn Hok Hr).
  cbv zeta. rewrite Hkids. cbn [bind].
  unfold getitem at 1. rewrite Hcap. cbn [bind].
  rewrite Hsub. cbn [bind]. rewrite Hspl. reflexivity.
Qed.

Lemma rule_reference_spliced_witness :
  let recur := convert_match_to_result_document 2 Example.store Example.ruleset
                 Example.capabilities in
  let matches := [(1%Z, Example.leaf "number" "1" [1%Z]);
                  (8%Z, Example.leaf "number" "8" [8%Z])] in
  (result_statement Example.ref_R = NFeature (Example.feature "match" "R")
   /\ feature_name (Example.feature "match" "R") = "match"
   /\ result_success Example.ref_R = true
   /\ dict_get "R" (rules Example.ruleset) = Some Example.rule_R
   /\ is_subscope_rule Example.store Example.rule_R = false
   /\ dict_get "R" Example.capabilities = Some matches
   /\ mapM recur (result_children Example.ref_R) = Ok []
   /\ mapM (splice_at recur (dict_of_pairs matches)) (result_locations Example.ref_R)
      = Ok [Example.leaf_doc "number" "8" [8%Z]; Example.leaf_doc "number" "1" [1%Z]])
  /\ convert_match_to_result_document 3 Example.store Example.ruleset Example.capabilities
       Example.ref_R =
     Ok (located_doc true (Example.feature_node "match" "R")
           [VDict (Example.leaf_doc "number" "8" [8%Z]);
            VDict (Example.leaf_doc "number" "1" [1%Z])]
           [8%Z; 1%Z]).
Proof.
  intros recur matches.
  assert (Hsub : is_subscope_rule Example.store Example.rule_R = false)
    by (vm_compute; reflexivity).
  assert (Hspl : mapM (splice_at recur (dict_of_pairs matches))
                   (result_locations Example.ref_R)
                 = Ok [Example.leaf_doc "number" "8" [8%Z];
                       Example.leaf_doc "number" "1" [1%Z]])
    by (vm_compute; reflexivity).
  split.
  { repeat split; try reflexivity; assumption. }
  exact (rule_reference_spliced 2 Example.store Example.ruleset Example.capabilities
           Example.ref_R (Example.feature "match" "R") Example.rule_R matches [] _
           eq_refl eq_refl eq_refl eq_refl Hsub eq_refl eq_refl Hspl).
Defined.

(** X10: a successful [match] feature that names a rule carrying the
    subscope marker whose [meta] has no [scope] is not converted: once the
    children are converted and the capabilities of the rule found, the
    subscript [rule.meta["scope"]] raises [KeyError]. *)
Theorem subscope_without_scope_raises h rules_ capabilities result f rule :
  result_statement result = NFeature f ->
  feature_name f = "match" ->
  result_success result = true ->
  dict_get (feature_value_str f) (rules rules_) = Some rule ->
  is_subscope_rule h rule = true ->
  dict_get (KStr "scope") (deref h (rule_meta rule)) = None ->
  (forall fuel children matches,
     mapM (convert_match_to_result_document fuel h rules_ capabilities)
          (result_children result) = Ok children ->
     dict_get (feature_value_str f) capabilities = Some matches ->
     convert_match_to_result_document (S fuel) h rules_ capabilities result
       = Raise KeyError)
  /\ (forall fuel doc,
        convert_match_to_result_document fuel h rules_ capabilities result <> Ok doc).
Proof.
  intros Hs Hn Hok Hr Hsub Hscope. split.
  - intros fuel children matches Hkids Hcap.
    rewrite (convert_match_rule fuel h rules_ capabilities result f rule Hs Hn Hok Hr).
    cbv zeta. rewrite Hkids. cbn [bind]. unfold getitem at 1. rewrite Hcap. cbn [bind].
    rewrite Hsub. unfold getitem. now rewrite Hscope.
  - intros [| fuel] doc; [discriminate |].
    rewrite (convert_match_rule fuel h rules_ capabilities result f rule Hs Hn Hok Hr).
    cbv zeta. destruct (mapM _ (result_children result)); cbn [bind]; try discriminate.
    destruct (getitem capabilities (feature_value_str f)); cbn [bind]; try discriminate.
    rewrite Hsub. unfold getitem. rewrite Hscope. discriminate.
Qed.

Lemma subscope_without_scope_raises_witness :
  let store := <[1 := [(KStr "capa/subscope-rule", VBool true)]]> Example.store in
  (result_statement Example.ref_B = NFeature (Example.feature "match" "B")
   /\ feature_name (Example.feature "match" "B") = "match"
   /\ result_success Example.ref_B = true
   /\ dict_get "B" (rules Example.ruleset) = Some Example.rule_B
   /\ is_subscope_rule store Example.rule_B = true
   /\ dict_get (KStr "scope") (deref store (rule_meta Example.rule_B)) = None
   /\ dict_get "B" Example.capabilities = Some [(4198400%Z, Example.tree_B)])
  /\ convert_match_to_result_document 4 store Example.ruleset Example.capabilities
       Example.ref_B = Raise KeyError.
Proof.
  intros store.
  assert (Hsub : is_subscope_rule store Example.rule_B = true) by (vm_compute; reflexivity).
  assert (Hscope : dict_get (KStr "scope") (deref store (rule_meta Example.rule_B)) = None)
    by (vm_compute; reflexivity).
  split.
  { repeat split; try reflexivity; assumption. }
  exact (proj1 (subscope_without_scope_raises store Example.ruleset Example.capabilities
                  Example.ref_B (Example.feature "match" "B") Example.rule_B
                  eq_refl eq_refl eq_refl eq_refl Hsub Hscope)
           3 [] [(4198400%Z, Example.tree_B)] eq_refl eq_refl).
Defined.

Lemma bind_ret {A B : Type} (a : A) (k : A -> Res B) : bind (Ok a) k = k a.
Proof. reflexivity. Qed.

Lemma splice_rule_filter {X : Type} recur (capabilities : Capabilities) locations :
  forall (ns_rules : list Rule) (K : list dict -> Res X),
    (let* groups := mapM (splice_rule recur capabilities locations) ns_rules in
     K (concat groups)) =
    (let* groups :=
       mapM (fun rule =>
               let* matches := getitem capabilities (rule_name rule) in
               mapM (splice_at recur (dict_of_pairs matches)) locations)
            (List.filter (fun rule => dict_mem (rule_name rule) capabilities) ns_rules) in
     K (concat groups)).
Proof.
  induction ns_rules as [| rule ns_rules IH]; intros K; [reflexivity |].
  cbn [mapM List.filter]. unfold splice_rule at 1.
  destruct (dict_mem (rule_name rule) capabilities).
  - cbn [mapM]. rewrite !bind_assoc. apply bind_ext. intros matches.
    apply bind_ext. intros group. rewrite !bind_assoc.
    exact (IH (fun c => K (group ++ c))).
  - rewrite !bind_assoc. rewrite bind_ret, bind_assoc. exact (IH K).
Qed.

(** X11: on a successful [match] feature that names a namespace, the rules
    of the namespace that have no entry in the capabilities count for
    nothing: the document is the one obtained from the rules of the namespace
    that have one, each giving its tree at every address of the location set,
    rule after rule. *)
Theorem namespace_reference_spliced fuel h rules_ capabilities result f ns_rules :
  result_statement result = NFeature f ->
  feature_name f = "match" ->
  result_success result = true ->
  dict_get (feature_value_str f) (rules rules_) = None ->
  dict_get (feature_value_str f) (rules_by_namespace rules_) = Some ns_rules ->
  convert_match_to_result_document (S fuel) h rules_ capabilities result =
    let recur := convert_match_to_result_document fuel h rules_ capabilities in
    let* children := mapM recur (result_children result) in
    let* groups :=
      mapM (fun rule =>
              let* matches := getitem capabilities (rule_name rule) in
              mapM (splice_at recur (dict_of_pairs matches)) (result_locations result))
           (List.filter (fun rule => dict_mem (rule_name rule) capabilities) ns_rules) in
    Ok (located_doc true (match_node f)
          ((VDict <$> children) ++ (VDict <$> concat groups))
          (result_locations result)).
Proof.
  intros Hs Hn Hok Hr Hns.
  rewrite (convert_match_namespace fuel h rules_ capabilities result f Hs Hn Hok Hr).
  cbv zeta. apply bind_ext. intros children.
  unfold getitem at 1. rewrite Hns. cbn [bind].
  apply (splice_rule_filter _ capabilities (result_locations result) ns_rules
           (fun c => Ok (located_doc true (match_node f)
                           ((VDict <$> children) ++ (VDict <$> c))
                           (result_locations result)))).
Qed.

Lemma namespace_reference_spliced_witness :
  (result_statement Example.ref_net = NFeature (Example.feature "match" "net")
   /\ feature_name (Example.feature "match" "net") = "match"
   /\ result_success Example.ref_net = true
   /\ dict_get "net" (rules Example.ruleset) = None
   /\ dict_get "net" (rules_by_namespace Example.ruleset)
      = Some [Example.rule_X; Example.rule_Y])
  /\ List.filter (fun rule => dict_mem (rule_name rule) Example.capabilities)
       [Example.rule_X; Example.rule_Y] = [Example.rule_Y]
  /\ convert_match_to_result_document 3 Example.store Example.ruleset Example.capabilities
       Example.ref_net =
     Ok (located_doc true (Example.feature_node "match" "net")
           [VDict (Example.leaf_doc "api" "socket" [20480%Z])] [20480%Z]).
Proof.
  split; [repeat split |]. split; [reflexivity |].
  rewrite (namespace_reference_spliced 2 Example.store Example.ruleset Example.capabilities
             Example.ref_net (Example.feature "match" "net")
             [Example.rule_X; Example.rule_Y] eq_refl eq_refl eq_refl eq_refl eq_refl).
  reflexivity.
Defined.

(** ** The address index of a rule *)

Section DictOfPairs.
Context {K V : Type} `{KeyEq K}.

Lemma dict_get_None (k : K) (d : pydict K V) :
  dict_get k d = None <-> ~ In k (List.map fst d).
Proof.
  induction d as [| [k' v] d IH]; simpl; [tauto |].
  destruct (keq k k') eqn:E.
  - apply keq_spec in E. subst. split; [discriminate | tauto].
  - rewrite IH. split.
    + intros N [E' | Hin]; [| tauto]. subst. now rewrite keq_refl in E.
    + tauto.
Qed.

Lemma dict_set_keys (k : K) (v : V) (d : pydict K V) :
  List.map fst (dict_set k v d) =
  if dict_mem k d then List.map fst d else List.map fst d ++ [k].
Proof.
  unfold dict_mem. induction d as [| [k' v'] d IH]; simpl; [reflexivity |].
  destruct (keq k k') eqn:E; simpl; [reflexivity |].
  rewrite IH. now destruct (dict_get k d).
Qed.

Lemma dict_set_NoDup (k : K) (v : V) (d : pydict K V) :
  List.NoDup (List.map fst d) -> List.NoDup (List.map fst (dict_set k v d)).
Proof.
  intros ND. rewrite dict_set_keys. unfold dict_mem.
  destruct (dict_get k d) eqn:E; [exact ND |].
  apply dict_get_None in E.
  apply (Permutation_NoDup (l := k :: List.map fst d)).
  - apply Permutation_cons_append.
  - now constructor.
Qed.

Lemma fold_dict_set_NoDup (l : list (K * V)) (acc : pydict K V) :
  List.NoDup (List.map fst acc) ->
  List.NoDup (List.map fst (fold_left (fun d p => dict_set (fst p) (snd p) d) l acc)).
Proof.
  revert acc. induction l as [| p l IH]; intros acc ND; simpl; [exact ND |].
  apply IH. now apply dict_set_NoDup.
Qed.

Lemma fold_dict_set_get_notin (k : K) (l : list (K * V)) (acc : pydict K V) :
  ~ In k (List.map fst l) ->
  dict_get k (fold_left (fun d p => dict_set (fst p) (snd p) d) l acc) = dict_get k acc.
Proof.
  revert acc. induction l as [| [k' v'] l IH]; intros acc N; simpl in *; [reflexivity |].
  rewrite IH by tauto. apply dict_get_set_ne. tauto.
Qed.

(** X12: in the mapping [{address: result for (address, result) in pairs}]
    an address that occurs more than once holds the result of its last pair,
    an address that does not occur has no entry, and every address is there
    once. *)
Theorem later_pair_wins :
  (forall (before after : list (K * V)) (k : K) (v : V),
     ~ In k (List.map fst after) ->
     dict_get k (dict_of_pairs (before ++ (k, v) :: after)) = Some v)
  /\ (forall (pairs : list (K * V)) (k : K),
        ~ In k (List.map fst pairs) -> dict_get k (dict_of_pairs pairs) = None)
  /\ (forall pairs : list (K * V), List.NoDup (List.map fst (dict_of_pairs pairs))).
Proof.
  unfold dict_of_pairs. split; [| split].
  - intros before after k v N. rewrite fold_left_app. cbn [fold_left fst snd].
    rewrite fold_dict_set_get_notin by exact N. apply dict_get_set_eq.
  - intros pairs k N. now rewrite fold_dict_set_get_notin.
  - intros pairs. apply fold_dict_set_NoDup. constructor.
Qed.
End DictOfPairs.

Lemma later_pair_wins_witness :
  let pairs := [(1%Z, Example.tree_X); (2%Z, Example.tree_B); (1%Z, Example.tree_Y)] in
  (~ In 1%Z (List.map fst (@nil (Z * Result))) /\ ~ In 3%Z (List.map fst pairs))
  /\ dict_get 1%Z (dict_of_pairs pairs) = Some Example.tree_Y
  /\ dict_get 3%Z (dict_of_pairs pairs) = None
  /\ List.NoDup (List.map fst (dict_of_pairs pairs)).
Proof.
  intros pairs.
  assert (N1 : ~ In 1%Z (List.map fst (@nil (Z * Result)))) by (simpl; tauto).
  assert (N3 : ~ In 3%Z (List.map fst pairs)) by (simpl; intuition discriminate).
  split; [split; assumption |].
  destruct (@later_pair_wins Z Result _) as (Hlast & Hnone & Hnodup).
  split; [| split].
  - exact (Hlast [(1%Z, Example.tree_X); (2%Z, Example.tree_B)] [] 1%Z Example.tree_Y N1).
  - exact (Hnone pairs 3%Z N3).
  - exact (Hnodup pairs).
Defined.

(** ** The store and the splicer *)

Lemma foldM_ext {A S : Type} (f g : S -> A -> Res S) (l : list A) :
  (forall s a, f s a = g s a) -> forall s, foldM f s l = foldM g s l.
Proof.
  intros E. induction l as [| a l IH]; intros s; cbn [foldM]; [reflexivity |].
  rewrite E. apply bind_ext. exact IH.
Qed.

Lemma splice_locations_ext (recur recur' : Result -> Res dict) rule_matches doc :
  (forall m, recur m = recur' m) ->
  splice_locations recur rule_matches doc = splice_locations recur' rule_matches doc.
Proof.
  intros E. unfold splice_locations.
  apply bind_ext. intros locations. apply bind_ext. intros locations'.
  apply foldM_ext. intros doc' location.
  apply bind_ext. intros m. now rewrite E.
Qed.

Lemma splice_references_frame (recur recur' : Result -> Res dict) (h h' : heap)
    rules_ capabilities doc :
  (forall m, recur m = recur' m) ->
  (forall l : loc,
     dict_get (KStr "capa/subscope-rule") (deref h' l)
       = dict_get (KStr "capa/subscope-rule") (deref h l)
     /\ dict_get (KStr "scope") (deref h' l) = dict_get (KStr "scope") (deref h l)) ->
  splice_references recur h rules_ capabilities doc =
  splice_references recur' h' rules_ capabilities doc.
Proof.
  intros E Hh. unfold splice_references.
  apply bind_ext. intros name.
  destruct name as [| | | name | | | |]; try reflexivity.
  destruct (dict_mem name (rules rules_)).
  - apply bind_ext. intros rule_name.
    destruct rule_name as [| | | rule_name | | | |]; try reflexivity.
    apply bind_ext. intros rule. apply bind_ext. intros matches. cbv zeta.
    destruct (Hh (rule_meta rule)) as [Hmark Hscope].
    unfold getitem at 1 2. rewrite Hmark, Hscope.
    apply bind_ext. intros doc'. now apply splice_locations_ext.
  - apply bind_ext. intros ns_name.
    destruct ns_name as [| | | ns_name | | | |]; try reflexivity.
    apply bind_ext. intros ns_rules. apply foldM_ext. intros doc' rule.
    destruct (dict_mem (rule_name rule) capabilities); [| reflexivity].
    apply bind_ext. intros matches. cbv zeta. now apply splice_locations_ext.
Qed.

(** Of the store the splicer reads two keys of the rule metadata. *)
Lemma convert_match_store_frame (h h' : heap) rules_ capabilities :
  (forall l : loc,
     dict_get (KStr "capa/subscope-rule") (deref h' l)
       = dict_get (KStr "capa/subscope-rule") (deref h l)
     /\ dict_get (KStr "scope") (deref h' l) = dict_get (KStr "scope") (deref h l)) ->
  forall fuel result,
    convert_match_to_result_document fuel h rules_ capabilities result =
    convert_match_to_result_document fuel h' rules_ capabilities result.
Proof.
  intros Hh. induction fuel as [| fuel IH]; intros result; [reflexivity |].
  rewrite !convert_match_split. cbv zeta.
  apply bind_ext. intros node.
  rewrite (mapM_ext_in _ (convert_match_to_result_document fuel h' rules_ capabilities))
    by (intros; apply IH).
  apply bind_ext. intros children. apply bind_ext. intros is_match.
  destruct is_match; [| reflexivity].
  now apply splice_references_frame.
Qed.

(** X13: normalizing the metadata of a rule changes the outcome of no
    conversion: of the rule metadata the splicer reads [capa/subscope-rule]
    and [scope] only, which the normalization does not write. *)
Theorem normalization_keeps_splicing parse_parts_id (h : heap) (meta : loc) (h' : heap)
    (meta' : loc) fuel rules_ capabilities result :
  convert_meta_to_result_document parse_parts_id h meta = Ok (h', meta') ->
  convert_match_to_result_document fuel h' rules_ capabilities result =
  convert_match_to_result_document fuel h rules_ capabilities result.
Proof.
  intros E. symmetry. apply convert_match_store_frame.
  intros l. split; apply (convert_meta_frame_keys _ _ _ _ _ E); discriminate.
Qed.

Lemma normalization_keeps_splicing_witness :
  convert_meta_to_result_document spec_parse_parts_id Example.store 0
    = Ok (Example.normalized_store, 0)
  /\ convert_match_to_result_document 5 Example.normalized_store Example.ruleset
       Example.capabilities Example.tree_A =
     convert_match_to_result_document 5 Example.store Example.ruleset
       Example.capabilities Example.tree_A.
Proof.
  split; [exact example_meta_run |].
  exact (normalization_keeps_splicing spec_parse_parts_id Example.store 0
           Example.normalized_store 0 5 Example.ruleset Example.capabilities
           Example.tree_A example_meta_run).
Defined.

(** ** Document assembler: the entries and the store *)

Lemma foldM_not_Ok_at {A S : Type} (f : S -> A -> Res S) (l : list A) (a : A) :
  In a l -> (forall s s', f s a <> Ok s') -> forall s s', foldM f s l <> Ok s'.
Proof.
  intros Hin Hf. induction l as [| x l IH]; intros s s' E; [contradiction |].
  cbn [foldM] in E. apply bind_Ok_inv in E as (s1 & E1 & E).
  destruct Hin as [-> | Hin]; [exact (Hf s s1 E1) | exact (IH Hin s1 s' E)].
Qed.

Lemma foldM_app {A S : Type} (f : S -> A -> Res S) (l1 l2 : list A) (s : S) :
  foldM f s (l1 ++ l2) = let* s1 := foldM f s l1 in foldM f s1 l2.
Proof.
  revert s. induction l1 as [| a l1 IH]; intros s; cbn [foldM app]; [reflexivity |].
  rewrite bind_assoc. apply bind_ext. exact IH.
Qed.

(** X14: a name of the capabilities that is not a rule of the rule set stops
    the assembly: [rules[rule_name]] raises [KeyError] when the loop reaches
    the pair, and no document is returned. *)
Theorem capability_without_rule_raises parse_parts_id fuel h meta rules_ before name
    matches after :
  dict_get name (rules rules_) = None ->
  (forall doc h',
     convert_capabilities_to_result_document parse_parts_id fuel h meta rules_
       (before ++ (name, matches) :: after) <> Ok (doc, h'))
  /\ (forall st,
        foldM (convert_rule parse_parts_id fuel rules_ (before ++ (name, matches) :: after))
              ([], h) before = Ok st ->
        convert_capabilities_to_result_document parse_parts_id fuel h meta rules_
          (before ++ (name, matches) :: after) = Raise KeyError).
Proof.
  intros Hnone.
  assert (Hstep : forall capabilities st,
            convert_rule parse_parts_id fuel rules_ capabilities st (name, matches)
            = Raise KeyError).
  { intros capabilities st. unfold convert_rule. cbn [fst snd]. unfold getitem.
    now rewrite Hnone. }
  split.
  - intros doc h' E. unfold convert_capabilities_to_result_document in E.
    apply bind_Ok_inv in E as (st & E & _). revert E.
    apply foldM_not_Ok_at with (a := (name, matches)).
    + apply in_elt.
    + intros s s'. rewrite Hstep. discriminate.
  - intros st Hbefore. unfold convert_capabilities_to_result_document.
    rewrite foldM_app, Hbefore. cbn [bind foldM]. now rewrite Hstep.
Qed.

Lemma capability_without_rule_raises_witness :
  dict_get "Z" (rules Example.ruleset) = None
  /\ convert_capabilities_to_result_document spec_parse_parts_id 5 Example.store
       Example.global_meta Example.ruleset
       ([("Y", [(20480%Z, Example.tree_Y)])] ++ ("Z", []) :: [("B", [])])
     = Raise KeyError.
Proof.
  split; [reflexivity |].
  eapply (proj2 (capability_without_rule_raises spec_parse_parts_id 5 Example.store
                   Example.global_meta Example.ruleset
                   [("Y", [(20480%Z, Example.tree_Y)])] "Z" [] [("B", [])] eq_refl)).
  vm_compute. reflexivity.
Defined.

Lemma assembler_frame_splice h0 rules_ capabilities st :
  assembler_invariant h0 rules_ capabilities st ->
  forall l : loc,
    dict_get (KStr "capa/subscope-rule") (deref (snd st) l)
      = dict_get (KStr "capa/subscope-rule") (deref h0 l)
    /\ dict_get (KStr "scope") (deref (snd st) l) = dict_get (KStr "scope") (deref h0 l).
Proof. intros [Hframe _] l. split; apply Hframe; discriminate. Qed.

Lemma convert_rule_entries parse_parts_id fuel h0 rules_ capabilities st item st' :
  In item capabilities ->
  assembler_invariant h0 rules_ capabilities st ->
  convert_rule parse_parts_id fuel rules_ capabilities st item = Ok st' ->
  (forall name e,
     dict_get name (fst st) = Some e ->
     exists rule matches converted,
       dict_get name (rules rules_) = Some rule
       /\ In (name, matches) capabilities
       /\ converted_matches fuel h0 rules_ capabilities matches converted
       /\ e = {| entry_meta := rule_meta rule;
                 entry_source := rule_definition rule;
                 entry_matches := dict_of_pairs converted |}) ->
  forall name e,
    dict_get name (fst st') = Some e ->
    exists rule matches converted,
      dict_get name (rules rules_) = Some rule
      /\ In (name, matches) capabilities
      /\ converted_matches fuel h0 rules_ capabilities matches converted
      /\ e = {| entry_meta := rule_meta rule;
                entry_source := rule_definition rule;
                entry_matches := dict_of_pairs converted |}.
Proof.
  intros Hin Hinv E Hentries.
  pose proof (convert_rule_preserves _ _ _ _ _ _ _ _ Hin Hinv E) as Hinv'.
  unfold convert_rule in E.
  destruct st as [doc_rules_ h]. destruct item as [name0 matches0]. cbn [fst snd] in *.
  apply bind_Ok_inv in E as (rule & Hrule & E).
  unfold getitem in Hrule.
  destruct (dict_get name0 (rules rules_)) as [rule' |] eqn:Hget; [| discriminate].
  injection Hrule as ->.
  destruct (is_subscope_rule h rule).
  - injection E as <-. exact Hentries.
  - apply bind_Ok_inv in E as ([h1 m1] & Hmeta & E). cbn [fst snd] in E.
    apply bind_Ok_inv in E as (converted & Hconv & E). injection E as <-.
    pose proof (convert_meta_inv _ _ _ _ _ Hmeta) as [-> _].
    intros name e He. cbn [fst] in He.
    destruct (String.eqb_spec name0 name) as [<- | N].
    + rewrite dict_get_set_eq in He. injection He as <-.
      exists rule, matches0, converted. repeat split; try assumption.
      apply mapM_Ok_Forall2 in Hconv. unfold converted_matches.
      eapply Forall2_impl; [exact Hconv |].
      intros am ad Had. cbn beta in Had.
      apply bind_Ok_inv in Had as (d & Hd & Had). injection Had as <-. cbn [fst snd].
      split; [reflexivity |]. rewrite <- Hd.
      apply convert_match_store_frame.
      exact (assembler_frame_splice h0 rules_ capabilities _ Hinv').
    + rewrite dict_get_set_ne in He by exact N. now apply Hentries.
Qed.

Lemma assembled_entries parse_parts_id fuel h rules_ capabilities st :
  foldM (convert_rule parse_parts_id fuel rules_ capabilities) ([], h) capabilities = Ok st ->
  assembler_invariant h rules_ capabilities st
  /\ forall name e,
       dict_get name (fst st) = Some e ->
       exists rule matches converted,
         dict_get name (rules rules_) = Some rule
         /\ In (name, matches) capabilities
         /\ converted_matches fuel h rules_ capabilities matches converted
         /\ e = {| entry_meta := rule_meta rule;
                   entry_source := rule_definition rule;
                   entry_matches := dict_of_pairs converted |}.
Proof.
  apply (foldM_invariant _
           (fun st =>
              assembler_invariant h rules_ capabilities st
              /\ forall name e,
                   dict_get name (fst st) = Some e ->
                   exists rule matches converted,
                     dict_get name (rules rules_) = Some rule
                     /\ In (name, matches) capabilities
                     /\ converted_matches fuel h rules_ capabilities matches converted
                     /\ e = {| entry_meta := rule_meta rule;
                               entry_source := rule_definition rule;
                               entry_matches := dict_of_pairs converted |})).
  - intros s a s' Hin [Hinv Hent] Hstep. split.
    + exact (convert_rule_preserves _ _ _ _ _ _ _ _ Hin Hinv Hstep).
    + exact (convert_rule_entries _ _ _ _ _ _ _ _ Hin Hinv Hstep Hent).
  - split; [split; cbn [fst snd]; [reflexivity | discriminate] | discriminate].
Qed.

(** X15: every entry of the [rules] mapping of a run is that of a rule of
    the rule set with a pair in the capabilities: its [source] is the
    definition text of the rule, and its [matches] is the mapping built from
    the pairs of the rule, each address with the document of its tree. *)
Theorem entry_of_rule parse_parts_id fuel h meta rules_ capabilities doc h' name e :
  convert_capabilities_to_result_document parse_parts_id fuel h meta rules_ capabilities
    = Ok (doc, h') ->
  dict_get name (doc_rules doc) = Some e ->
  exists rule matches converted,
    dict_get name (rules rules_) = Some rule
    /\ In (name, matches) capabilities
    /\ converted_matches fuel h rules_ capabilities matches converted
    /\ entry_source e = rule_definition rule
    /\ entry_matches e = dict_of_pairs converted.
Proof.
  unfold convert_capabilities_to_result_document. intros E He.
  apply bind_Ok_inv in E as (st & Hfold & E). injection E as <- <-. cbn [doc_rules] in He.
  destruct (assembled_entries _ _ _ _ _ _ Hfold) as [_ Hent].
  destruct (Hent name e He) as (rule & matches & converted & H1 & H2 & H3 & ->).
  exists rule, matches, converted. auto.
Qed.

Lemma entry_of_rule_witness :
  (convert_capabilities_to_result_document spec_parse_parts_id 5 Example.store
     Example.global_meta Example.ruleset Example.capabilities_AB
   = Ok (Example.document, Example.normalized_store)
   /\ dict_get "A" (doc_rules Example.document)
      = Some {| entry_meta := 0; entry_source := "rule: A";
                entry_matches := [(4198400%Z, Example.doc_A)] |})
  /\ exists rule matches converted,
       dict_get "A" (rules Example.ruleset) = Some rule
       /\ In ("A", matches) Example.capabilities_AB
       /\ converted_matches 5 Example.store Example.ruleset Example.capabilities_AB
            matches converted
       /\ "rule: A" = rule_definition rule
       /\ [(4198400%Z, Example.doc_A)] = dict_of_pairs converted.
Proof.
  split; [split; [exact example_document_run | reflexivity] |].
  exact (entry_of_rule spec_parse_parts_id 5 Example.store Example.global_meta
           Example.ruleset Example.capabilities_AB Example.document
           Example.normalized_store "A" _ example_document_run eq_refl).
Defined.

Lemma convert_rule_store_frame parse_parts_id fuel h0 rules_ capabilities st item st' :
  In item capabilities ->
  assembler_invariant h0 rules_ capabilities st ->
  convert_rule parse_parts_id fuel rules_ capabilities st item = Ok st' ->
  forall l : loc,
    not_normalized h0 rules_ capabilities l -> snd st' !! l = snd st !! l.
Proof.
  intros Hin Hinv E l Hl. unfold convert_rule in E.
  destruct st as [doc_rules_ h]. destruct item as [name matches]. cbn [fst snd] in *.
  apply bind_Ok_inv in E as (rule & Hrule & E).
  unfold getitem in Hrule.
  destruct (dict_get name (rules rules_)) as [rule' |] eqn:Hget; [| discriminate].
  injection Hrule as ->.
  destruct (is_subscope_rule h rule) eqn:Hsub.
  - now injection E as <-.
  - apply bind_Ok_inv in E as ([h1 m1] & Hmeta & E). cbn [fst snd] in E.
    apply bind_Ok_inv in E as (converted & _ & E). injection E as <-. cbn [snd].
    apply (convert_meta_frame_locs _ _ _ _ _ Hmeta).
    intros ->. apply (Hl name matches rule Hin Hget); [| reflexivity].
    rewrite <- Hsub. symmetry. apply is_subscope_rule_frame. exact (proj1 Hinv).
Qed.

(** X16: a run of the assembler writes to the metadata of the rules it gives
    an entry, and to no other mapping of the store: the metadata of a rule
    with the subscope marker and that of a rule without a pair in the
    capabilities are at the end what they were. *)
Theorem unassembled_rules_untouched parse_parts_id fuel h meta rules_ capabilities doc h'
    (l : loc) :
  convert_capabilities_to_result_document parse_parts_id fuel h meta rules_ capabilities
    = Ok (doc, h') ->
  not_normalized h rules_ capabilities l ->
  h' !! l = h !! l.
Proof.
  unfold convert_capabilities_to_result_document. intros E Hl.
  apply bind_Ok_inv in E as (st & Hfold & E). injection E as <- <-.
  assert (Hboth : assembler_invariant h rules_ capabilities st /\ snd st !! l = h !! l).
  { revert Hfold.
    apply (foldM_invariant _
             (fun st => assembler_invariant h rules_ capabilities st
                        /\ snd st !! l = h !! l)).
    - intros s a s' Hin [Hinv Heq] Hstep. split.
      + exact (convert_rule_preserves _ _ _ _ _ _ _ _ Hin Hinv Hstep).
      + rewrite <- Heq.
        exact (convert_rule_store_frame _ _ _ _ _ _ _ _ Hin Hinv Hstep l Hl).
    - split; [split; cbn [fst snd]; [reflexivity | discriminate] | reflexivity]. }
  exact (proj2 Hboth).
Qed.

Lemma unassembled_rules_untouched_witness :
  (convert_capabilities_to_result_document spec_parse_parts_id 5 Example.store
     Example.global_meta Example.ruleset Example.capabilities_AB
   = Ok (Example.document, Example.normalized_store)
   /\ not_normalized Example.store Example.ruleset Example.capabilities_AB 1)
  /\ Example.normalized_store !! 1 = Example.store !! 1.
Proof.
  assert (Hl : not_normalized Example.store Example.ruleset Example.capabilities_AB 1).
  { intros name matches rule [E | [E | []]] Hrule Hsub; injection E as <- <-;
      cbn in Hrule; injection Hrule as <-; [discriminate |].
    vm_compute in Hsub. discriminate. }
  split; [split; [exact example_document_run | exact Hl] |].
  exact (unassembled_rules_untouched spec_parse_parts_id 5 Example.store
           Example.global_meta Example.ruleset Example.capabilities_AB Example.document
           Example.normalized_store 1 example_document_run Hl).
Defined.

(** ** Metadata normalization: a second run *)

Lemma dict_set_same {K V : Type} `{KeyEq K} (k : K) (v : V) (d : pydict K V) :
  dict_get k d = Some v -> dict_set k v d = d.
Proof.
  induction d as [| [k' v'] d IH]; simpl; [discriminate |].
  destruct (keq k k') eqn:E.
  - intros E'. injection E' as ->. reflexivity.
  - intros E'. now rewrite IH.
Qed.

Lemma mapM_parse_records {B : Type} (f : PyVal -> Res B) (e : exn) (records : list dict) :
  (forall d, f (VDict d) = Raise e) ->
  mapM f (VDict <$> records) = match records with [] => Ok [] | _ => Raise e end.
Proof.
  intros Hf. destruct records as [| d records]; [reflexivity |].
  rewrite fmap_cons. cbn [mapM]. now rewrite Hf.
Qed.

(** X17: normalization is written for metadata that holds taxonomy strings.
    Run again on the mapping it has normalized, it hands the parsed records
    to [parse_parts_id]: with a helper that raises on a mapping the second
    run raises the same, unless both lists are empty, in which case it leaves
    the store as it is. *)
Theorem renormalization parse_parts_id (e : exn) (h : heap) (meta : loc) (h' : heap)
    (meta' : loc) :
  (forall d, parse_parts_id (VDict d) = Raise e) ->
  convert_meta_to_result_document parse_parts_id h meta = Ok (h', meta') ->
  convert_meta_to_result_document parse_parts_id h' meta =
    match dict_get (KStr "att&ck") (deref h' meta), dict_get (KStr "mbc") (deref h' meta) with
    | Some (VList []), Some (VList []) => Ok (h', meta)
    | _, _ => Raise e
    end.
Proof.
  intros Hparse E.
  assert (Ha : forall d, parse_canonical_attack parse_parts_id (VDict d) = Raise e)
    by (intros d; unfold parse_canonical_attack; now rewrite Hparse).
  assert (Hm : forall d, parse_canonical_mbc parse_parts_id (VDict d) = Raise e)
    by (intros d; unfold parse_canonical_mbc; now rewrite Hparse).
  apply convert_meta_inv in E as (_ & ra & a & rm & m & _ & _ & _ & _ & ->).
  set (D := dict_set (KStr "mbc") (VList (VDict <$> m))
              (dict_set (KStr "att&ck") (VList (VDict <$> a)) (deref h meta))).
  assert (Hatt : dict_get (KStr "att&ck") D = Some (VList (VDict <$> a))).
  { unfold D. rewrite dict_get_set_ne by discriminate. apply dict_get_set_eq. }
  assert (Hmbc : dict_get (KStr "mbc") D = Some (VList (VDict <$> m)))
    by apply dict_get_set_eq.
  unfold convert_meta_to_result_document.
  rewrite !deref_insert_eq, Hatt, Hmbc.
  cbn [default from_option]. unfold id. cbn [py_iter bind].
  rewrite (mapM_parse_records _ e a Ha).
  destruct a as [| a0 a]; [| reflexivity]. cbn [bind fmap list_fmap].
  rewrite (dict_set_same (KStr "att&ck") (VList []) D Hatt).
  rewrite insert_insert_eq, deref_insert_eq, Hmbc.
  cbn [default from_option]. unfold id. cbn [py_iter bind].
  rewrite (mapM_parse_records _ e m Hm).
  destruct m as [| m0 m]; [| reflexivity]. cbn [bind fmap list_fmap].
  rewrite (dict_set_same (KStr "mbc") (VList []) D Hmbc).
  now rewrite insert_insert_eq.
Qed.

Lemma renormalization_witness :
  ((forall d, spec_parse_parts_id (VDict d) = Raise AttributeError)
   /\ convert_meta_to_result_document spec_parse_parts_id Example.store 0
      = Ok (Example.normalized_store, 0))
  /\ convert_meta_to_result_document spec_parse_parts_id Example.normalized_store 0
     = Raise AttributeError.
Proof.
  assert (Hparse : forall d, spec_parse_parts_id (VDict d) = Raise AttributeError)
    by reflexivity.
  split; [split; [exact Hparse | exact example_meta_run] |].
  rewrite (renormalization spec_parse_parts_id AttributeError Example.store 0
             Example.normalized_store 0 Hparse example_meta_run).
  reflexivity.
Defined.

(** X18: the default [[]] of [meta.get] stands for a key that is absent and
    for nothing else: metadata whose [att&ck] is present and holds [None], a
    truth value or a number makes the normalization raise [TypeError]. *)
Theorem taxonomy_value_not_iterable parse_parts_id (h : heap) (meta : loc) (v : PyVal) :
  dict_get (KStr "att&ck") (deref h meta) = Some v ->
  match v with VNone | VBool _ | VInt _ => True | _ => False end ->
  convert_meta_to_result_document parse_parts_id h meta = Raise TypeError.
Proof.
  intros Hv Hkind. unfold convert_meta_to_result_document. rewrite Hv.
  destruct v; try contradiction; reflexivity.
Qed.

Lemma taxonomy_value_not_iterable_witness :
  let store : heap := {[ 0 := [(KStr "name", VStr "A"); (KStr "att&ck", VNone)] ]} in
  dict_get (KStr "att&ck") (deref store 0) = Some VNone
  /\ convert_meta_to_result_document spec_parse_parts_id store 0 = Raise TypeError.
Proof.
  intros store.
  assert (Hv : dict_get (KStr "att&ck") (deref store 0) = Some VNone)
    by (vm_compute; reflexivity).
  split; [exact Hv |].
  exact (taxonomy_value_not_iterable spec_parse_parts_id store 0 VNone Hv I).
Defined.

(** ** Encoder: [default] *)

(** X19: [CapaJsonObjectEncoder.default] returns, for a set of integers or a
    set of strings, the list of its members in ascending order, each member
    once for each time it is enumerated; for a set that holds both an integer
    and a string it raises [TypeError], the two not being comparable. *)
Theorem default_sorts_sets (l : list Key) :
  match CapaJsonObjectEncoder_default (VSet l) with
  | Ok v =>
      exists s, v = VList (List.map key_val s)
                /\ Permutation s l
                /\ StronglySorted (fun a b => key_leb a b = true) s
                /\ homogeneous l = true
  | Raise e => e = TypeError /\ homogeneous l = false
  | OutOfFuel => False
  end.
Proof.
  cbn [CapaJsonObjectEncoder_default]. unfold py_sorted.
  destruct (py_sorted_by (fun k => k) l) as [s | e | ] eqn:E; cbn [bind].
  - exists s. split; [reflexivity |].
    destruct (py_sorted_by_sorted _ _ _ E) as [P S]. split; [exact P |]. split; [exact S |].
    unfold py_sorted_by in E. rewrite List.map_id in E.
    destruct (homogeneous l); [reflexivity | discriminate].
  - unfold py_sorted_by in E. rewrite List.map_id in E.
    destruct (homogeneous l); [discriminate |]. injection E as <-. auto.
  - unfold py_sorted_by in E. destruct (homogeneous _); discriminate.
Qed.

(** ** What the encoder accepts *)

Lemma mapM_Ok_of_Forall {A B : Type} (f : A -> Res B) (l : list A) :
  List.Forall (fun a => exists b, f a = Ok b) l -> exists bs, mapM f l = Ok bs.
Proof.
  induction 1 as [| a l [b Hb] _ [bs IH]]; cbn [mapM].
  - now exists [].
  - rewrite Hb, IH. cbn. eauto.
Qed.

Lemma encodable_VList (l : list PyVal) :
  List.Forall encodable l -> encodable (VList l).
Proof.
  intros F. unfold encodable. cbn [dumps].
  destruct (mapM_Ok_of_Forall (fun x => x) (List.map dumps l)) as [items E].
  - rewrite List.Forall_forall in *. intros r Hr.
    apply in_map_iff in Hr as (v & <- & Hv). exact (F v Hv).
  - rewrite E. cbn. eauto.
Qed.

Lemma encodable_VDict (d : dict) :
  homogeneous (List.map fst d) = true ->
  List.Forall (fun p => encodable (snd p)) d ->
  encodable (VDict d).
Proof.
  intros Hh F. unfold encodable. cbn [dumps].
  destruct (py_sorted_by fst (List.map (fun p => (fst p, dumps (snd p))) d))
    as [items | e | ] eqn:E.
  - cbn [bind]. destruct (mapM_Ok_of_Forall dumps_item items) as [parts E'].
    + apply py_sorted_by_sorted in E as [P _].
      eapply Permutation_Forall; [symmetry; exact P |].
      rewrite List.Forall_forall in *. intros r Hr.
      apply in_map_iff in Hr as (p & <- & Hp). unfold dumps_item. cbn [fst snd].
      destruct (F p Hp) as [s Hs]. rewrite Hs. cbn. eauto.
    + rewrite E'. cbn. eauto.
  - exfalso. unfold py_sorted_by in E.
    assert (Hk : List.map fst (List.map (fun p => (fst p, dumps (snd p))) d)
                 = List.map fst d)
      by (rewrite List.map_map; now apply List.map_ext).
    rewrite Hk, Hh in E. discriminate.
  - exfalso. clear Hh. revert E. unfold py_sorted_by.
    destruct (homogeneous _); discriminate.
Qed.

Lemma encodable_dict_VDict (d : dict) : encodable_dict d -> encodable (VDict d).
Proof.
  intros [Hk Hv]. apply encodable_VDict; [| exact Hv].
  unfold homogeneous. rewrite Hk. apply orb_true_r.
Qed.

Lemma encodable_VSet_int (l : list Z) : encodable (VSet (KInt <$> l)).
Proof.
  unfold encodable. cbn [dumps]. unfold py_sorted, py_sorted_by, homogeneous.
  rewrite List.map_id.
  assert (E : forallb is_int (KInt <$> l) = true).
  { induction l as [| z l IH]; [reflexivity | exact IH]. }
  rewrite E. cbn. eauto.
Qed.

Lemma encodable_dict_set (k : string) (v : PyVal) (d : dict) :
  encodable_dict d -> encodable v -> encodable_dict (dict_set (KStr k) v d).
Proof.
  intros [Hk Hv] Hnew. induction d as [| [k' v'] d IH].
  - split; [reflexivity | repeat constructor; exact Hnew].
  - cbn [List.map fst forallb] in Hk. apply andb_prop in Hk as [Hk' Hk].
    inversion Hv as [| ? ? Hv' Hvs]; subst.
    cbn [dict_set]. destruct (keq (KStr k) k').
    + split; [cbn; now rewrite Hk', Hk | constructor; assumption].
    + destruct (IH Hk Hvs) as [IHk IHv].
      split; [cbn; now rewrite Hk', IHk | constructor; assumption].
Qed.

Lemma encodable_VStr (s : string) : encodable (VStr s).
Proof. unfold encodable. cbn. eauto. Qed.

Lemma encodable_VInt (z : Z) : encodable (VInt z).
Proof. unfold encodable. cbn. eauto. Qed.

Lemma encodable_VBool (b : bool) : encodable (VBool b).
Proof. unfold encodable. destruct b; cbn; eauto. Qed.

Lemma encodable_dict_type (t : string) : encodable_dict [(KStr "type", VStr t)].
Proof. split; [reflexivity | repeat constructor; apply encodable_VStr]. Qed.

Lemma set_description_encodable (d : option string) (result : dict) :
  encodable_dict result -> encodable_dict (set_description d result).
Proof.
  intros H. unfold set_description. destruct d as [s |]; [| exact H].
  destruct (py_truthy (VStr s)); [| exact H].
  apply encodable_dict_set; [exact H | apply encodable_VStr].
Qed.

Lemma convert_feature_encodable (f : Feature) (doc : dict) :
  convert_feature_to_result_document f = Ok doc ->
  (feature_name f = "regex" -> forall m, feature_matches f = Some m -> encodable m) ->
  encodable_dict doc.
Proof.
  unfold convert_feature_to_result_document. intros E Hm.
  assert (Hbase : encodable_dict
                    (set_description (feature_description f)
                       (dict_set (KStr (feature_name f)) (VStr (feature_value_str f))
                          [(KStr "type", VStr (feature_name f))]))).
  { apply set_description_encodable. apply encodable_dict_set;
      [apply encodable_dict_type | apply encodable_VStr]. }
  destruct (String.eqb (feature_name f) "regex") eqn:Hregex.
  - apply String.eqb_eq in Hregex.
    destruct (feature_matches f) as [m |] eqn:Hmatches; [| discriminate].
    injection E as <-. apply encodable_dict_set; [exact Hbase |].
    now apply (Hm Hregex).
  - now injection E as <-.
Qed.

Lemma convert_statement_encodable (s : Statement) (doc : dict) :
  convert_statement_to_result_document s = Ok doc ->
  (forall f m, In f (node_features (NStatement s)) ->
               feature_name f = "regex" -> feature_matches f = Some m -> encodable m) ->
  encodable_dict doc.
Proof.
  unfold convert_statement_to_result_document. intros E Hm.
  assert (Hbase : forall t, encodable_dict
                    (set_description (statement_description s) [(KStr "type", VStr t)]))
    by (intros t; apply set_description_encodable, encodable_dict_type).
  destruct s as [d | d | d | count d | child min max d | scope d]; simpl in E.
  - injection E as <-. apply Hbase.
  - injection E as <-. apply Hbase.
  - injection E as <-. apply Hbase.
  - destruct (Z.eqb count 0); cbn [bind] in E; injection E as <-;
      (apply encodable_dict_set; [apply Hbase |]);
      [apply encodable_VStr | apply encodable_VInt].
  - apply bind_Ok_inv in E as (child_doc & Hchild & E). injection E as <-.
    repeat (apply encodable_dict_set);
      [apply Hbase | apply encodable_VInt | apply encodable_VInt |].
    apply encodable_dict_VDict. apply (convert_feature_encodable child _ Hchild).
    intros Hregex m Hmatches. apply (Hm child m); [now left | assumption ..].
  - injection E as <-. apply encodable_dict_set; [apply Hbase | apply encodable_VStr].
Qed.

(** ** Where the nodes of a document come from *)

Lemma dict_get_In {K V : Type} `{KeyEq K} (k : K) (v : V) (d : pydict K V) :
  dict_get k d = Some v -> In (k, v) d.
Proof.
  induction d as [| [k' v'] d IH]; simpl; [discriminate |].
  destruct (keq k k') eqn:E.
  - apply keq_spec in E. subst. intros E. injection E as ->. now left.
  - intros E'. right. now apply IH.
Qed.

Lemma dict_set_In {K V : Type} `{KeyEq K} (p : K * V) (k : K) (v : V) (d : pydict K V) :
  In p (dict_set k v d) -> p = (k, v) \/ In p d.
Proof.
  induction d as [| [k' v'] d IH]; simpl.
  - intros [<- | []]. now left.
  - destruct (keq k k') eqn:E.
    + apply keq_spec in E. subst. intros [<- | Hin]; [now left | right; now right].
    + intros [<- | Hin]; [right; now left |].
      destruct (IH Hin); [now left | right; now right].
Qed.

Lemma dict_of_pairs_In {K V : Type} `{KeyEq K} (p : K * V) (l : list (K * V)) :
  In p (dict_of_pairs l) -> In p l.
Proof.
  unfold dict_of_pairs.
  assert (G : forall acc,
            In p (fold_left (fun d q => dict_set (fst q) (snd q) d) l acc) ->
            In p l \/ In p acc).
  { induction l as [| q l IH]; intros acc Hin; simpl in *; [now right |].
    destruct (IH _ Hin) as [Hl | Hacc]; [left; now right |].
    apply dict_set_In in Hacc as [-> | Hacc]; [| now right].
    left. left. now destruct q. }
  intros Hin. destruct (G [] Hin) as [Hl | []]. exact Hl.
Qed.

Lemma splice_at_Forall_src recur (rule_matches : pydict Z Result) locations spliced :
  mapM (splice_at recur rule_matches) locations = Ok spliced ->
  List.Forall (fun c => exists a m, dict_get a rule_matches = Some m /\ recur m = Ok c)
    spliced.
Proof.
  intros E. apply mapM_Ok_Forall2 in E.
  induction E as [| a c l l' Hac _ IH]; constructor; [| exact IH].
  unfold splice_at, getitem in Hac.
  destruct (dict_get a rule_matches) as [m |] eqn:Hm; [| discriminate]. eauto.
Qed.

Lemma splice_rule_Forall_src recur (capabilities : Capabilities) locations ns_rules groups :
  mapM (splice_rule recur capabilities locations) ns_rules = Ok groups ->
  List.Forall (fun c => exists t, capability_tree capabilities t /\ recur t = Ok c)
    (concat groups).
Proof.
  intros E. apply mapM_Ok_Forall2 in E.
  induction E as [| rule g l l' Hg _ IH]; simpl; [constructor |].
  apply Forall_app. split; [| exact IH].
  unfold splice_rule in Hg. destruct (dict_mem (rule_name rule) capabilities).
  - unfold getitem in Hg.
    destruct (dict_get (rule_name rule) capabilities) as [matches |] eqn:Hc;
      [| discriminate].
    cbn [bind] in Hg. apply splice_at_Forall_src in Hg.
    eapply List.Forall_impl; [| exact Hg].
    intros c (a & m & Hm & Hr). exists m. split; [| exact Hr].
    now exists (rule_name rule), matches, a.
  - injection Hg as <-. constructor.
Qed.

Lemma splice_references_src recur h rules_ capabilities success node children
    locations doc :
  splice_references recur h rules_ capabilities
    (located_doc success node children locations) = Ok doc ->
  exists node' spliced,
    doc = located_doc success node' (children ++ (VDict <$> spliced)) locations
    /\ List.Forall (fun c => exists t, capability_tree capabilities t /\ recur t = Ok c)
         spliced
    /\ (node' = node
        \/ exists scope l,
             node' = subscope_node scope
             /\ dict_get (KStr "scope") (deref h l) = Some scope).
Proof.
  unfold splice_references. intros E.
  apply bind_Ok_inv in E as (name & _ & E).
  destruct name as [| | | name | | | |]; try discriminate.
  destruct (dict_mem name (rules rules_)).
  - apply bind_Ok_inv in E as (rule_name & _ & E).
    destruct rule_name as [| | | rule_name | | | |]; try discriminate.
    apply bind_Ok_inv in E as (rule & _ & E).
    apply bind_Ok_inv in E as (matches & Hcap & E).
    unfold getitem in Hcap.
    destruct (dict_get rule_name capabilities) as [matches' |] eqn:Hc; [| discriminate].
    injection Hcap as ->.
    cbv zeta in E.
    apply bind_Ok_inv in E as (doc1 & Hdoc1 & E).
    assert (Hsrc : forall spliced,
              mapM (splice_at recur (dict_of_pairs matches)) locations = Ok spliced ->
              List.Forall (fun c => exists t, capability_tree capabilities t
                                               /\ recur t = Ok c) spliced).
    { intros spliced Hspl. apply splice_at_Forall_src in Hspl.
      eapply List.Forall_impl; [| exact Hspl].
      intros c (a & m & Hm & Hr). exists m. split; [| exact Hr].
      now exists rule_name, matches, a. }
    destruct (py_truthy _).
    + unfold getitem in Hdoc1.
      destruct (dict_get (KStr "scope") (deref h (rule_meta rule))) as [scope |] eqn:Hscope;
        [| discriminate].
      cbn [bind] in Hdoc1. injection Hdoc1 as <-.
      change (splice_locations recur (dict_of_pairs matches)
                (located_doc success (subscope_node scope) children locations) = Ok doc) in E.
      rewrite splice_locations_located in E.
      apply bind_Ok_inv in E as (spliced & Hspl & E). injection E as <-.
      exists (subscope_node scope), spliced. split; [reflexivity |].
      split; [now apply Hsrc | right; eauto].
    + injection Hdoc1 as <-. rewrite splice_locations_located in E.
      apply bind_Ok_inv in E as (spliced & Hspl & E). injection E as <-.
      exists node, spliced. split; [reflexivity |].
      split; [now apply Hsrc | now left].
  - apply bind_Ok_inv in E as (ns_name & _ & E).
    destruct ns_name as [| | | ns_name | | | |]; try discriminate.
    apply bind_Ok_inv in E as (ns_rules & _ & E).
    rewrite splice_namespace_fold in E.
    apply bind_Ok_inv in E as (groups & Hgroups & E). injection E as <-.
    exists node, (concat groups). split; [reflexivity |].
    split; [now apply splice_rule_Forall_src in Hgroups | now left].
Qed.

(** The children of a document are the documents of the children of the
    result, or of trees recorded in the capabilities; its node is the
    converted node of the result, or the node of a subscope rule with a scope
    read in the store. *)
Lemma convert_shape_src fuel h rules_ capabilities result doc :
  convert_match_to_result_document (S fuel) h rules_ capabilities result = Ok doc ->
  exists node children,
    doc = (if locations_expected result
           then located_doc (result_success result) node children (result_locations result)
           else node_doc (result_success result) node children)
    /\ List.Forall
         (fun c => exists c' r',
            c = VDict c'
            /\ convert_match_to_result_document fuel h rules_ capabilities r' = Ok c'
            /\ (In r' (result_children result) \/ capability_tree capabilities r'))
         children
    /\ ((exists d, convert_node_to_result_document (result_statement result) = Ok d
                   /\ node = VDict d)
        \/ exists scope l,
             node = subscope_node scope
             /\ dict_get (KStr "scope") (deref h l) = Some scope).
Proof.
  rewrite convert_match_split. cbv zeta. intros E.
  apply bind_Ok_inv in E as (node & Hnode & E).
  apply bind_Ok_inv in E as (kids & Hkids & E).
  assert (Hconv : List.Forall
            (fun c => exists c' r',
               c = VDict c'
               /\ convert_match_to_result_document fuel h rules_ capabilities r' = Ok c'
               /\ (In r' (result_children result) \/ capability_tree capabilities r'))
            (VDict <$> kids)).
  { apply mapM_Ok_Forall2 in Hkids.
    assert (G : forall l l',
              Forall2 (fun a b => convert_match_to_result_document fuel h rules_
                                    capabilities a = Ok b) l l' ->
              (forall r, In r l -> In r (result_children result)) ->
              List.Forall
                (fun c => exists c' r',
                   c = VDict c'
                   /\ convert_match_to_result_document fuel h rules_ capabilities r' = Ok c'
                   /\ (In r' (result_children result)
                       \/ capability_tree capabilities r'))
                (VDict <$> l')).
    { induction 1 as [| r c l l' Hrc _ IH]; intros Hsub; [constructor |].
      rewrite fmap_cons. constructor.
      - exists c, r. split; [reflexivity |]. split; [exact Hrc |].
        left. apply Hsub. now left.
      - apply IH. intros r0 Hr0. apply Hsub. now right. }
    now apply (G _ _ Hkids). }
  rewrite attach_locations_doc in E.
  apply bind_Ok_inv in E as (is_match & Hm & E).
  destruct is_match.
  - destruct (locations_expected result) eqn:Hexp.
    + apply splice_references_src in E as (node' & spliced & -> & Hspl & Hn').
      exists node', ((VDict <$> kids) ++ (VDict <$> spliced)).
      split; [reflexivity |]. split.
      * apply Forall_app. split; [exact Hconv |].
        clear -Hspl. induction Hspl as [| c l (t & Ht & Hc) _ IH];
          [constructor | rewrite fmap_cons; constructor; [| exact IH]].
        exists c, t. auto.
      * destruct Hn' as [-> | Hscope]; [left; eauto | right; exact Hscope].
    + exfalso.
      pose proof (is_successful_match_refers result node (VDict <$> kids) Hnode) as Href.
      rewrite attach_locations_doc, Hexp, Hm in Href. injection Href as Href.
      unfold refers, locations_expected in *.
      destruct (result_statement result) as [s | f | tag]; try discriminate.
      rewrite Hexp in Href. now rewrite andb_false_r in Href.
  - injection E as <-. exists (VDict node), (VDict <$> kids).
    split; [reflexivity |]. split; [exact Hconv | left; eauto].
Qed.

(** ** The documents of the converter can be encoded *)

Lemma matches_encodable_child (r child : Result) :
  matches_encodable r -> In child (result_children r) -> matches_encodable child.
Proof.
  intros Hr Hin r' f m Hnode. apply Hr. now apply (result_node_child r child r').
Qed.

Lemma convert_node_encodable (node : Node) (doc : dict) :
  convert_node_to_result_document node = Ok doc ->
  (forall f m, In f (node_features node) ->
               feature_name f = "regex" -> feature_matches f = Some m -> encodable m) ->
  encodable_dict doc.
Proof.
  unfold convert_node_to_result_document. intros E Hm.
  destruct node as [s | f | tag]; [| | discriminate].
  - apply bind_Ok_inv in E as (d & Hd & E). injection E as <-.
    apply (encodable_dict_set "statement" _ [(KStr "type", VStr "statement")]);
      [apply encodable_dict_type |].
    apply encodable_dict_VDict. now apply (convert_statement_encodable s).
  - apply bind_Ok_inv in E as (d & Hd & E). injection E as <-.
    apply (encodable_dict_set "feature" _ [(KStr "type", VStr "feature")]);
      [apply encodable_dict_type |].
    apply encodable_dict_VDict. apply (convert_feature_encodable f _ Hd).
    intros Hregex m Hmatches. apply (Hm f m); [now left | assumption ..].
Qed.

Lemma subscope_node_encodable (scope : PyVal) :
  encodable scope -> encodable (subscope_node scope).
Proof.
  intros Hs. unfold subscope_node. apply encodable_dict_VDict.
  apply (encodable_dict_set "statement" _ [(KStr "type", VStr "statement")]);
    [apply encodable_dict_type |].
  apply encodable_dict_VDict.
  apply (encodable_dict_set "subscope" _ [(KStr "type", VStr "subscope")]);
    [apply encodable_dict_type | exact Hs].
Qed.

Lemma node_doc_encodable success node children :
  encodable node -> List.Forall encodable children ->
  encodable_dict (node_doc success node children).
Proof.
  intros Hn Hc. split; [reflexivity |].
  repeat constructor; cbn [snd];
    [apply encodable_VBool | exact Hn | now apply encodable_VList].
Qed.

Lemma located_doc_encodable success node children locations :
  encodable node -> List.Forall encodable children ->
  encodable_dict (located_doc success node children locations).
Proof.
  intros Hn Hc. split; [reflexivity |].
  repeat constructor; cbn [snd];
    [apply encodable_VBool | exact Hn | now apply encodable_VList
    | apply encodable_VSet_int].
Qed.

Lemma store_scope_encodable (h : heap) (l : loc) (scope : PyVal) :
  store_encodable h ->
  dict_get (KStr "scope") (deref h l) = Some scope -> encodable scope.
Proof.
  intros Hh Hs. unfold deref in Hs.
  destruct (h !! l) as [d |] eqn:Hd; [| discriminate].
  cbn [default from_option] in Hs. unfold id in Hs.
  destruct (Hh l d Hd) as [_ Hv]. apply dict_get_In in Hs.
  rewrite List.Forall_forall in Hv. exact (Hv _ Hs).
Qed.

Lemma converted_encodable (h : heap) rules_ capabilities :
  store_encodable h ->
  (forall t, capability_tree capabilities t -> matches_encodable t) ->
  forall fuel result doc,
    matches_encodable result ->
    convert_match_to_result_document fuel h rules_ capabilities result = Ok doc ->
    encodable_dict doc.
Proof.
  intros Hh Hcaps. induction fuel as [| fuel IH]; intros result doc Hres E;
    [discriminate |].
  apply convert_shape_src in E as (node & children & -> & Hkids & Hnode).
  assert (Hn : encodable node).
  { destruct Hnode as [(d & Hd & ->) | (scope & l & -> & Hs)].
    - apply encodable_dict_VDict. apply (convert_node_encodable _ _ Hd).
      intros f m Hf. apply (Hres result f m); [apply result_node_self | exact Hf].
    - apply subscope_node_encodable. now apply (store_scope_encodable h l). }
  assert (Hc : List.Forall encodable children).
  { eapply List.Forall_impl; [| exact Hkids].
    intros c (c' & r' & -> & Hr' & Hsrc). apply encodable_dict_VDict.
    apply (IH r' c'); [| exact Hr'].
    destruct Hsrc as [Hin | Ht];
      [now apply (matches_encodable_child result) | now apply Hcaps]. }
  destruct (locations_expected result);
    [now apply located_doc_encodable | now apply node_doc_encodable].
Qed.

(** X20: the splicer builds nothing the encoder refuses.  When the values
    the inputs bring along can be encoded, that is the [matches] of the regex
    features of the trees and the values of the rule metadata, whose keys are
    strings, the document of a result is a mapping with string keys that the
    encoder turns into text. *)
Theorem converted_document_encodable (h : heap) rules_ capabilities fuel result doc :
  store_encodable h ->
  (forall t, capability_tree capabilities t -> matches_encodable t) ->
  matches_encodable result ->
  convert_match_to_result_document fuel h rules_ capabilities result = Ok doc ->
  forallb is_str (List.map fst doc) = true /\ exists text, dumps (VDict doc) = Ok text.
Proof.
  intros Hh Hcaps Hres E.
  pose proof (converted_encodable h rules_ capabilities Hh Hcaps fuel result doc Hres E)
    as Hdoc.
  split; [exact (proj1 Hdoc) | exact (encodable_dict_VDict doc Hdoc)].
Qed.

Lemma converted_document_encodable_witness :
  let result := mkResult true (NFeature Cases.regex_feature) [] [1%Z] in
  (store_encodable ∅
   /\ (forall t, capability_tree [] t -> matches_encodable t)
   /\ matches_encodable result
   /\ convert_match_to_result_document 1 ∅ {| rules := []; rules_by_namespace := [] |} []
        result
      = Ok (located_doc true
              (VDict [(KStr "type", VStr "feature"); (KStr "feature", VDict Cases.regex_doc)])
              [] [1%Z]))
  /\ exists text,
       dumps (VDict (located_doc true
                       (VDict [(KStr "type", VStr "feature");
                               (KStr "feature", VDict Cases.regex_doc)])
                       [] [1%Z])) = Ok text.
Proof.
  intros result.
  assert (Hstore : store_encodable ∅).
  { intros l d Hd. rewrite lookup_empty in Hd. discriminate. }
  assert (Hcaps : forall t, capability_tree [] t -> matches_encodable t).
  { intros t (name & matches & address & Hc & _). discriminate. }
  assert (Hres : matches_encodable result).
  { intros r f m Hnode Hf _ Hm.
    inversion Hnode as [| ? child ? Hin _]; subst; [| destruct Hin].
    destruct Hf as [<- | []]. injection Hm as <-. eexists. reflexivity. }
  split; [split; [exact Hstore | split; [exact Hcaps | split; [exact Hres | reflexivity]]] |].
  exact (proj2 (converted_document_encodable ∅ {| rules := []; rules_by_namespace := [] |}
                  [] 1 result _ Hstore Hcaps Hres eq_refl)).
Defined.

Lemma parse_canonical_attack_encodable parse_parts_id (attack : PyVal) (record : dict) :
  parse_canonical_attack parse_parts_id attack = Ok record -> encodable_dict record.
Proof.
  unfold parse_canonical_attack. intros E.
  apply bind_Ok_inv in E as (parts_id & _ & E).
  apply bind_Ok_inv in E as (tactic & _ & E).
  apply bind_Ok_inv in E as (technique & _ & E).
  apply bind_Ok_inv in E as (subtechnique & _ & E). injection E as <-.
  split; [reflexivity |].
  repeat constructor; cbn [snd]; try apply encodable_VStr.
  apply encodable_VList. rewrite List.Forall_forall. intros v Hv.
  apply in_map_iff in Hv as (s & <- & _). apply encodable_VStr.
Qed.

Lemma parse_canonical_mbc_encodable parse_parts_id (mbc : PyVal) (record : dict) :
  parse_canonical_mbc parse_parts_id mbc = Ok record -> encodable_dict record.
Proof.
  unfold parse_canonical_mbc. intros E.
  apply bind_Ok_inv in E as (parts_id & _ & E).
  apply bind_Ok_inv in E as (objective & _ & E).
  apply bind_Ok_inv in E as (behavior & _ & E).
  apply bind_Ok_inv in E as (method & _ & E). injection E as <-.
  split; [reflexivity |].
  repeat constructor; cbn [snd]; try apply encodable_VStr.
  apply encodable_VList. rewrite List.Forall_forall. intros v Hv.
  apply in_map_iff in Hv as (s & <- & _). apply encodable_VStr.
Qed.

Lemma parsed_records_encodable {A : Type} (f : A -> Res dict) (l : list A)
    (records : list dict) :
  (forall a record, f a = Ok record -> encodable_dict record) ->
  mapM f l = Ok records ->
  encodable (VList (VDict <$> records)).
Proof.
  intros Hf E. apply encodable_VList. apply mapM_Ok_Forall2 in E.
  induction E as [| a r l l' Har _ IH]; [constructor |].
  rewrite fmap_cons. constructor; [| exact IH].
  apply encodable_dict_VDict. exact (Hf a r Har).
Qed.

Lemma deref_encodable (h : heap) (l : loc) :
  store_encodable h -> encodable_dict (deref h l).
Proof.
  intros Hh. unfold deref. destruct (h !! l) as [d |] eqn:Hd.
  - exact (Hh l d Hd).
  - split; [reflexivity | constructor].
Qed.

Lemma convert_meta_store_encodable parse_parts_id (h : heap) (meta : loc) (h' : heap)
    (meta' : loc) :
  store_encodable h ->
  convert_meta_to_result_document parse_parts_id h meta = Ok (h', meta') ->
  store_encodable h'.
Proof.
  intros Hh E.
  apply convert_meta_inv in E as (_ & ra & a & rm & m & _ & Ha & _ & Hm & ->).
  intros l d Hd. destruct (decide (meta = l)) as [<- | N].
  - rewrite lookup_insert_eq in Hd. injection Hd as <-.
    apply encodable_dict_set; [apply encodable_dict_set |].
    + now apply deref_encodable.
    + apply (parsed_records_encodable _ _ _ (parse_canonical_attack_encodable _) Ha).
    + apply (parsed_records_encodable _ _ _ (parse_canonical_mbc_encodable _) Hm).
  - rewrite lookup_insert_ne in Hd by exact N. exact (Hh l d Hd).
Qed.

Lemma capability_tree_In (capabilities : Capabilities) (t : Result) :
  capability_tree capabilities t ->
  exists name matches address, In (name, matches) capabilities /\ In (address, t) matches.
Proof.
  intros (name & matches & address & Hc & Ht).
  exists name, matches, address. split; [now apply dict_get_In |].
  apply dict_of_pairs_In. now apply dict_get_In.
Qed.

Lemma convert_rule_encodable parse_parts_id fuel rules_ capabilities st item st' :
  (forall name matches address t,
     In (name, matches) capabilities -> In (address, t) matches -> matches_encodable t) ->
  In item capabilities ->
  store_encodable (snd st)
  /\ (forall name e, In (name, e) (fst st) ->
                     List.Forall (fun p => encodable_dict (snd p)) (entry_matches e)) ->
  convert_rule parse_parts_id fuel rules_ capabilities st item = Ok st' ->
  store_encodable (snd st')
  /\ (forall name e, In (name, e) (fst st') ->
                     List.Forall (fun p => encodable_dict (snd p)) (entry_matches e)).
Proof.
  intros Hcaps Hin [Hstore Hent] E. unfold convert_rule in E.
  destruct st as [doc_rules_ h]. destruct item as [name0 matches0]. cbn [fst snd] in *.
  apply bind_Ok_inv in E as (rule & _ & E).
  destruct (is_subscope_rule h rule).
  - injection E as <-. split; assumption.
  - apply bind_Ok_inv in E as ([h1 m1] & Hmeta & E). cbn [fst snd] in E.
    apply bind_Ok_inv in E as (converted & Hconv & E). injection E as <-. cbn [fst snd].
    pose proof (convert_meta_store_encodable _ _ _ _ _ Hstore Hmeta) as Hstore1.
    split; [exact Hstore1 |].
    intros name e He. apply dict_set_In in He as [He | He]; [| exact (Hent name e He)].
    injection He as _ ->. cbn [entry_matches].
    rewrite List.Forall_forall. intros p Hp. apply dict_of_pairs_In in Hp.
    apply mapM_Ok_Forall2 in Hconv.
    assert (G : exists am, In am matches0
                /\ convert_match_to_result_document fuel h1 rules_ capabilities (snd am)
                   = Ok (snd p)).
    { clear -Hconv Hp. induction Hconv as [| am ad l l' Had _ IH]; [destruct Hp |].
      cbn beta in Had. apply bind_Ok_inv in Had as (d & Hd & Had). injection Had as <-.
      destruct Hp as [<- | Hp].
      - exists am. split; [now left | exact Hd].
      - destruct (IH Hp) as (am' & Hin' & Hc'). exists am'. split; [now right | exact Hc']. }
    destruct G as ([address t] & Hin' & Hc). cbn [snd] in Hc.
    apply (converted_encodable h1 rules_ capabilities Hstore1) with (fuel := fuel)
                                                                     (result := t).
    + intros t' Ht'. apply capability_tree_In in Ht' as (n & ms & a & H1 & H2).
      exact (Hcaps n ms a t' H1 H2).
    + exact (Hcaps name0 matches0 address t Hin Hin').
    + exact Hc.
Qed.

Lemma str_keys_map {A : Type} (f : A -> PyVal) (l : list (string * A)) :
  homogeneous (List.map fst (List.map (fun p => (KStr (fst p), f (snd p))) l)) = true.
Proof.
  unfold homogeneous.
  assert (E : forallb is_str
                (List.map fst (List.map (fun p => (KStr (fst p), f (snd p))) l)) = true)
    by (induction l as [| p l IH]; [reflexivity | exact IH]).
  rewrite E. apply orb_true_r.
Qed.

Lemma int_keys_map {A : Type} (f : A -> PyVal) (l : list (Z * A)) :
  homogeneous (List.map fst (List.map (fun p => (KInt (fst p), f (snd p))) l)) = true.
Proof.
  unfold homogeneous.
  assert (E : forallb is_int
                (List.map fst (List.map (fun p => (KInt (fst p), f (snd p))) l)) = true)
    by (induction l as [| p l IH]; [reflexivity | exact IH]).
  now rewrite E.
Qed.

(** X21: [render_json] does not fail in the encoder on account of what the
    converter builds.  When the global metadata, the rule metadata (string
    keys) and the [matches] of the regex features can be encoded, every run
    in which the assembler returns its document gives the text of that
    document. *)
Theorem render_json_returns parse_parts_id fuel (h : heap) meta rules_ capabilities doc h' :
  encodable meta ->
  store_encodable h ->
  (forall name matches address t,
     In (name, matches) capabilities -> In (address, t) matches -> matches_encodable t) ->
  convert_capabilities_to_result_document parse_parts_id fuel h meta rules_ capabilities
    = Ok (doc, h') ->
  exists text, render_json parse_parts_id fuel h meta rules_ capabilities = Ok (text, h').
Proof.
  intros Hmeta Hstore Hcaps E. unfold render_json. rewrite E. cbn [bind fst snd].
  unfold convert_capabilities_to_result_document in E.
  apply bind_Ok_inv in E as (st & Hfold & E). injection E as <- <-.
  assert (Hinv : store_encodable (snd st)
                 /\ (forall name e, In (name, e) (fst st) ->
                       List.Forall (fun p => encodable_dict (snd p)) (entry_matches e))).
  { revert Hfold.
    apply (foldM_invariant _
             (fun st => store_encodable (snd st)
                        /\ (forall name e, In (name, e) (fst st) ->
                              List.Forall (fun p => encodable_dict (snd p))
                                (entry_matches e)))).
    - intros s a s' Hin Hs Hstep.
      exact (convert_rule_encodable _ _ _ _ _ _ _ Hcaps Hin Hs Hstep).
    - split; [exact Hstore | intros name e []]. }
  destruct Hinv as [Hstore' Hent].
  assert (Hdoc : encodable (document_value (snd st) {| doc_meta := meta; doc_rules := fst st |})).
  { unfold document_value. cbn [doc_meta doc_rules].
    apply encodable_VDict; [reflexivity |].
    repeat constructor; cbn [snd]; [exact Hmeta |].
    apply encodable_VDict; [apply str_keys_map |].
    rewrite List.Forall_forall. intros q Hq.
    apply in_map_iff in Hq as ([name e] & <- & Hin). cbn [fst snd].
    unfold entry_value. apply encodable_VDict; [reflexivity |].
    repeat constructor; cbn [snd].
    - apply encodable_dict_VDict. now apply deref_encodable.
    - apply encodable_VStr.
    - apply encodable_VDict; [apply int_keys_map |].
      rewrite List.Forall_forall. intros q Hq.
      apply in_map_iff in Hq as ([address d] & <- & Hin'). cbn [fst snd].
      apply encodable_dict_VDict.
      pose proof (Hent name e Hin) as F. rewrite List.Forall_forall in F.
      exact (F _ Hin'). }
  destruct Hdoc as [text Htext]. rewrite Htext. cbn [bind]. eauto.
Qed.

Lemma render_json_returns_witness :
  (encodable Example.global_meta
   /\ store_encodable Cases.regex_store
   /\ (forall name matches address t,
         In (name, matches) Cases.regex_capabilities -> In (address, t) matches ->
         matches_encodable t)
   /\ convert_capabilities_to_result_document spec_parse_parts_id 2 Cases.regex_store
        Example.global_meta Cases.regex_rules Cases.regex_capabilities
      = Ok (Cases.regex_document, Cases.regex_store_after))
  /\ exists text,
       render_json spec_parse_parts_id 2 Cases.regex_store Example.global_meta
         Cases.regex_rules Cases.regex_capabilities = Ok (text, Cases.regex_store_after).
Proof.
  assert (Hmeta : encodable Example.global_meta) by (eexists; reflexivity).
  assert (Hstore : store_encodable Cases.regex_store).
  { intros l d Hd. unfold Cases.regex_store in Hd.
    apply lookup_singleton_Some in Hd as [_ <-].
    split; [reflexivity | repeat constructor; eexists; reflexivity]. }
  assert (Hcaps : forall name matches address t,
            In (name, matches) Cases.regex_capabilities -> In (address, t) matches ->
            matches_encodable t).
  { intros name matches address t [E | []] Hin. injection E as <- <-.
    destruct Hin as [E | []]. injection E as <- <-.
    intros r f m Hnode Hf _ Hm.
    inversion Hnode as [| ? child ? Hin _]; subst; [| destruct Hin].
    destruct Hf as [<- | []]. injection Hm as <-. eexists. reflexivity. }
  assert (Hrun : convert_capabilities_to_result_document spec_parse_parts_id 2
                   Cases.regex_store Example.global_meta Cases.regex_rules
                   Cases.regex_capabilities
                 = Ok (Cases.regex_document, Cases.regex_store_after))
    by (vm_compute; reflexivity).
  split; [split; [exact Hmeta | split; [exact Hstore | split; [exact Hcaps | exact Hrun]]] |].
  exact (render_json_returns spec_parse_parts_id 2 Cases.regex_store Example.global_meta
           Cases.regex_rules Cases.regex_capabilities Cases.regex_document
           Cases.regex_store_after Hmeta Hstore Hcaps Hrun).
Defined.

(** ** The documents of the converter are well formed *)

Lemma well_formed_VDict (d : dict) :
  List.NoDup (List.map fst d) ->
  List.Forall (fun p => well_formed (snd p)) d ->
  well_formed (VDict d).
Proof. intros ND F. apply wf_dict; [now apply NoDup_ListNoDup | exact F]. Qed.

Lemma well_formed_VDict_inv (d : dict) :
  well_formed (VDict d) ->
  List.NoDup (List.map fst d) /\ List.Forall (fun p => well_formed (snd p)) d.
Proof.
  intros H. inversion H as [| | | | | ? ND F | |]; subst.
  split; [now apply NoDup_ListNoDup | exact F].
Qed.

Lemma dict_set_Forall_snd {K V : Type} `{KeyEq K} (P : V -> Prop) (k : K) (v : V)
    (d : pydict K V) :
  List.Forall (fun p => P (snd p)) d -> P v ->
  List.Forall (fun p => P (snd p)) (dict_set k v d).
Proof.
  intros F Hv. induction F as [| [k' v'] d Hp F IH]; cbn [dict_set].
  - repeat constructor. exact Hv.
  - destruct (keq k k'); constructor; cbn [snd] in *; assumption.
Qed.

Lemma well_formed_dict_set (k : Key) (v : PyVal) (d : dict) :
  well_formed (VDict d) -> well_formed v -> well_formed (VDict (dict_set k v d)).
Proof.
  intros Hd Hv. apply well_formed_VDict_inv in Hd as [ND F].
  apply well_formed_VDict; [now apply dict_set_NoDup | now apply dict_set_Forall_snd].
Qed.

Lemma well_formed_type (t : string) : well_formed (VDict [(KStr "type", VStr t)]).
Proof.
  apply well_formed_VDict; [repeat constructor; simpl; tauto |].
  repeat constructor.
Qed.

Lemma set_description_well_formed (d : option string) (result : dict) :
  well_formed (VDict result) -> well_formed (VDict (set_description d result)).
Proof.
  intros H. unfold set_description. destruct d as [s |]; [| exact H].
  destruct (py_truthy (VStr s)); [| exact H].
  apply well_formed_dict_set; [exact H | constructor].
Qed.

Lemma convert_feature_well_formed (f : Feature) (doc : dict) :
  convert_feature_to_result_document f = Ok doc ->
  (feature_name f = "regex" -> forall m, feature_matches f = Some m -> well_formed m) ->
  well_formed (VDict doc).
Proof.
  unfold convert_feature_to_result_document. intros E Hm.
  assert (Hbase : well_formed
                    (VDict (set_description (feature_description f)
                              (dict_set (KStr (feature_name f)) (VStr (feature_value_str f))
                                 [(KStr "type", VStr (feature_name f))])))).
  { apply set_description_well_formed. apply well_formed_dict_set;
      [apply well_formed_type | constructor]. }
  destruct (String.eqb (feature_name f) "regex") eqn:Hregex.
  - apply String.eqb_eq in Hregex.
    destruct (feature_matches f) as [m |] eqn:Hmatches; [| discriminate].
    injection E as <-. apply well_formed_dict_set; [exact Hbase |].
    now apply (Hm Hregex).
  - now injection E as <-.
Qed.

Lemma convert_statement_well_formed (s : Statement) (doc : dict) :
  convert_statement_to_result_document s = Ok doc ->
  (forall f m, In f (node_features (NStatement s)) ->
               feature_name f = "regex" -> feature_matches f = Some m -> well_formed m) ->
  well_formed (VDict doc).
Proof.
  unfold convert_statement_to_result_document. intros E Hm.
  assert (Hbase : forall t, well_formed
                    (VDict (set_description (statement_description s)
                              [(KStr "type", VStr t)])))
    by (intros t; apply set_description_well_formed, well_formed_type).
  destruct s as [d | d | d | count d | child min max d | scope d]; simpl in E.
  - injection E as <-. apply Hbase.
  - injection E as <-. apply Hbase.
  - injection E as <-. apply Hbase.
  - destruct (Z.eqb count 0); cbn [bind] in E; injection E as <-;
      (apply well_formed_dict_set; [apply Hbase | constructor]).
  - apply bind_Ok_inv in E as (child_doc & Hchild & E). injection E as <-.
    repeat (apply well_formed_dict_set); [apply Hbase | constructor | constructor |].
    apply (convert_feature_well_formed child _ Hchild).
    intros Hregex m Hmatches. apply (Hm child m); [now left | assumption ..].
  - injection E as <-. apply well_formed_dict_set; [apply Hbase | constructor].
Qed.

Lemma convert_node_well_formed (node : Node) (doc : dict) :
  convert_node_to_result_document node = Ok doc ->
  (forall f m, In f (node_features node) ->
               feature_name f = "regex" -> feature_matches f = Some m -> well_formed m) ->
  well_formed (VDict doc).
Proof.
  unfold convert_node_to_result_document. intros E Hm.
  destruct node as [s | f | tag]; [| | discriminate].
  - apply bind_Ok_inv in E as (d & Hd & E). injection E as <-.
    apply (well_formed_dict_set (KStr "statement") _ [(KStr "type", VStr "statement")]);
      [apply well_formed_type |].
    now apply (convert_statement_well_formed s).
  - apply bind_Ok_inv in E as (d & Hd & E). injection E as <-.
    apply (well_formed_dict_set (KStr "feature") _ [(KStr "type", VStr "feature")]);
      [apply well_formed_type |].
    apply (convert_feature_well_formed f _ Hd).
    intros Hregex m Hmatches. apply (Hm f m); [now left | assumption ..].
Qed.

Lemma subscope_node_well_formed (scope : PyVal) :
  well_formed scope -> well_formed (subscope_node scope).
Proof.
  intros Hs. unfold subscope_node.
  apply (well_formed_dict_set (KStr "statement") _ [(KStr "type", VStr "statement")]);
    [apply well_formed_type |].
  apply (well_formed_dict_set (KStr "subscope") _ [(KStr "type", VStr "subscope")]);
    [apply well_formed_type | exact Hs].
Qed.

Lemma NoDup_map_injective {A B : Type} (f : A -> B) (l : list A) :
  (forall a b, f a = f b -> a = b) -> List.NoDup l -> List.NoDup (List.map f l).
Proof.
  intros Hf. induction 1 as [| a l Hnin _ IH]; simpl; constructor; [| exact IH].
  intros Hin. apply in_map_iff in Hin as (b & E & Hb). apply Hf in E. now subst.
Qed.

Lemma well_formed_locations (locations : list Z) :
  List.NoDup locations -> well_formed (VSet (KInt <$> locations)).
Proof.
  intros ND. apply wf_set. apply NoDup_ListNoDup.
  change (KInt <$> locations) with (List.map KInt locations).
  apply NoDup_map_injective; [| exact ND]. intros a b E. now injection E.
Qed.

Lemma node_doc_well_formed success node children :
  well_formed node -> List.Forall well_formed children ->
  well_formed (VDict (node_doc success node children)).
Proof.
  intros Hn Hc. apply well_formed_VDict.
  - repeat constructor; simpl; intuition discriminate.
  - repeat (apply List.Forall_cons || apply List.Forall_nil); cbn [snd];
      first [exact Hn | now constructor].
Qed.

Lemma located_doc_well_formed success node children locations :
  well_formed node -> List.Forall well_formed children -> List.NoDup locations ->
  well_formed (VDict (located_doc success node children locations)).
Proof.
  intros Hn Hc ND. apply well_formed_VDict.
  - repeat constructor; simpl; intuition discriminate.
  - repeat (apply List.Forall_cons || apply List.Forall_nil); cbn [snd];
      first [exact Hn | now apply well_formed_locations | now constructor].
Qed.

Lemma tree_well_formed_child (r child : Result) :
  tree_well_formed r -> In child (result_children r) -> tree_well_formed child.
Proof.
  intros Hr Hin r' Hnode. apply Hr. now apply (result_node_child r child r').
Qed.

Lemma store_scope_well_formed (h : heap) (l : loc) (scope : PyVal) :
  store_well_formed h ->
  dict_get (KStr "scope") (deref h l) = Some scope -> well_formed scope.
Proof.
  intros Hh Hs. unfold deref in Hs.
  destruct (h !! l) as [d |] eqn:Hd; [| discriminate].
  cbn [default from_option] in Hs. unfold id in Hs.
  destruct (well_formed_VDict_inv d (Hh l d Hd)) as [_ Hv]. apply dict_get_In in Hs.
  rewrite List.Forall_forall in Hv. exact (Hv _ Hs).
Qed.

Lemma converted_well_formed (h : heap) rules_ capabilities :
  store_well_formed h ->
  (forall t, capability_tree capabilities t -> tree_well_formed t) ->
  forall fuel result doc,
    tree_well_formed result ->
    convert_match_to_result_document fuel h rules_ capabilities result = Ok doc ->
    well_formed (VDict doc).
Proof.
  intros Hh Hcaps. induction fuel as [| fuel IH]; intros result doc Hres E;
    [discriminate |].
  apply convert_shape_src in E as (node & children & -> & Hkids & Hnode).
  destruct (Hres result (result_node_self result)) as [Hlocs Hfeat].
  assert (Hn : well_formed node).
  { destruct Hnode as [(d & Hd & ->) | (scope & l & -> & Hs)].
    - now apply (convert_node_well_formed _ _ Hd).
    - apply subscope_node_well_formed. now apply (store_scope_well_formed h l). }
  assert (Hc : List.Forall well_formed children).
  { eapply List.Forall_impl; [| exact Hkids].
    intros c (c' & r' & -> & Hr' & Hsrc).
    apply (IH r' c'); [| exact Hr'].
    destruct Hsrc as [Hin | Ht];
      [now apply (tree_well_formed_child result) | now apply Hcaps]. }
  destruct (locations_expected result);
    [now apply located_doc_well_formed | now apply node_doc_well_formed].
Qed.

Lemma well_formed_strings (parts : list string) :
  List.Forall well_formed (List.map VStr parts).
Proof.
  rewrite List.Forall_forall. intros v Hv.
  apply in_map_iff in Hv as (s & <- & _). constructor.
Qed.

Lemma parse_canonical_attack_well_formed parse_parts_id (attack : PyVal) (record : dict) :
  parse_canonical_attack parse_parts_id attack = Ok record -> well_formed (VDict record).
Proof.
  unfold parse_canonical_attack. intros E.
  apply bind_Ok_inv in E as (parts_id & _ & E).
  apply bind_Ok_inv in E as (tactic & _ & E).
  apply bind_Ok_inv in E as (technique & _ & E).
  apply bind_Ok_inv in E as (subtechnique & _ & E). injection E as <-.
  apply well_formed_VDict.
  - repeat constructor; simpl; intuition discriminate.
  - repeat (apply List.Forall_cons || apply List.Forall_nil); cbn [snd];
      try (constructor; fail).
    constructor. apply well_formed_strings.
Qed.

Lemma parse_canonical_mbc_well_formed parse_parts_id (mbc : PyVal) (record : dict) :
  parse_canonical_mbc parse_parts_id mbc = Ok record -> well_formed (VDict record).
Proof.
  unfold parse_canonical_mbc. intros E.
  apply bind_Ok_inv in E as (parts_id & _ & E).
  apply bind_Ok_inv in E as (objective & _ & E).
  apply bind_Ok_inv in E as (behavior & _ & E).
  apply bind_Ok_inv in E as (method & _ & E). injection E as <-.
  apply well_formed_VDict.
  - repeat constructor; simpl; intuition discriminate.
  - repeat (apply List.Forall_cons || apply List.Forall_nil); cbn [snd];
      try (constructor; fail).
    constructor. apply well_formed_strings.
Qed.

Lemma parsed_records_well_formed {A : Type} (f : A -> Res dict) (l : list A)
    (records : list dict) :
  (forall a record, f a = Ok record -> well_formed (VDict record)) ->
  mapM f l = Ok records ->
  well_formed (VList (VDict <$> records)).
Proof.
  intros Hf E. constructor. apply mapM_Ok_Forall2 in E.
  induction E as [| a r l l' Har _ IH]; [constructor |].
  rewrite fmap_cons. constructor; [| exact IH]. exact (Hf a r Har).
Qed.

Lemma deref_well_formed (h : heap) (l : loc) :
  store_well_formed h -> well_formed (VDict (deref h l)).
Proof.
  intros Hh. unfold deref. destruct (h !! l) as [d |] eqn:Hd.
  - exact (Hh l d Hd).
  - apply well_formed_VDict; constructor.
Qed.

Lemma convert_meta_store_well_formed parse_parts_id (h : heap) (meta : loc) (h' : heap)
    (meta' : loc) :
  store_well_formed h ->
  convert_meta_to_result_document parse_parts_id h meta = Ok (h', meta') ->
  store_well_formed h'.
Proof.
  intros Hh E.
  apply convert_meta_inv in E as (_ & ra & a & rm & m & _ & Ha & _ & Hm & ->).
  intros l d Hd. destruct (decide (meta = l)) as [<- | N].
  - rewrite lookup_insert_eq in Hd. injection Hd as <-.
    apply well_formed_dict_set; [apply well_formed_dict_set |].
    + now apply deref_well_formed.
    + apply (parsed_records_well_formed _ _ _ (parse_canonical_attack_well_formed _) Ha).
    + apply (parsed_records_well_formed _ _ _ (parse_canonical_mbc_well_formed _) Hm).
  - rewrite lookup_insert_ne in Hd by exact N. exact (Hh l d Hd).
Qed.

Lemma convert_rule_well_formed parse_parts_id fuel rules_ capabilities st item st' :
  (forall name matches address t,
     In (name, matches) capabilities -> In (address, t) matches -> tree_well_formed t) ->
  In item capabilities ->
  assembled_well_formed st ->
  convert_rule parse_parts_id fuel rules_ capabilities st item = Ok st' ->
  assembled_well_formed st'.
Proof.
  intros Hcaps Hin (Hstore & Hnames & Hent) E. unfold convert_rule in E.
  destruct st as [doc_rules_ h]. destruct item as [name0 matches0]. cbn [fst snd] in *.
  apply bind_Ok_inv in E as (rule & _ & E).
  destruct (is_subscope_rule h rule).
  - injection E as <-. split; [exact Hstore | split; [exact Hnames | exact Hent]].
  - apply bind_Ok_inv in E as ([h1 m1] & Hmeta & E). cbn [fst snd] in E.
    apply bind_Ok_inv in E as (converted & Hconv & E). injection E as <-.
    pose proof (convert_meta_store_well_formed _ _ _ _ _ Hstore Hmeta) as Hstore1.
    split; [exact Hstore1 | split; cbn [fst snd]].
    { now apply dict_set_NoDup. }
    intros name e He. apply dict_set_In in He as [He | He]; [| exact (Hent name e He)].
    injection He as _ ->. cbn [entry_matches]. split.
    { unfold dict_of_pairs. apply fold_dict_set_NoDup. constructor. }
    rewrite List.Forall_forall. intros p Hp. apply dict_of_pairs_In in Hp.
    apply mapM_Ok_Forall2 in Hconv.
    assert (G : exists am, In am matches0
                /\ convert_match_to_result_document fuel h1 rules_ capabilities (snd am)
                   = Ok (snd p)).
    { clear -Hconv Hp. induction Hconv as [| am ad l l' Had _ IH]; [destruct Hp |].
      cbn beta in Had. apply bind_Ok_inv in Had as (d & Hd & Had). injection Had as <-.
      destruct Hp as [<- | Hp].
      - exists am. split; [now left | exact Hd].
      - destruct (IH Hp) as (am' & Hin' & Hc'). exists am'. split; [now right | exact Hc']. }
    destruct G as ([address t] & Hin' & Hc). cbn [snd] in Hc.
    apply (converted_well_formed h1 rules_ capabilities Hstore1) with (fuel := fuel)
                                                                      (result := t).
    + intros t' Ht'. apply capability_tree_In in Ht' as (n & ms & a & H1 & H2).
      exact (Hcaps n ms a t' H1 H2).
    + exact (Hcaps name0 matches0 address t Hin Hin').
    + exact Hc.
Qed.

Lemma NoDup_keys_map {A B : Type} (key : A -> Key) (f : B -> PyVal) (l : list (A * B)) :
  (forall a b, key a = key b -> a = b) ->
  List.NoDup (List.map fst l) ->
  List.NoDup (List.map fst (List.map (fun p => (key (fst p), f (snd p))) l)).
Proof.
  intros Hkey ND. rewrite List.map_map. cbn [fst].
  rewrite <- (List.map_map fst key). now apply NoDup_map_injective.
Qed.

(** X22: the document handed to the encoder respects the invariants of
    Python's collections at every depth (no key twice in a mapping, no member
    twice in a set) whenever the inputs do; therefore its text depends on its
    content only: any value with the same content, whatever the insertion
    order of its mappings and the iteration order of its sets, is given the
    same outcome by the encoder. *)
Theorem assembled_document_well_formed parse_parts_id fuel (h : heap) meta rules_
    capabilities doc h' :
  well_formed meta ->
  store_well_formed h ->
  (forall name matches address t,
     In (name, matches) capabilities -> In (address, t) matches -> tree_well_formed t) ->
  convert_capabilities_to_result_document parse_parts_id fuel h meta rules_ capabilities
    = Ok (doc, h') ->
  well_formed (document_value h' doc)
  /\ forall v', same_content (document_value h' doc) v' ->
                dumps v' = dumps (document_value h' doc).
Proof.
  intros Hmeta Hstore Hcaps E.
  unfold convert_capabilities_to_result_document in E.
  apply bind_Ok_inv in E as (st & Hfold & E). injection E as <- <-.
  assert (Hinv : assembled_well_formed st).
  { revert Hfold. apply (foldM_invariant _ assembled_well_formed).
    - intros s a s' Hin Hs Hstep.
      exact (convert_rule_well_formed _ _ _ _ _ _ _ Hcaps Hin Hs Hstep).
    - split; [exact Hstore | split; [constructor | intros name e []]]. }
  destruct Hinv as (Hstore' & Hnames & Hent).
  assert (Hdoc : well_formed
                   (document_value (snd st) {| doc_meta := meta; doc_rules := fst st |})).
  { unfold document_value. cbn [doc_meta doc_rules].
    apply well_formed_VDict; [repeat constructor; simpl; intuition discriminate |].
    repeat (apply List.Forall_cons || apply List.Forall_nil); cbn [snd]; [exact Hmeta |].
    apply well_formed_VDict.
    { apply NoDup_keys_map; [| exact Hnames]. intros a b Hab. now injection Hab. }
    rewrite List.Forall_forall. intros q Hq.
    apply in_map_iff in Hq as ([name e] & <- & Hin). cbn [fst snd].
    destruct (Hent name e Hin) as [Haddr Hdocs].
    unfold entry_value. apply well_formed_VDict;
      [repeat constructor; simpl; intuition discriminate |].
    repeat (apply List.Forall_cons || apply List.Forall_nil); cbn [snd].
    - now apply deref_well_formed.
    - constructor.
    - apply well_formed_VDict.
      { apply NoDup_keys_map; [| exact Haddr]. intros a b Hab. now injection Hab. }
      rewrite List.Forall_forall. intros q Hq.
      apply in_map_iff in Hq as ([address d] & <- & Hin'). cbn [fst snd].
      rewrite List.Forall_forall in Hdocs. exact (Hdocs _ Hin'). }
  split; [exact Hdoc |].
  intros v' Hsame. symmetry. now apply same_content_dumps.
Qed.

Lemma assembled_document_well_formed_witness :
  (well_formed Example.global_meta
   /\ store_well_formed Cases.regex_store
   /\ (forall name matches address t,
         In (name, matches) Cases.regex_capabilities -> In (address, t) matches ->
         tree_well_formed t)
   /\ convert_capabilities_to_result_document spec_parse_parts_id 2 Cases.regex_store
        Example.global_meta Cases.regex_rules Cases.regex_capabilities
      = Ok (Cases.regex_document, Cases.regex_store_after))
  /\ well_formed (document_value Cases.regex_store_after Cases.regex_document)
  /\ forall v', same_content (document_value Cases.regex_store_after Cases.regex_document) v' ->
                dumps v' = dumps (document_value Cases.regex_store_after Cases.regex_document).
Proof.
  assert (Hmeta : well_formed Example.global_meta).
  { apply well_formed_VDict; [repeat constructor; simpl; tauto | repeat constructor]. }
  assert (Hstore : store_well_formed Cases.regex_store).
  { intros l d Hd. unfold Cases.regex_store in Hd.
    apply lookup_singleton_Some in Hd as [_ <-].
    apply well_formed_VDict; [repeat constructor; simpl; tauto | repeat constructor]. }
  assert (Hcaps : forall name matches address t,
            In (name, matches) Cases.regex_capabilities -> In (address, t) matches ->
            tree_well_formed t).
  { intros name matches address t [E | []] Hin. injection E as <- <-.
    destruct Hin as [E | []]. injection E as <- <-.
    intros r Hnode.
    inversion Hnode as [| ? child ? Hin _]; subst; [| destruct Hin].
    split; [repeat constructor; simpl; tauto |].
    intros f m Hf _ Hm. destruct Hf as [<- | []]. injection Hm as <-.
    repeat constructor. }
  assert (Hrun : convert_capabilities_to_result_document spec_parse_parts_id 2
                   Cases.regex_store Example.global_meta Cases.regex_rules
                   Cases.regex_capabilities
                 = Ok (Cases.regex_document, Cases.regex_store_after))
    by (vm_compute; reflexivity).
  split; [split; [exact Hmeta | split; [exact Hstore | split; [exact Hcaps | exact Hrun]]] |].
  exact (assembled_document_well_formed spec_parse_parts_id 2 Cases.regex_store
           Example.global_meta Cases.regex_rules Cases.regex_capabilities
           Cases.regex_document Cases.regex_store_after Hmeta Hstore Hcaps Hrun).
Defined.
